(** * The local note store of memo (src/app.js)

    A shallow embedding of the [Store] object and of the part of the Dexie /
    IndexedDB interface it is written against, of the start-up functions,
    of the functions that save from the editor and of the text functions
    of the editor, followed by their properties.

    Modelling conventions.
    - A JavaScript value is a [jsval]; records (memos, folders, update sets)
      are flat objects, finite maps from property names to values.
    - A Dexie table with the inbound primary key [id] is a finite map from
      keys to records.  [toArray] enumerates it; the enumeration order
      (primary-key order in IndexedDB) is not modelled, and no statement
      below depends on it.
    - Every [await db.<table>.<op>(...)] is one atomic database action.  An
      operation of the store is a program ([prog]) made of such actions;
      [run] gives its final state and result, [trace] the states that are
      observable between its actions.
    - Readings of the clock ([new Date().toISOString()]) and the results of
      [Date.now().toString()] and [Math.random().toString(36)] are inputs of
      the operations.
    - [String.prototype.toLowerCase], [String.prototype.trim], [Date.parse]
      and [JSON.parse] are parameters of the development (Section
      variables).
    - A string is a sequence of characters; positions and lengths in the
      text of the editor count these characters.
    - Of the functions that touch the page, the part that reads and writes
      the database, the form fields and the text area is modelled; the
      HTML that is built from it is not. *)

From stdpp Require Import gmap strings list fin_maps sorting.
From Stdlib Require Import ZArith Lia Ascii.

Open Scope Z_scope.
Open Scope string_scope.

(** ** JavaScript values *)

Inductive jsval :=
| JUndefined
| JNull
| JBool (b : bool)
| JNum (z : Z)
| JStr (s : string).

#[global] Instance jsval_eq_dec : EqDecision jsval.
Proof. solve_decision. Defined.

(** ToBoolean. *)
Definition truthy (v : jsval) : bool :=
  match v with
  | JUndefined | JNull => false
  | JBool b => b
  | JNum z => negb (Z.eqb z 0)
  | JStr s => negb (String.eqb s "")
  end.

(** ** IndexedDB keys

    Of the values above, numbers and strings are valid keys. *)

Inductive key :=
| KNum (z : Z)
| KStr (s : string).

#[global] Instance key_eq_dec : EqDecision key.
Proof. solve_decision. Defined.

#[global] Instance key_countable : Countable key.
Proof.
  refine (inj_countable'
            (fun k => match k with KNum z => inl z | KStr s => inr s end)
            (fun x => match x with inl z => KNum z | inr s => KStr s end) _).
  by intros [].
Defined.

Definition to_key (v : jsval) : option key :=
  match v with
  | JNum z => Some (KNum z)
  | JStr s => Some (KStr s)
  | _ => None
  end.

Definition of_key (k : key) : jsval :=
  match k with
  | KNum z => JNum z
  | KStr s => JStr s
  end.

(** ** Objects *)

Abbreviation obj := (gmap string jsval).

(** Property read [o.p]: a missing property reads as [undefined]. *)
Definition get (o : obj) (p : string) : jsval := default JUndefined (o !! p).

(** The inbound primary key of a record: the key path is [id] in both
    tables (lines 8-9). *)
Definition primKey (o : obj) : option key := to_key (get o "id").

(** What [Collection.modify(changes)] does to one record: every property of
    [changes] is written to the record; a property whose value is
    [undefined] is removed from it.  The names are plain property names, as
    the callers in this file give them; Dexie reads a name with a dot in it
    as a path into a nested object, which the flat records here do not
    have. *)
Definition modify_obj (changes o : obj) : obj :=
  merge (fun c old =>
           match c with
           | Some JUndefined => None
           | Some v => Some v
           | None => old
           end) changes o.

(** ** Tables *)

Abbreviation table := (gmap key obj).

Inductive error :=
| DataError         (* the value is not a valid key *)
| ConstraintError   (* the primary key is already in the table *)
| InvalidKeyArg     (* Dexie: invalid key argument of where/get/update *)
| ModifyError       (* Dexie: a modified record could not be written *)
| BulkError         (* Dexie: some record of a bulk operation failed *)
| TypeError.        (* a method call on a value that has no such method *)

#[global] Instance error_eq_dec : EqDecision error.
Proof. solve_decision. Defined.

Abbreviation result A := (error + A)%type.

Definition tbl_toArray (t : table) : list obj := (map_to_list t).*2.

Definition tbl_add (o : obj) (t : table) : result table :=
  match primKey o with
  | None => inl DataError
  | Some k =>
      match t !! k with
      | Some _ => inl ConstraintError
      | None => inr (<[k := o]> t)
      end
  end.

(** [bulkAdd].  A record without a valid key makes the call throw
    ([DataError]) and nothing is added, the records before it included.
    Otherwise the records are added one by one; the ones that can be added
    are, and the call is rejected when the key of one of them was taken. *)
Fixpoint tbl_bulkAdd_go (os : list obj) (t : table) (failed : bool)
  : table * bool :=
  match os with
  | [] => (t, failed)
  | o :: os' =>
      match tbl_add o t with
      | inr t' => tbl_bulkAdd_go os' t' failed
      | inl _ => tbl_bulkAdd_go os' t true
      end
  end.

Definition tbl_bulkAdd (os : list obj) (t : table) : table * result unit :=
  if forallb (fun o => bool_decide (is_Some (primKey o))) os then
    let '(t', failed) := tbl_bulkAdd_go os t false in
    (t', if failed then inl BulkError else inr tt)
  else (t, inl DataError).

Definition tbl_delete (v : jsval) (t : table) : result table :=
  match to_key v with
  | None => inl DataError
  | Some k => inr (delete k t)
  end.

Definition tbl_clear (t : table) : table := ∅.

Definition tbl_get (v : jsval) (t : table) : result (option obj) :=
  match to_key v with
  | None => inl InvalidKeyArg
  | Some k => inr (t !! k)
  end.

(** [where(field).equals(v)]: the records whose [field] is the key [v]. *)
Definition field_is (field : string) (k : key) (o : obj) : Prop :=
  to_key (get o field) = Some k.

#[global] Instance field_is_dec field k o : Decision (field_is field k o).
Proof. unfold field_is. apply _. Defined.

Definition tbl_where_equals (field : string) (v : jsval) (t : table)
  : result (list obj) :=
  match to_key v with
  | None => inl InvalidKeyArg
  | Some k => inr (filter (field_is field k) (tbl_toArray t))
  end.

Definition tbl_where_equals_delete (field : string) (v : jsval) (t : table)
  : result table :=
  match to_key v with
  | None => inl InvalidKeyArg
  | Some k => inr (filter (fun kr => ¬ field_is field k kr.2) t)
  end.

(** [update(key, changes)] is [where(":id").equals(key).modify(changes)].
    No record under [key]: nothing happens and the call resolves.  A
    modification that changes the primary key adds the record under the new
    key and then removes the old one; when the new key is not valid
    ([DataError]) or is taken ([ModifyError]) the record stays as it was and
    the call is rejected. *)
Definition tbl_update (v : jsval) (changes : obj) (t : table)
  : result table :=
  match to_key v with
  | None => inl InvalidKeyArg
  | Some k =>
      match t !! k with
      | None => inr t
      | Some r =>
          let r' := modify_obj changes r in
          match primKey r' with
          | None => inl DataError
          | Some k' =>
              if decide (k' = k) then inr (<[k := r']> t)
              else match t !! k' with
                   | Some _ => inl ModifyError
                   | None => inr (<[k' := r']> (delete k t))
                   end
          end
      end
  end.

(** ** The database and programs over it *)

Record store := mkStore { folders : table; memos : table }.

#[global] Instance store_eq_dec : EqDecision store.
Proof. solve_decision. Defined.

(** One awaited database call: it reads or changes the database and
    resolves with a value or is rejected. *)
Abbreviation action B := (store -> store * result B).

Definition upd_folders (f : table -> result table) : action unit :=
  fun s => match f (folders s) with
           | inl e => (s, inl e)
           | inr t => (mkStore t (memos s), inr tt)
           end.

Definition upd_memos (f : table -> result table) : action unit :=
  fun s => match f (memos s) with
           | inl e => (s, inl e)
           | inr t => (mkStore (folders s) t, inr tt)
           end.

Definition read_folders {B} (f : table -> result B) : action B :=
  fun s => (s, f (folders s)).

Definition read_memos {B} (f : table -> result B) : action B :=
  fun s => (s, f (memos s)).

Definition bulk_folders (os : list obj) : action unit :=
  fun s => let '(t, r) := tbl_bulkAdd os (folders s) in (mkStore t (memos s), r).

Definition bulk_memos (os : list obj) : action unit :=
  fun s => let '(t, r) := tbl_bulkAdd os (memos s) in (mkStore (folders s) t, r).

(** An async function of [Store]: a sequence of awaited database calls. *)
Inductive prog (A : Type) : Type :=
| Ret (a : A)
| Throw (e : error)
| Await {B : Type} (act : action B) (k : B -> prog A).

Arguments Ret {A} a.
Arguments Throw {A} e.
Arguments Await {A B} act k.

Fixpoint prog_bind {A B} (f : A -> prog B) (m : prog A) : prog B :=
  match m with
  | Ret a => f a
  | Throw e => Throw e
  | Await act k => Await act (fun b => prog_bind f (k b))
  end.

#[global] Instance prog_mret : MRet prog := fun A a => Ret a.
#[global] Instance prog_mbind : MBind prog := fun A B f m => prog_bind f m.

Definition await {B} (act : action B) : prog B := Await act Ret.

(** The final database and the result: a rejected call ends the function
    (no function of [Store] catches), and what was written before stays. *)
Fixpoint run {A} (m : prog A) (s : store) : store * result A :=
  match m with
  | Ret a => (s, inr a)
  | Throw e => (s, inl e)
  | Await act k =>
      let '(s', r) := act s in
      match r with
      | inl e => (s', inl e)
      | inr b => run (k b) s'
      end
  end.

(** The databases another task can observe while the function runs: the one
    left by each awaited call, in order (the last one is the final one). *)
Fixpoint trace {A} (m : prog A) (s : store) : list store :=
  match m with
  | Ret _ | Throw _ => []
  | Await act k =>
      let '(s', r) := act s in
      s' :: match r with
            | inl _ => []
            | inr b => trace (k b) s'
            end
  end.

(** ** Strings, dates and sorting *)

(** [s.includes(sub)]. *)
Fixpoint includes (s sub : string) : bool :=
  String.prefix sub s ||
  match s with
  | EmptyString => false
  | String _ s' => includes s' sub
  end.

(** [Array.prototype.sort(cmp)].  The comparator gives a number or NaN
    ([None]); a positive number puts its first argument after its second,
    NaN counts as 0.  The sort is stable: for a comparator that is a
    consistent ordering every stable sort returns this list.  (For one that
    is not, here when some [updatedAt] is not a date, the language leaves the
    order to the implementation.) *)
Definition comes_after {A} (cmp : A -> A -> option Z) (a b : A) : bool :=
  match cmp a b with
  | Some v => Z.ltb 0 v
  | None => false
  end.

Fixpoint sort_insert {A} (cmp : A -> A -> option Z) (x : A) (l : list A)
  : list A :=
  match l with
  | [] => [x]
  | y :: l' => if comes_after cmp x y then y :: sort_insert cmp x l'
               else x :: l
  end.

Fixpoint js_sort {A} (cmp : A -> A -> option Z) (l : list A) : list A :=
  match l with
  | [] => []
  | x :: l' => sort_insert cmp x (js_sort cmp l')
  end.

(** [Array.prototype.filter] with a callback that can throw. *)
Fixpoint js_filter {A} (f : A -> result bool) (l : list A)
  : result (list A) :=
  match l with
  | [] => inr []
  | x :: l' =>
      match f x with
      | inl e => inl e
      | inr b =>
          match js_filter f l' with
          | inl e => inl e
          | inr r => inr (if b then x :: r else r)
          end
      end
  end.

(** The backup document of [exportAllData] / [importData]; a collection
    that is missing or null in the document is [None]. *)
Record backup := mkBackup {
  b_folders : option (list obj);
  b_memos : option (list obj);
  b_exportedAt : jsval
}.

(** ** The operations of [Store] (lines 15-125) *)

Module Store.

(** Line 18; [ms] is [Date.now().toString()] and [rnd] is
    [Math.random().toString(36)]. *)
Definition generateId (ms rnd : string) : string :=
  ms ++ "_" ++ String.substring 2 9 rnd.

Definition getFolders : prog (list obj) :=
  await (read_folders (fun t => inr (tbl_toArray t))).

Definition addFolder (ms rnd now : string) (name : jsval) : prog obj :=
  let folder : obj :=
    <["updatedAt" := JStr now]>
      (<["createdAt" := JStr now]>
         (<["name" := name]> {["id" := JStr (generateId ms rnd)]})) in
  await (upd_folders (tbl_add folder));;
  mret folder.

Definition deleteFolder (folderId : jsval) : prog unit :=
  await (upd_folders (tbl_delete folderId));;
  await (upd_memos (tbl_where_equals_delete "folderId" folderId)).

Definition updateFolder (now : string) (id name : jsval) : prog unit :=
  await (upd_folders
           (tbl_update id (<["updatedAt" := JStr now]> {["name" := name]}))).

Definition updateFolderTimestamp (now : string) (folderId : jsval)
  : prog unit :=
  await (upd_folders (tbl_update folderId {["updatedAt" := JStr now]})).

Definition getMemos : prog (list obj) :=
  await (read_memos (fun t => inr (tbl_toArray t))).

(** Line 62: [{ id: this.generateId(), ...memo, createdAt: now,
    updatedAt: now }]; a later property overrides an earlier one. *)
Definition newMemo (ms rnd now : string) (memo : obj) : obj :=
  <["updatedAt" := JStr now]>
    (<["createdAt" := JStr now]>
       (memo ∪ {["id" := JStr (generateId ms rnd)]})).

(** [now] is the clock read on line 61, [now'] the one read by
    [updateFolderTimestamp] on line 52. *)
Definition addMemo (ms rnd now now' : string) (memo : obj) : prog obj :=
  await (upd_memos (tbl_add (newMemo ms rnd now memo)));;
  updateFolderTimestamp now' (get memo "folderId");;
  mret (newMemo ms rnd now memo).

(** [now] is the clock read on line 75, [now'] the one on line 52. *)
Definition updateMemo (now now' : string) (id : jsval) (updates : obj)
  : prog (option obj) :=
  let updateData : obj := <["updatedAt" := JStr now]> updates in
  await (upd_memos (tbl_update id updateData));;
  (if truthy (get updates "folderId")
   then updateFolderTimestamp now' (get updates "folderId")
   else mret tt);;
  await (read_memos (tbl_get id)).

Definition deleteMemo (id : jsval) : prog unit :=
  await (upd_memos (tbl_delete id)).

Definition exportAllData (now : string) : prog backup :=
  fs ← getFolders;
  ms ← getMemos;
  mret (mkBackup (Some fs) (Some ms) (JStr now)).

Definition importData (data : backup) : prog unit :=
  await (upd_folders (fun t => inr (tbl_clear t)));;
  await (upd_memos (fun t => inr (tbl_clear t)));;
  match b_folders data with
  | Some fs => if (0 <? length fs)%nat then await (bulk_folders fs)
               else mret tt
  | None => mret tt
  end;;
  match b_memos data with
  | Some ms => if (0 <? length ms)%nat then await (bulk_memos ms)
               else mret tt
  | None => mret tt
  end.

Definition clearAllData : prog unit :=
  await (upd_folders (fun t => inr (tbl_clear t)));;
  await (upd_memos (fun t => inr (tbl_clear t))).

Section Builtins.

(** [String.prototype.toLowerCase] and [Date.parse] ([None] is NaN). *)
Variable toLowerCase : string -> string.
Variable Date_parse : string -> option Z.

(** The time value of [new Date(v)], [None] for an invalid date. *)
Definition dateOf (v : jsval) : option Z :=
  match v with
  | JUndefined => None
  | JNull => Some 0
  | JBool b => Some (if b then 1 else 0)
  | JNum z => if Z.leb (Z.abs z) 8640000000000000 then Some z else None
  | JStr s => Date_parse s
  end.

(** Lines 89 and 98: [(a, b) => new Date(b.updatedAt) - new Date(a.updatedAt)]. *)
Definition byUpdatedAtDesc (a b : obj) : option Z :=
  match dateOf (get b "updatedAt"), dateOf (get a "updatedAt") with
  | Some tb, Some ta => Some (tb - ta)
  | _, _ => None
  end.

Definition getMemosByFolder (folderId : jsval) : prog (list obj) :=
  ms ← await (read_memos (tbl_where_equals "folderId" folderId));
  mret (js_sort byUpdatedAtDesc ms).

(** [v && v.toLowerCase().includes(q)], as a condition: a falsy [v] makes
    it false without the call; a truthy value that is not a string has no
    [toLowerCase]. *)
Definition fieldMatches (q : string) (v : jsval) : result bool :=
  if truthy v then
    match v with
    | JStr s => inr (includes (toLowerCase s) q)
    | _ => inl TypeError
    end
  else inr false.

(** Lines 95-97; [||] does not evaluate its right side when the left side
    holds. *)
Definition memoMatches (q : string) (m : obj) : result bool :=
  match fieldMatches q (get m "title") with
  | inl e => inl e
  | inr true => inr true
  | inr false => fieldMatches q (get m "content")
  end.

Definition searchMemos (query : string) : prog (list obj) :=
  let q := toLowerCase query in
  ms ← await (read_memos (fun t => inr (tbl_toArray t)));
  match js_filter (memoMatches q) ms with
  | inl e => Throw e
  | inr found => mret (js_sort byUpdatedAtDesc found)
  end.

End Builtins.

End Store.

(** ** Concrete builtins for the examples

    [ascii_toLowerCase] is [toLowerCase] on ASCII text (other bytes are kept),
    and [iso_parse] is [Date.parse] on the format [toISOString] writes,
    [YYYY-MM-DDTHH:mm:ss.sssZ]. *)

Definition ascii_lower (c : ascii) : ascii :=
  let n := nat_of_ascii c in
  if ((65 <=? n) && (n <=? 90))%nat then ascii_of_nat (n + 32) else c.

Fixpoint ascii_toLowerCase (s : string) : string :=
  match s with
  | EmptyString => EmptyString
  | String c s' => String (ascii_lower c) (ascii_toLowerCase s')
  end.

Definition digit (c : ascii) : option Z :=
  let n := nat_of_ascii c in
  if ((48 <=? n) && (n <=? 57))%nat then Some (Z.of_nat (n - 48)) else None.

Fixpoint digits (acc : Z) (cs : list ascii) : option Z :=
  match cs with
  | [] => Some acc
  | c :: cs' =>
      match digit c with
      | Some d => digits (10 * acc + d) cs'
      | None => None
      end
  end.

Definition is_leap (y : Z) : bool :=
  (Z.eqb (y mod 4) 0 && negb (Z.eqb (y mod 100) 0)) || Z.eqb (y mod 400) 0.

Definition days_in_month (y m : Z) : Z :=
  if Z.eqb m 2 then (if is_leap y then 29 else 28)
  else if Z.eqb m 4 || Z.eqb m 6 || Z.eqb m 9 || Z.eqb m 11 then 30
  else 31.

(** Days from 1970-01-01 to the civil date [y-m-d]. *)
Definition days_from_civil (y m d : Z) : Z :=
  let y' := if Z.leb m 2 then y - 1 else y in
  let era := y' / 400 in
  let yoe := y' - era * 400 in
  let mp := (m + 9) mod 12 in
  let doy := (153 * mp + 2) / 5 + d - 1 in
  let doe := yoe * 365 + yoe / 4 - yoe / 100 + doy in
  era * 146097 + doe - 719468.

Definition iso_parse (s : string) : option Z :=
  match String.list_ascii_of_string s with
  | [y1; y2; y3; y4; "-"; m1; m2; "-"; d1; d2; "T";
     h1; h2; ":"; n1; n2; ":"; s1; s2; "."; f1; f2; f3; "Z"]%char =>
      y ← digits 0 [y1; y2; y3; y4];
      m ← digits 0 [m1; m2];
      d ← digits 0 [d1; d2];
      h ← digits 0 [h1; h2];
      n ← digits 0 [n1; n2];
      sec ← digits 0 [s1; s2];
      f ← digits 0 [f1; f2; f3];
      if Z.leb 1 m && Z.leb m 12 && Z.leb 1 d && Z.leb d (days_in_month y m)
         && Z.leb h 23 && Z.leb n 59 && Z.leb sec 59
      then Some ((((days_from_civil y m d * 24 + h) * 60 + n) * 60 + sec)
                 * 1000 + f)
      else None
  | _ => None
  end.

Definition ex_folder : obj :=
  <["id" := JStr "f1"]> (<["name" := JStr "Work"]>
    (<["createdAt" := JStr "2024-01-01T00:00:00.000Z"]>
      {["updatedAt" := JStr "2024-01-01T00:00:00.000Z"]})).
Definition ex_memo : obj :=
  <["id" := JStr "m1"]> (<["folderId" := JStr "f1"]>
   (<["title" := JStr "Plan"]> (<["content" := JStr "buy milk"]>
    (<["createdAt" := JStr "2024-01-02T00:00:00.000Z"]>
      {["updatedAt" := JStr "2024-01-02T00:00:00.000Z"]})))).
Definition ex_store : store :=
  mkStore {[ KStr "f1" := ex_folder ]} {[ KStr "m1" := ex_memo ]}.

(** ** Start-up: migration and first folders (lines 130-178) *)

(** [db.<table>.put(record)]: add or overwrite under the record's own key. *)
Definition tbl_put (o : obj) (t : table) : result table :=
  match primKey o with
  | None => inl DataError
  | Some k => inr (<[k := o]> t)
  end.

(** The two items of [localStorage] that the migration reads; [None] is the
    [null] of [getItem]. *)
Record localStorage := mkLocalStorage {
  ayumemo_folders : option string;
  ayumemo_memos : option string
}.

(** An item that is there and not empty (a truthy [getItem] result). *)
Definition item_truthy (i : option string) : bool :=
  match i with
  | Some s => negb (String.eqb s "")
  | None => false
  end.

(** [for (const x of xs) await db.<table>.put(x)]; an element that is not
    an object ([None]) has no key and is rejected by [put]. *)
Fixpoint put_each (upd : (table → result table) → action unit)
    (xs : list (option obj)) : prog unit :=
  match xs with
  | [] => mret tt
  | x :: xs' =>
      await (upd (match x with
                  | Some o => tbl_put o
                  | None => fun _ => inl DataError
                  end));;
      put_each upd xs'
  end.

Section Migration.

(** [JSON.parse] followed by the iteration of its result: the elements of
    the array, or the exception ([SyntaxError], or [TypeError] for a value
    that cannot be iterated). *)
Variable JSON_parse : string → result (list (option obj)).

Definition migrate_item (upd : (table → result table) → action unit)
    (i : option string) : prog unit :=
  if item_truthy i then
    match JSON_parse (default "" i) with
    | inl e => Throw e
    | inr xs => put_each upd xs
    end
  else mret tt.

(** The body of the [try] (lines 137-148). *)
Definition migrate_try (ls : localStorage) : prog unit :=
  migrate_item upd_folders (ayumemo_folders ls);;
  migrate_item upd_memos (ayumemo_memos ls).

(** Lines 130-157.  The two [removeItem] calls come after the puts inside
    the [try]; the [catch] only logs, so after an exception the items are
    still there and the records put before it stay in the database. *)
Definition migrateFromLocalStorage (ls : localStorage) (st : store)
  : store * localStorage :=
  if item_truthy (ayumemo_folders ls) || item_truthy (ayumemo_memos ls) then
    match run (migrate_try ls) st with
    | (st', inr _) => (st', mkLocalStorage None None)
    | (st', inl _) => (st', ls)
    end
  else (st, ls).

End Migration.

(** What one [addFolder] call takes from the environment: the results of
    [Date.now().toString()] and [Math.random().toString(36)] and the clock
    reading. *)
Record env := mkEnv { e_ms : string; e_rnd : string; e_now : string }.

Definition env_id (e : env) : string := Store.generateId (e_ms e) (e_rnd e).

(** Lines 160-167: [folders.find(f => f.name === '未分類')]. *)
Definition getOrCreateUncategorizedFolder (e : env) : prog obj :=
  fs ← Store.getFolders;
  match List.find (fun f => bool_decide (get f "name" = JStr "未分類")) fs with
  | Some uncategorized => mret uncategorized
  | None => Store.addFolder (e_ms e) (e_rnd e) (e_now e) (JStr "未分類")
  end.

(** Lines 170-178. *)
Definition initializeData (e1 e2 e3 e4 : env) : prog unit :=
  fs ← Store.getFolders;
  if (length fs =? 0)%nat then
    Store.addFolder (e_ms e1) (e_rnd e1) (e_now e1) (JStr "未分類");;
    Store.addFolder (e_ms e2) (e_rnd e2) (e_now e2) (JStr "メモ");;
    Store.addFolder (e_ms e3) (e_rnd e3) (e_now e3) (JStr "仕事");;
    Store.addFolder (e_ms e4) (e_rnd e4) (e_now e4) (JStr "プライベート");;
    mret tt
  else mret tt.

(** The reset handler (lines 1053-1060) after the confirmation, up to the
    re-rendering: [clearAllData] and then [initializeData]. *)
Definition resetData (e1 e2 e3 e4 : env) : prog unit :=
  Store.clearAllData;;
  initializeData e1 e2 e3 e4.

(** ** The editor (lines 504-586 and 790-897)

    The text area and the search panel as far as these functions read and
    write them: the text, the selection, the two search fields, the list of
    matches and the current match. *)

Open Scope nat_scope.
Open Scope string_scope.

(** [s.substring(a, b)]: both ends are cut to the length and swapped when
    out of order. *)
Definition js_substring (s : string) (a b : nat) : string :=
  let a' := a `min` String.length s in
  let b' := b `min` String.length s in
  String.substring (a' `min` b') ((a' `max` b') - (a' `min` b')) s.

(** [s.substring(a)]. *)
Definition js_substring_from (s : string) (a : nat) : string :=
  js_substring s a (String.length s).

(** [s.indexOf(sub, from)], [None] for -1. *)
Definition js_indexOf (s sub : string) (from : nat) : option nat :=
  if String.eqb sub "" then Some (from `min` String.length s)
  else String.index from sub s.

Record editor := mkEditor {
  memoContent : string;
  selectionStart : nat;
  selectionEnd : nat;
  searchText : string;
  replaceText : string;
  searchMatches : list nat;
  searchMatchIndex : nat
}.

(** [textarea.setSelectionRange(a, b)]. *)
Definition setSelectionRange (a b : nat) (e : editor) : editor :=
  let b' := b `min` String.length (memoContent e) in
  let a' := (a `min` String.length (memoContent e)) `min` b' in
  mkEditor (memoContent e) a' b' (searchText e) (replaceText e)
           (searchMatches e) (searchMatchIndex e).

(** [textarea.value = v]: a new text puts the cursor at its end. *)
Definition set_value (v : string) (e : editor) : editor :=
  if String.eqb v (memoContent e) then e
  else mkEditor v (String.length v) (String.length v) (searchText e)
                (replaceText e) (searchMatches e) (searchMatchIndex e).

Definition set_matches (ms : list nat) (e : editor) : editor :=
  mkEditor (memoContent e) (selectionStart e) (selectionEnd e) (searchText e)
           (replaceText e) ms (searchMatchIndex e).

Definition set_index (i : nat) (e : editor) : editor :=
  mkEditor (memoContent e) (selectionStart e) (selectionEnd e) (searchText e)
           (replaceText e) (searchMatches e) i.

(** Lines 544-551.  Past the end of the list [searchMatches[i]] is
    [undefined] and the range is (0, 0). *)
Definition highlightMatch (e : editor) : editor :=
  match searchMatches e with
  | [] => e
  | _ =>
      match searchMatches e !! searchMatchIndex e with
      | Some pos =>
          setSelectionRange pos (pos + String.length (searchText e)) e
      | None => setSelectionRange 0 0 e
      end
  end.

(** The loop of lines 519-522; every turn uses one unit of [fuel]. *)
Fixpoint findMatches_loop (fuel : nat) (lowerContent lowerQuery : string)
    (queryLength index : nat) : option (list nat) :=
  match fuel with
  | O => None
  | S fuel' =>
      match js_indexOf lowerContent lowerQuery index with
      | None => Some []
      | Some i =>
          cons i <$> findMatches_loop fuel' lowerContent lowerQuery
                       queryLength (i + queryLength)
      end
  end.

Section Editor.

Variable toLowerCase : string → string.

(** Lines 504-531; [None] when the loop does not end within one turn per
    character of the text and one more. *)
Definition findMatches (e : editor) : option editor :=
  let query := searchText e in
  let content := memoContent e in
  if String.eqb query "" then Some (set_matches [] e)
  else
    let lowerContent := toLowerCase content in
    let lowerQuery := toLowerCase query in
    match findMatches_loop (S (String.length lowerContent)) lowerContent
            lowerQuery (String.length query) 0 with
    | None => None
    | Some ms =>
        if Nat.ltb 0 (length ms)
        then Some (highlightMatch (set_index 0 (set_matches ms e)))
        else Some (set_matches ms e)
    end.

(** Lines 533-542. *)
Definition findNext (e : editor) : option editor :=
  match searchMatches e with
  | [] => findMatches e
  | _ =>
      Some (highlightMatch
              (set_index ((searchMatchIndex e + 1) `mod` length (searchMatches e))
                         e))
  end.

(** Lines 553-569.  Past the end of the list [pos] is [undefined]:
    [substring(0, undefined)] and [substring(NaN)] are both the whole
    text. *)
Definition replaceOne (e : editor) : option editor :=
  let query := searchText e in
  let replacement := replaceText e in
  if String.eqb query "" || bool_decide (searchMatches e = []) then Some e
  else
    let content := memoContent e in
    let value :=
      match searchMatches e !! searchMatchIndex e with
      | Some pos =>
          js_substring content 0 pos ++ replacement ++
          js_substring_from content (pos + String.length query)
      | None => content ++ replacement ++ content
      end in
    findMatches (set_value value e).

End Editor.

(** Lines 790-792: a backslash before each of [. * + ? ^ $ { } ( ) | [ ] \]. *)
Definition regex_special (c : ascii) : bool :=
  bool_decide (c ∈ [".";"*";"+";"?";"^";"$";"{";"}";"(";")";"|";"[";"]";"\"]%char).

Fixpoint escapeRegex (s : string) : string :=
  match s with
  | EmptyString => EmptyString
  | String c s' =>
      if regex_special c then String "\"%char (String c (escapeRegex s'))
      else String c (escapeRegex s')
  end.

(** The loop of lines 805-808. *)
Fixpoint lineStartOf (content : string) (lineStart : nat) : nat :=
  match lineStart with
  | O => O
  | S n =>
      if bool_decide (String.get n content = Some "010"%char) then S n
      else lineStartOf content n
  end.

(** Lines 799-818. *)
Definition insertAtLineStart (prefix : string) (e : editor) : editor :=
  let start := selectionStart e in
  let content := memoContent e in
  let lineStart := lineStartOf content start in
  let e' := set_value (js_substring content 0 lineStart ++ prefix ++
                       js_substring_from content lineStart) e in
  let newPos := start + String.length prefix in
  setSelectionRange newPos newPos e'.

(** Lines 821-840. *)
Definition wrapSelection (before after : string) (e : editor) : editor :=
  let start := selectionStart e in
  let end_ := selectionEnd e in
  let content := memoContent e in
  let selectedText := js_substring content start end_ in
  if negb (String.eqb selectedText "") then
    setSelectionRange (start + String.length before)
                      (end_ + String.length before)
      (set_value (js_substring content 0 start ++ before ++ selectedText ++
                  after ++ js_substring_from content end_) e)
  else
    setSelectionRange (start + String.length before)
                      (start + String.length before)
      (set_value (js_substring content 0 start ++ before ++ after ++
                  js_substring_from content end_) e).

(** Lines 878-894. *)
Definition insertHr (e : editor) : editor :=
  let start := selectionStart e in
  let content := memoContent e in
  let hrText := String "010" (String "010" ("---" ++
                  String "010" (String "010" EmptyString))) in
  let newPos := start + String.length hrText in
  setSelectionRange newPos newPos
    (set_value (js_substring content 0 start ++ hrText ++
                js_substring_from content start) e).

Open Scope Z_scope.
Open Scope string_scope.

(** ** Saving from the editor (lines 463-484 and 966-990)

    What the two functions do to the database; the re-rendering that
    follows the save in both only reads it.  The form is the folder chosen
    in the select box, the title and text fields and the memo that is open
    ([null] for a new one). *)

Record form := mkForm {
  folderSelect : string;
  memoTitle : string;
  memoText : string;
  currentMemoId : jsval
}.

(** [{ folderId, title, content }]. *)
Definition memo_fields (folderId : jsval) (title content : string) : obj :=
  <["content" := JStr content]>
    (<["title" := JStr title]> {["folderId" := folderId]}).

Section Save.

(** [String.prototype.trim]. *)
Variable trim : string → string.

(** Lines 966-990; the result is the memo that is open afterwards.  [ef]
    is what a new '未分類' folder takes from the environment, [em] what the
    memo takes, [now'] the clock read by the touch of the folder. *)
Definition saveCurrentMemo (ef em : env) (now' : string) (f : form)
  : prog jsval :=
  let folderId := folderSelect f in
  let title := trim (memoTitle f) in
  let content := memoText f in
  if String.eqb title "" && String.eqb (trim content) "" then
    mret (currentMemoId f)
  else
    targetFolderId ←
      (if String.eqb folderId "" then
         uncategorized ← getOrCreateUncategorizedFolder ef;
         mret (get uncategorized "id")
       else mret (JStr folderId));
    if truthy (currentMemoId f) then
      Store.updateMemo (e_now em) now' (currentMemoId f)
        (memo_fields targetFolderId title content);;
      mret (currentMemoId f)
    else
      newMemo ← Store.addMemo (e_ms em) (e_rnd em) (e_now em) now'
                  (memo_fields targetFolderId title content);
      mret (get newMemo "id").

(** Lines 463-484. *)
Definition closeEditor (ef em : env) (now' : string) (f : form) : prog unit :=
  let title := trim (memoTitle f) in
  let content := memoText f in
  let some_text := negb (String.eqb title "" && String.eqb (trim content) "") in
  folderId ←
    (if String.eqb (folderSelect f) "" && some_text then
       uncategorized ← getOrCreateUncategorizedFolder ef;
       mret (get uncategorized "id")
     else mret (JStr (folderSelect f)));
  if truthy folderId && some_text then
    if truthy (currentMemoId f) then
      Store.updateMemo (e_now em) now' (currentMemoId f)
        (memo_fields folderId title content);;
      mret tt
    else
      Store.addMemo (e_ms em) (e_rnd em) (e_now em) now'
        (memo_fields folderId title content);;
      mret tt
  else mret tt.

End Save.

(** ** The order of the folder list (lines 289-293) *)

(** [a || b]. *)
Definition js_or (a b : jsval) : jsval := if truthy a then a else b.

Section FolderOrder.

Variable Date_parse : string → option Z.

(** [new Date(f.updatedAt || f.createdAt || 0)]. *)
Definition folderDate (f : obj) : option Z :=
  Store.dateOf Date_parse
    (js_or (js_or (get f "updatedAt") (get f "createdAt")) (JNum 0)).

Definition byFolderDateDesc (a b : obj) : option Z :=
  match folderDate b, folderDate a with
  | Some tb, Some ta => Some (tb - ta)
  | _, _ => None
  end.

(** The list that [renderFolders] goes through. *)
Definition sortedFolders : prog (list obj) :=
  fs ← Store.getFolders;
  mret (js_sort byFolderDateDesc fs).

End FolderOrder.

(** ** Start-up (lines 1161-1165) *)

Section Init.

Variable JSON_parse : string → result (list (option obj)).

(** [init], up to the first rendering: the migration (which catches its
    own errors) and then the first folders. *)
Definition init (e1 e2 e3 e4 : env) (ls : localStorage) (st : store)
  : store * localStorage * result unit :=
  let '(st1, ls1) := migrateFromLocalStorage JSON_parse ls st in
  let '(st2, r) := run (initializeData e1 e2 e3 e4) st1 in
  (st2, ls1, r).

End Init.

(** ** The folder list (lines 287-394 and 617-631) *)

(** [s.split('\n')]. *)
Fixpoint split_lines (s : string) : list string :=
  match s with
  | EmptyString => [EmptyString]
  | String c s' =>
      if Ascii.eqb c "010" then EmptyString :: split_lines s'
      else match split_lines s' with
           | l :: ls => String c l :: ls
           | [] => [String c EmptyString]
           end
  end.

Section FolderList.

Variable Date_parse : string → option Z.
Variable trim : string → string.

(** The global [deleteFolder(folderId)]: what the confirmation shows (the
    name of the folder and the number of its memos; the number is mentioned
    when it is not 0) and what the confirmation runs, up to the
    re-rendering.  [folder.name] of a folder that was not found is a
    [TypeError]. *)
Definition deleteFolder (folderId : jsval)
  : prog (jsval * nat * prog unit) :=
  fs ← Store.getFolders;
  let folder := List.find (fun f => bool_decide (get f "id" = folderId)) fs in
  ms ← Store.getMemosByFolder Date_parse folderId;
  match folder with
  | Some f => mret (get f "name", length ms, Store.deleteFolder folderId)
  | None => Throw TypeError
  end.

(** Lines 368-394: the two lines of text of a memo card (the date and the
    HTML around them are left out).  [split] and [trim] are methods of
    strings: a truthy [content] or [title] that is not a string is a
    [TypeError]. *)
Definition renderMemoCard (memo : obj) : result (string * string) :=
  match js_or (get memo "content") (JStr "") with
  | JStr content =>
      let lines := filter (fun l => trim l ≠ "") (split_lines content) in
      let first := default "" (lines !! 0%nat) in
      let second := default "" (lines !! 1%nat) in
      let untitled :=
        (if String.eqb first "" then "無題のメモ" else first, second) in
      match get memo "title" with
      | JStr title =>
          if negb (String.eqb title "") && negb (String.eqb (trim title) "")
          then inr (title, first)
          else inr untitled
      | title => if truthy title then inl TypeError else inr untitled
      end
  | _ => inl TypeError
  end.

(** [memos.map(renderMemoCard)]: in order, up to the first card that
    throws. *)
Fixpoint renderMemoCards (ms : list obj)
  : result (list (obj * (string * string))) :=
  match ms with
  | [] => inr []
  | m :: ms' =>
      match renderMemoCard m with
      | inl e => inl e
      | inr card =>
          match renderMemoCards ms' with
          | inl e => inl e
          | inr cards => inr ((m, card) :: cards)
          end
      end
  end.

(** The loop of [renderFolders] (lines 296-354): for each folder of the
    list, in turn, its memos are read and their cards are made. *)
Fixpoint folderSections (fs : list obj)
  : prog (list (obj * list (obj * (string * string)))) :=
  match fs with
  | [] => mret []
  | folder :: fs' =>
      ms ← Store.getMemosByFolder Date_parse (get folder "id");
      match renderMemoCards ms with
      | inl e => Throw e
      | inr cards =>
          rest ← folderSections fs';
          mret ((folder, cards) :: rest)
      end
  end.

(** Lines 287-355: the sections of the folder list, each with the cards of
    its memos; the list is written to the page only when no card throws. *)
Definition renderFolders : prog (list (obj * list (obj * (string * string)))) :=
  fs ← sortedFolders Date_parse;
  folderSections fs.

End FolderList.

(** * The vocabulary of the statements *)

(** The invariant of a table with an inbound key: a record is stored under
    the key that its [id] gives. *)
Definition table_wf (t : table) : Prop :=
  ∀ k r, t !! k = Some r → primKey r = Some k.

Definition store_wf (s : store) : Prop :=
  table_wf (folders s) ∧ table_wf (memos s).

(** A database in which the folder [F] is gone while a memo that points to
    it is still there. *)
Definition folder_gone_memos_present (F : key) (s : store) : Prop :=
  folders s !! F = None ∧
  ∃ m, m ∈ tbl_toArray (memos s) ∧ get m "folderId" = of_key F.

(** Records that a table can take: each has a valid [id], and no two have
    the same. *)
Definition insertable (os : list obj) : Prop :=
  Forall (fun o => is_Some (primKey o)) os ∧ NoDup (primKey <$> os).

(** The collection of a backup document that [importData] inserts: line 113
    skips a missing (or empty) one. *)
Definition records (c : option (list obj)) : list obj := default [] c.

(** A field with some text in it. *)
Definition nonempty_text (v : jsval) : Prop :=
  match v with
  | JStr s => s ≠ ""
  | _ => False
  end.

Definition has_text (m : obj) : Prop :=
  nonempty_text (get m "title") ∨ nonempty_text (get m "content").

#[global] Instance nonempty_text_dec v : Decision (nonempty_text v).
Proof. destruct v; simpl; apply _. Defined.

#[global] Instance has_text_dec m : Decision (has_text m).
Proof. unfold has_text. apply _. Defined.

Section SearchVocabulary.

Variable toLowerCase : string → string.
Variable Date_parse : string → option Z.

(** The value [v] of a field contains [q] as a case-insensitive substring;
    a field that is missing, not a string or empty does not. *)
Definition contains_ci (q : string) (v : jsval) : Prop :=
  match v with
  | JStr s => s ≠ "" ∧ includes (toLowerCase s) (toLowerCase q) = true
  | _ => False
  end.

Definition matches_query (q : string) (m : obj) : Prop :=
  contains_ci q (get m "title") ∨ contains_ci q (get m "content").

#[global] Instance contains_ci_dec q v : Decision (contains_ci q v).
Proof. destruct v; simpl; apply _. Defined.

#[global] Instance matches_query_dec q m : Decision (matches_query q m).
Proof. unfold matches_query. apply _. Defined.

(** A field as the data model has it: a string, or nothing (falsy). *)
Definition text_or_absent (v : jsval) : Prop :=
  match v with
  | JUndefined | JNull | JStr _ => True
  | _ => truthy v = false
  end.

Definition memo_typed (m : obj) : Prop :=
  text_or_absent (get m "title") ∧ text_or_absent (get m "content").

Definition updatedAt_time (m : obj) : option Z :=
  Store.dateOf Date_parse (get m "updatedAt").

Definition dated (m : obj) : Prop := is_Some (updatedAt_time m).

(** [a] was updated no earlier than [b]. *)
Definition newer_first (a b : obj) : Prop :=
  ∃ ta tb, updatedAt_time a = Some ta ∧ updatedAt_time b = Some tb ∧ (tb ≤ ta)%Z.

End SearchVocabulary.

(** The words of the search claim, said without the functions of the
    code: a substring by the text around it, the time of the last update
    by the stored timestamp. *)
Section SearchClaimVocabulary.

Variable toLowerCase : string → string.
Variable Date_parse : string → option Z.

(** [sub] is a substring of [s]: [s] is some text, [sub], some text. *)
Definition substring_of (sub s : string) : Prop :=
  ∃ pre post, s = pre ++ sub ++ post.

(** The field [v] is a text, not empty, that contains [q], case aside. *)
Definition field_contains (q : string) (v : jsval) : Prop :=
  ∃ s, v = JStr s ∧ s ≠ "" ∧ substring_of (toLowerCase q) (toLowerCase s).

Definition memo_contains (q : string) (m : obj) : Prop :=
  field_contains q (get m "title") ∨ field_contains q (get m "content").

(** The [updatedAt] of [m] is a timestamp, of the time [t]. *)
Definition updated_at (m : obj) (t : Z) : Prop :=
  ∃ s, get m "updatedAt" = JStr s ∧ Date_parse s = Some t.

Definition timestamped (m : obj) : Prop := ∃ t, updated_at m t.

(** No memo of the list comes before one that was updated later. *)
Definition updatedAt_descending (l : list obj) : Prop :=
  ∀ (i j : nat) a b ta tb,
    (i < j)%nat → l !! i = Some a → l !! j = Some b →
    updated_at a ta → updated_at b tb → (tb ≤ ta)%Z.

End SearchClaimVocabulary.

(** Programs that keep the table invariant. *)
Definition action_wf {B} (act : action B) : Prop :=
  ∀ s, store_wf s → store_wf (act s).1.

Inductive prog_wf {A} : prog A → Prop :=
| prog_wf_Ret a : prog_wf (Ret a)
| prog_wf_Throw e : prog_wf (Throw e)
| prog_wf_Await {B} (act : action B) k :
    action_wf act → (∀ b, prog_wf (k b)) → prog_wf (Await act k).

(** A memo of a folder that does not exist. *)
Definition ex_orphan : obj :=
  <["id" := JStr "m9"]> (<["folderId" := JStr "no-such-folder"]>
    (<["createdAt" := JStr "2001-02-03T04:05:06.007Z"]>
      {["updatedAt" := JStr "2001-02-03T04:05:06.007Z"]})).

(** A program that keeps the table invariant, in its final database and in
    the ones observable on the way. *)
Definition keeps_wf {A} (m : prog A) : Prop :=
  ∀ s, store_wf s → store_wf (run m s).1 ∧ Forall store_wf (trace m s).

(** A string of decimal digits, as [Date.now().toString()] gives. *)
Fixpoint is_digits (s : string) : bool :=
  match s with
  | EmptyString => true
  | String c s' => bool_decide (is_Some (digit c)) && is_digits s'
  end.

(** The record that [addFolder] builds (lines 28-33). *)
Definition folder_record (id now : string) (name : jsval) : obj :=
  <["updatedAt" := JStr now]>
    (<["createdAt" := JStr now]>
       (<["name" := name]> {["id" := JStr id]})).

(** The folder that [addFolder] makes from the environment [e]. *)
Definition env_folder (e : env) (name : string) : obj :=
  folder_record (env_id e) (e_now e) (JStr name).

(** A folder with the reserved name. *)
Definition is_uncategorized (f : obj) : Prop := get f "name" = JStr "未分類".

(** The records that the migration reads from an item: the parsed array of
    an item that is there, nothing for one that is not. *)
Definition item_records (JSON_parse : string → result (list (option obj)))
    (i : option string) (os : list obj) : Prop :=
  if item_truthy i then JSON_parse (default "" i) = inr (Some <$> os)
  else os = [].

(** [sub] occurs in [s] at position [p]. *)
Definition occurs_at (sub s : string) (p : nat) : Prop :=
  String.substring p (String.length sub) s = sub.

(** The text that a pattern made of plain characters and of characters
    behind a backslash matches, when it is such a pattern. *)
Fixpoint literal_of_pattern (p : string) : option string :=
  match p with
  | EmptyString => Some EmptyString
  | String c p' =>
      if Ascii.eqb c "\"%char then
        match p' with
        | String d p'' => String d <$> literal_of_pattern p''
        | EmptyString => None
        end
      else if regex_special c then None
      else String c <$> literal_of_pattern p'
  end.

(** No character of [s] is special in a regular expression. *)
Fixpoint plain_text (s : string) : bool :=
  match s with
  | EmptyString => true
  | String c s' => negb (regex_special c) && plain_text s'
  end.

(** An editor in the middle of a search, and a text of two lines. *)
Definition ex_editor : editor :=
  mkEditor "Hello world, hello World" 13 18 "hello" "bye" [0; 13]%nat 1.

Definition ex_lines : string :=
  "ab" +:+ String "010" "cd".

(** More examples. *)
Definition ex_memo2 : obj :=
  <["id" := JStr "m2"]> (<["folderId" := JStr "f1"]>
   (<["title" := JStr ""]> (<["content" := JStr "call Bob"]>
    (<["createdAt" := JStr "2024-01-03T00:00:00.000Z"]>
      {["updatedAt" := JStr "2024-01-05T00:00:00.000Z"]})))).
Definition ex_memo3 : obj :=
  <["id" := JStr "m3"]> (<["folderId" := JStr "f2"]>
   (<["title" := JStr "Elsewhere"]>
    (<["createdAt" := JStr "2024-01-04T00:00:00.000Z"]>
      {["updatedAt" := JStr "2024-01-04T00:00:00.000Z"]}))).
Definition ex_store3 : store :=
  mkStore {[ KStr "f1" := ex_folder ]}
          (<[KStr "m1" := ex_memo]> (<[KStr "m2" := ex_memo2]>
             {[ KStr "m3" := ex_memo3 ]})).

Definition ex_store_orphan : store :=
  mkStore ∅ {[ KStr "m1" := ex_memo ]}.

Definition ex_env (n : string) : env :=
  mkEnv ("170000000000" ++ n) "0.4fzyo82mvyr" "2025-01-01T00:00:00.000Z".

Definition ex_uncategorized : obj :=
  folder_record "u1" "2024-01-01T00:00:00.000Z" (JStr "未分類").

Definition ex_store_u : store :=
  mkStore {[ KStr "u1" := ex_uncategorized ]} ∅.

(** A parser for the example: it knows two documents. *)
Definition ex_parse (s : string) : result (list (option obj)) :=
  if String.eqb s "[folder f1]" then inr [Some ex_folder]
  else if String.eqb s "[memo m1]" then inr [Some ex_memo]
  else inl TypeError.

(** Sorting by a date, latest first: the comparator [(a, b) => date(b) -
    date(a)] and the order it gives. *)
Section SortByDateVocabulary.

Context {A : Type} (time : A → option Z).

Definition by_date_desc (a b : A) : option Z :=
  match time b, time a with
  | Some tb, Some ta => Some (tb - ta)
  | _, _ => None
  end.

Definition later_first (a b : A) : Prop :=
  ∃ ta tb, time a = Some ta ∧ time b = Some tb ∧ (tb ≤ ta)%Z.

End SortByDateVocabulary.

#[global] Instance is_uncategorized_dec f : Decision (is_uncategorized f).
Proof. unfold is_uncategorized. apply _. Defined.

Definition ex_trim (s : string) : string :=
  if String.eqb s "  " then "" else s.

Definition ex_form_new : form := mkForm "" "Plan" "buy milk" JNull.

(** A memo whose content is a number, in the example folder. *)
Definition ex_memo_num : obj :=
  <["id" := JStr "m5"]> (<["folderId" := JStr "f1"]>
    {["content" := JNum 5]}).

Definition ex_store_num : store :=
  mkStore {[ KStr "f1" := ex_folder ]} {[ KStr "m5" := ex_memo_num ]}.

(** * Properties *)

(** ** The builtins of the examples *)

Example iso_parse_epoch : iso_parse "1970-01-01T00:00:00.000Z" = Some 0.
Proof. reflexivity. Qed.

Example iso_parse_2024 :
  iso_parse "2024-03-01T12:30:45.678Z" = Some 1709296245678.
Proof. reflexivity. Qed.

Example iso_parse_bad : iso_parse "yesterday" = None.
Proof. reflexivity. Qed.

Example generateId_ex :
  Store.generateId "1700000000000" "0.4fzyo82mvyr" = "1700000000000_4fzyo82mv".
Proof. reflexivity. Qed.

(** ** Objects and tables *)

Lemma get_insert_eq (o : obj) p v : get (<[p := v]> o) p = v.
Proof. unfold get. by rewrite lookup_insert_eq. Qed.

Lemma get_insert_ne (o : obj) p p' v :
  p ≠ p' → get (<[p := v]> o) p' = get o p'.
Proof. intros H. unfold get. by rewrite lookup_insert_ne. Qed.

Lemma to_key_of_key k : to_key (of_key k) = Some k.
Proof. by destruct k. Qed.

Lemma to_key_Some v k : to_key v = Some k → v = of_key k.
Proof. destruct v; simpl; intros [= <-]; done. Qed.

Lemma lookup_modify_obj (changes o : obj) p :
  modify_obj changes o !! p =
    match changes !! p with
    | Some JUndefined => None
    | Some v => Some v
    | None => o !! p
    end.
Proof.
  unfold modify_obj. rewrite lookup_merge.
  destruct (changes !! p) as [[]|], (o !! p); done.
Qed.

Lemma get_modify_obj (changes o : obj) p :
  get (modify_obj changes o) p =
    match changes !! p with
    | Some v => v
    | None => get o p
    end.
Proof.
  unfold get. rewrite lookup_modify_obj.
  destruct (changes !! p) as [[]|]; done.
Qed.

Lemma elem_of_tbl_toArray (t : table) (o : obj) :
  o ∈ tbl_toArray t ↔ ∃ k, t !! k = Some o.
Proof.
  unfold tbl_toArray. rewrite list_elem_of_fmap. split.
  - intros [[k o'] [-> H]]. exists k. by apply elem_of_map_to_list.
  - intros [k H]. exists (k, o). split; [done|]. by apply elem_of_map_to_list.
Qed.

Lemma table_wf_empty : table_wf ∅.
Proof. intros k r. by rewrite lookup_empty. Qed.

Lemma table_wf_insert (t : table) k r :
  table_wf t → primKey r = Some k → table_wf (<[k := r]> t).
Proof.
  intros Ht Hr k' r'. rewrite lookup_insert. case_decide; simplify_eq.
  - by intros [= <-].
  - apply Ht.
Qed.

Lemma table_wf_delete (t : table) k : table_wf t → table_wf (delete k t).
Proof.
  intros Ht k' r'. rewrite lookup_delete. case_decide; [done|]. apply Ht.
Qed.

Lemma table_wf_filter (P : key * obj → Prop) `{!∀ x, Decision (P x)}
    (t : table) :
  table_wf t → table_wf (filter P t).
Proof. intros Ht k r [Hkr _]%map_lookup_filter_Some. by apply Ht. Qed.

Lemma tbl_add_wf o t t' : table_wf t → tbl_add o t = inr t' → table_wf t'.
Proof.
  unfold tbl_add. intros Ht.
  destruct (primKey o) as [k|] eqn:Hk; [|done].
  destruct (t !! k); [done|]. intros [= <-]. by apply table_wf_insert.
Qed.

Lemma tbl_delete_wf v t t' :
  table_wf t → tbl_delete v t = inr t' → table_wf t'.
Proof.
  unfold tbl_delete. intros Ht. destruct (to_key v); [|done].
  intros [= <-]. by apply table_wf_delete.
Qed.

Lemma tbl_where_equals_delete_wf field v t t' :
  table_wf t → tbl_where_equals_delete field v t = inr t' → table_wf t'.
Proof.
  unfold tbl_where_equals_delete. intros Ht. destruct (to_key v); [|done].
  intros [= <-]. by apply table_wf_filter.
Qed.

Lemma tbl_update_wf v changes t t' :
  table_wf t → tbl_update v changes t = inr t' → table_wf t'.
Proof.
  unfold tbl_update. intros Ht. destruct (to_key v) as [k|]; [|done].
  destruct (t !! k) as [r|]; [|by intros [= <-]].
  destruct (primKey (modify_obj changes r)) as [k'|] eqn:Hk'; [|done].
  case_decide; subst.
  - intros [= <-]. by apply table_wf_insert.
  - destruct (t !! k'); [done|]. intros [= <-].
    apply table_wf_insert; [|done]. by apply table_wf_delete.
Qed.

Lemma tbl_bulkAdd_go_wf os : ∀ t b,
  table_wf t → table_wf (tbl_bulkAdd_go os t b).1.
Proof.
  induction os as [|o os IH]; intros t b Ht; simpl; [done|].
  destruct (tbl_add o t) as [e|t'] eqn:Hadd; [by apply IH|].
  apply IH. by eapply tbl_add_wf.
Qed.

(** A record that [update] leaves under its key: the usual case, where the
    changes do not touch [id]. *)
Lemma tbl_update_same_key (t : table) k r changes :
  table_wf t → t !! k = Some r → changes !! "id" = None →
  tbl_update (of_key k) changes t = inr (<[k := modify_obj changes r]> t).
Proof.
  intros Ht Hr Hid. unfold tbl_update. rewrite to_key_of_key, Hr.
  assert (primKey (modify_obj changes r) = Some k) as ->.
  { unfold primKey. rewrite get_modify_obj, Hid. by apply Ht. }
  by rewrite decide_True.
Qed.

Lemma tbl_update_missing (t : table) k changes :
  t !! k = None → tbl_update (of_key k) changes t = inr t.
Proof. intros H. unfold tbl_update. by rewrite to_key_of_key, H. Qed.

(** ** deleteFolder *)

Lemma run_deleteFolder (st : store) (F : key) :
  run (Store.deleteFolder (of_key F)) st =
    (mkStore (delete F (folders st))
             (filter (fun kr => ¬ field_is "folderId" F kr.2) (memos st)),
     inr tt).
Proof.
  unfold Store.deleteFolder. cbn.
  unfold upd_folders, upd_memos, tbl_delete, tbl_where_equals_delete.
  by rewrite to_key_of_key.
Qed.

Lemma trace_deleteFolder (st : store) (F : key) :
  trace (Store.deleteFolder (of_key F)) st =
    [ mkStore (delete F (folders st)) (memos st);
      mkStore (delete F (folders st))
              (filter (fun kr => ¬ field_is "folderId" F kr.2) (memos st)) ].
Proof.
  unfold Store.deleteFolder. cbn.
  unfold upd_folders, upd_memos, tbl_delete, tbl_where_equals_delete.
  by rewrite to_key_of_key.
Qed.

(** The memos of the other folders stay. *)
Lemma deleteFolder_keeps_others (st : store) (F k : key) (m : obj) :
  memos st !! k = Some m → get m "folderId" ≠ of_key F →
  memos (run (Store.deleteFolder (of_key F)) st).1 !! k = Some m.
Proof.
  intros Hm Hne. rewrite run_deleteFolder. cbn.
  apply map_lookup_filter_Some. split; [done|]. cbn. unfold field_is.
  intros Hk. by apply to_key_Some in Hk.
Qed.


Lemma ex_store_wf : store_wf ex_store.
Proof.
  split; intros k r; unfold ex_store; cbn;
    intros [<- <-]%lookup_singleton_Some; reflexivity.
Qed.


(** C7, as stated, fails: deleting folder [f1] of the example store, the
    database left by the first awaited call has no folder [f1] and still has
    memo [m1] of that folder. *)
Lemma deleteFolder_intermediate_counterexample :
  ∃ s, s ∈ trace (Store.deleteFolder (JStr "f1")) ex_store ∧
       s ≠ (run (Store.deleteFolder (JStr "f1")) ex_store).1 ∧
       folder_gone_memos_present (KStr "f1") s.
Proof.
  change (JStr "f1") with (of_key (KStr "f1")).
  exists (mkStore ∅ {[ KStr "m1" := ex_memo ]}). split; [|split].
  - rewrite trace_deleteFolder. apply list_elem_of_here.
  - rewrite run_deleteFolder. cbn. intros H.
    apply (f_equal (fun s => bool_decide (is_Some (memos s !! KStr "m1"))))
      in H.
    vm_compute in H. discriminate H.
  - split; [done|]. exists ex_memo. split; [|reflexivity].
    apply elem_of_tbl_toArray. exists (KStr "m1"). cbn.
    apply lookup_singleton_eq.
Qed.

(** C7, amended. [deleteFolder(id)] is two database calls one after the
    other: the first removes the folder record and leaves the memo table as
    it was, the second removes the memos of the folder.  So the state in
    between has the folder gone and all its memos still present, and the
    final state has neither the folder nor a memo of it. *)
Theorem deleteFolder_two_steps (st : store) (F : key) :
  ∃ s1 s2,
    trace (Store.deleteFolder (of_key F)) st = [s1; s2] ∧
    folders s1 !! F = None ∧ memos s1 = memos st ∧
    run (Store.deleteFolder (of_key F)) st = (s2, inr tt) ∧
    folders s2 !! F = None ∧
    ∀ k m, memos s2 !! k = Some m → get m "folderId" ≠ of_key F.
Proof.
  do 2 eexists. split; [apply trace_deleteFolder|]. cbn.
  split; [apply lookup_delete_eq|]. split; [done|].
  split; [apply run_deleteFolder|]. cbn.
  split; [apply lookup_delete_eq|].
  intros k m [_ Hno]%map_lookup_filter_Some Heq. apply Hno. cbn.
  unfold field_is. rewrite Heq. apply to_key_of_key.
Qed.

(** ** addMemo and updateMemo *)

Lemma modify_obj_singleton (o : obj) p v :
  v ≠ JUndefined → modify_obj {[p := v]} o = <[p := v]> o.
Proof.
  intros Hv. apply map_eq. intros p'. rewrite lookup_modify_obj.
  destruct (decide (p = p')) as [<-|Hne].
  - rewrite lookup_singleton_eq, lookup_insert_eq. by destruct v.
  - by rewrite lookup_singleton_ne, lookup_insert_ne.
Qed.

(** [updateFolderTimestamp] on a folder that exists. *)
Lemma touch_existing (t : table) k f now :
  table_wf t → t !! k = Some f →
  tbl_update (of_key k) {["updatedAt" := JStr now]} t
  = inr (<[k := <["updatedAt" := JStr now]> f]> t).
Proof.
  intros Ht Hf. rewrite (tbl_update_same_key t k f); [|done..].
  by rewrite modify_obj_singleton.
Qed.

Lemma run_addMemo_added (st : store) ms rnd now now' (memo : obj) k :
  primKey (Store.newMemo ms rnd now memo) = Some k →
  memos st !! k = None →
  run (Store.addMemo ms rnd now now' memo) st =
    match tbl_update (get memo "folderId") {["updatedAt" := JStr now']}
                     (folders st) with
    | inl e =>
        (mkStore (folders st)
                 (<[k := Store.newMemo ms rnd now memo]> (memos st)), inl e)
    | inr fs' =>
        (mkStore fs' (<[k := Store.newMemo ms rnd now memo]> (memos st)),
         inr (Store.newMemo ms rnd now memo))
    end.
Proof.
  intros Hk Hfree. unfold Store.addMemo, Store.updateFolderTimestamp. cbn.
  unfold upd_memos at 1. unfold tbl_add. rewrite Hk, Hfree. cbn.
  unfold upd_folders. cbn.
  by destruct (tbl_update _ _ (folders st)).
Qed.

Lemma run_addMemo_rejected (st : store) ms rnd now now' (memo : obj) :
  (∀ k, primKey (Store.newMemo ms rnd now memo) = Some k →
        is_Some (memos st !! k)) →
  ∃ e, run (Store.addMemo ms rnd now now' memo) st = (st, inl e).
Proof.
  intros Hk. unfold Store.addMemo. cbn. unfold upd_memos at 1.
  unfold tbl_add. destruct (primKey _) as [k|]; [|by eexists].
  destruct (Hk k eq_refl) as [r ->]. by eexists.
Qed.

Lemma run_updateMemo (st : store) now now' id (updates : obj) :
  run (Store.updateMemo now now' id updates) st =
    match tbl_update id (<["updatedAt" := JStr now]> updates) (memos st) with
    | inl e => (st, inl e)
    | inr ms' =>
        if truthy (get updates "folderId") then
          match tbl_update (get updates "folderId")
                           {["updatedAt" := JStr now']} (folders st) with
          | inl e => (mkStore (folders st) ms', inl e)
          | inr fs' => (mkStore fs' ms', tbl_get id ms')
          end
        else (mkStore (folders st) ms', tbl_get id ms')
    end.
Proof.
  unfold Store.updateMemo, Store.updateFolderTimestamp. cbn.
  unfold upd_memos at 1.
  destruct (tbl_update id _ (memos st)) as [e|ms']; [done|]. cbn.
  destruct (truthy (get updates "folderId")); cbn.
  - unfold upd_folders. cbn.
    destruct (tbl_update _ _ (folders st)) as [e|fs']; cbn; [done|].
    unfold read_memos. cbn. by destruct (tbl_get id ms').
  - unfold read_memos. cbn. by destruct (tbl_get id ms').
Qed.

Lemma newMemo_id ms rnd now (memo : obj) :
  get (Store.newMemo ms rnd now memo) "id" =
    match memo !! "id" with
    | Some v => v
    | None => JStr (Store.generateId ms rnd)
    end.
Proof.
  unfold Store.newMemo. rewrite !get_insert_ne by done.
  unfold get. rewrite lookup_union, lookup_singleton_eq.
  by destruct (memo !! "id").
Qed.

Lemma newMemo_timestamps ms rnd now (memo : obj) :
  get (Store.newMemo ms rnd now memo) "createdAt" = JStr now ∧
  get (Store.newMemo ms rnd now memo) "updatedAt" = JStr now.
Proof.
  unfold Store.newMemo. split.
  - rewrite get_insert_ne by done. apply get_insert_eq.
  - apply get_insert_eq.
Qed.

Lemma newMemo_other ms rnd now (memo : obj) p :
  p ≠ "id" → p ≠ "createdAt" → p ≠ "updatedAt" →
  Store.newMemo ms rnd now memo !! p = memo !! p.
Proof.
  intros H1 H2 H3. unfold Store.newMemo.
  rewrite !lookup_insert_ne by done.
  rewrite lookup_union, lookup_singleton_ne by done.
  by destruct (memo !! p).
Qed.

(** C10. When the object given to [addMemo] has an [id] property, the [id]
    of the record built on line 62 is the caller's value, not the generated
    one; without it, it is the generated one.  The record is what gets
    persisted: when its [id] is a key that is free in the memo table, the
    table afterwards holds that record under that key (also when the touch of
    the folder that follows is rejected); when it is not, the call is
    rejected and the database is as before. *)
Theorem addMemo_caller_id_wins (st : store) (ms rnd now now' : string)
    (memo : obj) :
  let nm := Store.newMemo ms rnd now memo in
  (∀ v, memo !! "id" = Some v → get nm "id" = v) ∧
  (memo !! "id" = None → get nm "id" = JStr (Store.generateId ms rnd)) ∧
  (∀ k, to_key (get nm "id") = Some k → memos st !! k = None →
     ∃ st' res,
       run (Store.addMemo ms rnd now now' memo) st = (st', res) ∧
       memos st' = <[k := nm]> (memos st) ∧
       (res = inr nm ∨ ∃ e, res = inl e)) ∧
  ((∀ k, to_key (get nm "id") = Some k → is_Some (memos st !! k)) →
     ∃ e, run (Store.addMemo ms rnd now now' memo) st = (st, inl e)).
Proof.
  intros nm. split; [|split; [|split]].
  - intros v Hv. unfold nm. by rewrite newMemo_id, Hv.
  - intros Hv. unfold nm. by rewrite newMemo_id, Hv.
  - intros k Hk Hfree.
    rewrite (run_addMemo_added st ms rnd now now' memo k Hk Hfree).
    destruct (tbl_update _ _ (folders st)) as [e|fs'];
      do 2 eexists; (split; [reflexivity|]); cbn; eauto.
  - apply run_addMemo_rejected.
Qed.

Lemma addMemo_caller_id_wins_witness :
  let memo : obj := <["id" := JStr "mine"]> {["folderId" := JStr "f1"]} in
  let taken : obj := <["id" := JStr "m1"]> {["folderId" := JStr "f1"]} in
  let nm := Store.newMemo "17" "0.abcdefghijk" "2025-01-01T00:00:00.000Z" memo in
  get nm "id" = JStr "mine" ∧
  get (Store.newMemo "17" "0.abcdefghijk" "2025-01-01T00:00:00.000Z"
         {["folderId" := JStr "f1"]}) "id" = JStr "17_abcdefghi" ∧
  (∃ st' res,
     run (Store.addMemo "17" "0.abcdefghijk" "2025-01-01T00:00:00.000Z"
                        "2025-01-01T00:00:00.001Z" memo) ex_store = (st', res) ∧
     memos st' = <[KStr "mine" := nm]> (memos ex_store) ∧
     (res = inr nm ∨ ∃ e, res = inl e)) ∧
  (∃ e, run (Store.addMemo "17" "0.abcdefghijk" "2025-01-01T00:00:00.000Z"
                           "2025-01-01T00:00:00.001Z" taken) ex_store
        = (ex_store, inl e)).
Proof.
  intros memo taken nm.
  pose proof (addMemo_caller_id_wins ex_store "17" "0.abcdefghijk"
                "2025-01-01T00:00:00.000Z" "2025-01-01T00:00:00.001Z" memo)
    as (Hid & _ & Hadd & _).
  pose proof (addMemo_caller_id_wins ex_store "17" "0.abcdefghijk"
                "2025-01-01T00:00:00.000Z" "2025-01-01T00:00:00.001Z"
                {["folderId" := JStr "f1"]})
    as (_ & Hgen & _ & _).
  pose proof (addMemo_caller_id_wins ex_store "17" "0.abcdefghijk"
                "2025-01-01T00:00:00.000Z" "2025-01-01T00:00:00.001Z" taken)
    as (_ & _ & _ & Hrej).
  split; [|split; [|split]].
  - apply Hid. reflexivity.
  - apply Hgen. reflexivity.
  - apply Hadd; reflexivity.
  - apply Hrej. intros k Hk. vm_compute in Hk.
    injection Hk as <-. exists ex_memo. reflexivity.
Defined.

(** What [updateMemo] leaves in the memo table. *)
Lemma memos_run_updateMemo (st : store) now now' id (updates : obj) :
  memos (run (Store.updateMemo now now' id updates) st).1 =
    match tbl_update id (<["updatedAt" := JStr now]> updates) (memos st) with
    | inl _ => memos st
    | inr ms' => ms'
    end.
Proof.
  rewrite run_updateMemo.
  destruct (tbl_update id _ (memos st)) as [e|ms']; [done|].
  destruct (truthy _); [|done].
  by destruct (tbl_update _ _ (folders st)).
Qed.

(** What [updateMemo] leaves in the folder table when no [folderId] (or a
    falsy one) is among the updates: line 77. *)
Lemma folders_run_updateMemo_no_folderId (st : store) now now' id
    (updates : obj) :
  truthy (get updates "folderId") = false →
  folders (run (Store.updateMemo now now' id updates) st).1 = folders st.
Proof.
  intros Hf. rewrite run_updateMemo, Hf.
  by destruct (tbl_update id _ (memos st)).
Qed.

Lemma touch_total (t : table) v now :
  table_wf t → is_Some (to_key v) →
  ∃ t', tbl_update v {["updatedAt" := JStr now]} t = inr t'.
Proof.
  intros Ht [k Hk]. apply to_key_Some in Hk as ->.
  destruct (t !! k) as [f|] eqn:Hf.
  - eexists. by apply touch_existing.
  - eexists. by apply tbl_update_missing.
Qed.

(** [update] of the memo table in [updateMemo], when the caller does not
    change [id]. *)
Lemma tbl_update_no_id_total (t : table) k (changes : obj) :
  table_wf t → changes !! "id" = None →
  tbl_update (of_key k) changes t =
    inr (match t !! k with
         | Some r => <[k := modify_obj changes r]> t
         | None => t
         end).
Proof.
  intros Ht Hid. destruct (t !! k) as [r|] eqn:Hr.
  - by apply tbl_update_same_key.
  - by apply tbl_update_missing.
Qed.

(** C6. For an [id] that is not in the memo table, [updateMemo(id, fields)]
    never gives a memo back: it resolves with [undefined] (the absent
    result) or is rejected, and the memo table is as before.  With a
    well-formed call (a valid key as [id], and a [folderId] that is absent,
    falsy or a valid key) it resolves with [undefined]. *)
Theorem updateMemo_missing_id (st : store) (now now' : string) (id : jsval)
    (updates : obj) :
  (∀ k, to_key id = Some k → memos st !! k = None) →
  ∃ st' res,
    run (Store.updateMemo now now' id updates) st = (st', res) ∧
    memos st' = memos st ∧
    (∀ m, res ≠ inr (Some m)) ∧
    (store_wf st → is_Some (to_key id) →
     (truthy (get updates "folderId") = true →
      is_Some (to_key (get updates "folderId"))) →
     res = inr None).
Proof.
  intros Hmiss. rewrite run_updateMemo.
  destruct (to_key id) as [k|] eqn:Hk.
  - pose proof (Hmiss k eq_refl) as Hnone.
    apply to_key_Some in Hk as ->. rewrite tbl_update_missing by done.
    assert (tbl_get (of_key k) (memos st) = inr None) as Hget.
    { unfold tbl_get. by rewrite to_key_of_key, Hnone. }
    rewrite Hget.
    destruct (truthy (get updates "folderId")) eqn:Htr.
    + destruct (tbl_update (get updates "folderId") _ (folders st))
        as [e|fs'] eqn:Hup; do 2 eexists;
        (split; [reflexivity|]); cbn; (split; [done|]); (split; [done|]).
      * intros [Hwf _] _ Hfid.
        destruct (touch_total (folders st) (get updates "folderId") now'
                    Hwf (Hfid eq_refl)) as [t' Ht']. congruence.
      * done.
    + do 2 eexists. split; [reflexivity|]. done.
  - unfold tbl_update at 1. rewrite Hk. do 2 eexists.
    split; [reflexivity|]. split; [done|]. split; [done|].
    intros _ [? ?]. done.
Qed.

Lemma updateMemo_missing_id_witness :
  ∃ st' res,
    run (Store.updateMemo "2025-01-01T00:00:00.000Z"
           "2025-01-01T00:00:00.001Z" (JStr "nope")
           {["title" := JStr "x"]}) ex_store = (st', res) ∧
    memos st' = memos ex_store ∧
    (∀ m, res ≠ inr (Some m)) ∧
    res = inr None.
Proof.
  destruct (updateMemo_missing_id ex_store "2025-01-01T00:00:00.000Z"
              "2025-01-01T00:00:00.001Z" (JStr "nope")
              {["title" := JStr "x"]}) as (st' & res & Hrun & Hm & Hno & Hres).
  - intros k [= <-]. reflexivity.
  - exists st', res. repeat split; try assumption.
    apply Hres.
    + exact ex_store_wf.
    + by exists (KStr "nope").
    + intros Htr. vm_compute in Htr. discriminate Htr.
Defined.

Lemma tbl_update_hit (t : table) k (r changes : obj) :
  t !! k = Some r →
  tbl_update (of_key k) changes t =
    match primKey (modify_obj changes r) with
    | None => inl DataError
    | Some k' =>
        if decide (k' = k) then inr (<[k := modify_obj changes r]> t)
        else match t !! k' with
             | Some _ => inl ModifyError
             | None => inr (<[k' := modify_obj changes r]> (delete k t))
             end
    end.
Proof. intros Hr. unfold tbl_update. by rewrite to_key_of_key, Hr. Qed.

(** C9, as stated, fails for [createdAt] in [updateMemo]: a [createdAt]
    given among the updates is written to the stored memo as it is. *)
Lemma updateMemo_createdAt_counterexample :
  let st' := (run (Store.updateMemo "2025-01-01T00:00:00.000Z"
                     "2025-01-01T00:00:00.001Z" (JStr "m1")
                     {["createdAt" := JStr "1999-12-31T00:00:00.000Z"]})
                  ex_store).1 in
  (fun m => get m "createdAt") <$> memos st' !! KStr "m1"
  = Some (JStr "1999-12-31T00:00:00.000Z").
Proof. vm_compute. reflexivity. Qed.

(** C9, amended.  [addMemo]: the record built from any input has the clock
    reading of the call as [createdAt] and as [updatedAt], whatever the input
    gives for them, and that record is the one persisted.  [updateMemo] on a
    stored memo: the modified record has the clock reading of the call as
    [updatedAt], whatever the input gives for it; [createdAt] is not set by
    the store: it stays as stored unless the input has a [createdAt], which
    is then taken.  The modified record is persisted under its key, except
    when the input changes [id] to a value that is not a valid key or to a
    key that is taken, in which case the call is rejected ([DataError] in
    the first case, [ModifyError] in the second) and the memo table is as
    before. *)
Theorem timestamps_set_by_store (st : store) :
  (∀ ms rnd now now' (memo : obj) k,
     let nm := Store.newMemo ms rnd now memo in
     get nm "createdAt" = JStr now ∧ get nm "updatedAt" = JStr now ∧
     (primKey nm = Some k → memos st !! k = None →
      memos (run (Store.addMemo ms rnd now now' memo) st).1 !! k = Some nm)) ∧
  (∀ now now' k (r updates : obj),
     store_wf st → memos st !! k = Some r →
     let r' := modify_obj (<["updatedAt" := JStr now]> updates) r in
     let out := run (Store.updateMemo now now' (of_key k) updates) st in
     get r' "updatedAt" = JStr now ∧
     (updates !! "createdAt" = None → get r' "createdAt" = get r "createdAt") ∧
     (∀ v, updates !! "createdAt" = Some v → get r' "createdAt" = v) ∧
     ((memos out.1 = memos st ∧
       (primKey r' = None ∧ out.2 = inl DataError ∨
        (∃ k', primKey r' = Some k' ∧ k' ≠ k ∧ is_Some (memos st !! k')) ∧
        out.2 = inl ModifyError)) ∨
      (∃ k', primKey r' = Some k' ∧ memos out.1 !! k' = Some r')) ∧
     (updates !! "id" = None → memos out.1 !! k = Some r')).
Proof.
  split.
  - intros ms rnd now now' memo k nm.
    destruct (newMemo_timestamps ms rnd now memo) as [Hc Hu].
    split; [done|]. split; [done|]. intros Hk Hfree.
    rewrite (run_addMemo_added st ms rnd now now' memo k Hk Hfree).
    destruct (tbl_update _ _ (folders st)); cbn; apply lookup_insert_eq.
  - intros now now' k r updates [_ Hwf] Hr r' out.
    split; [|split; [|split; [|split]]].
    + unfold r'. by rewrite get_modify_obj, lookup_insert_eq.
    + intros Hc. unfold r'.
      by rewrite get_modify_obj, lookup_insert_ne, Hc.
    + intros v Hc. unfold r'.
      by rewrite get_modify_obj, lookup_insert_ne, Hc.
    + unfold out. rewrite memos_run_updateMemo, run_updateMemo.
      rewrite (tbl_update_hit (memos st) k r) by done. fold r'.
      destruct (primKey r') as [k'|]; [|left; split; [done|by left]].
      case_decide; subst.
      * right. exists k. split; [done|]. apply lookup_insert_eq.
      * destruct (memos st !! k') eqn:Hk'.
        -- left. split; [done|]. right. split; [|done].
           exists k'. by rewrite Hk'.
        -- right. exists k'. split; [done|]. apply lookup_insert_eq.
    + intros Hid. unfold out. rewrite memos_run_updateMemo.
      rewrite tbl_update_no_id_total, Hr; [apply lookup_insert_eq|done|].
      by rewrite lookup_insert_ne.
Qed.

Lemma timestamps_set_by_store_witness :
  let memo : obj :=
    <["createdAt" := JStr "1999-12-31T00:00:00.000Z"]>
      (<["updatedAt" := JStr "1999-12-31T00:00:00.000Z"]>
         {["folderId" := JStr "f1"]}) in
  let nm := Store.newMemo "17" "0.abcdefghijk" "2025-01-01T00:00:00.000Z" memo in
  let updates : obj :=
    <["updatedAt" := JStr "1999-12-31T00:00:00.000Z"]>
      {["title" := JStr "New plan"]} in
  let r' := modify_obj (<["updatedAt" := JStr "2025-01-01T00:00:00.000Z"]>
                          updates) ex_memo in
  let out := run (Store.updateMemo "2025-01-01T00:00:00.000Z"
                    "2025-01-01T00:00:00.001Z" (of_key (KStr "m1")) updates)
                 ex_store in
  (get nm "createdAt" = JStr "2025-01-01T00:00:00.000Z" ∧
   get nm "updatedAt" = JStr "2025-01-01T00:00:00.000Z" ∧
   memos (run (Store.addMemo "17" "0.abcdefghijk" "2025-01-01T00:00:00.000Z"
                 "2025-01-01T00:00:00.001Z" memo) ex_store).1
     !! KStr "17_abcdefghi" = Some nm) ∧
  get r' "updatedAt" = JStr "2025-01-01T00:00:00.000Z" ∧
  get r' "createdAt" = get ex_memo "createdAt" ∧
  memos out.1 !! KStr "m1" = Some r'.
Proof.
  intros memo nm updates r' out.
  destruct (timestamps_set_by_store ex_store) as [Hadd Hupd].
  destruct (Hadd "17" "0.abcdefghijk" "2025-01-01T00:00:00.000Z"
              "2025-01-01T00:00:00.001Z" memo (KStr "17_abcdefghi"))
    as (Hc' & Hu' & Hp').
  destruct (Hupd "2025-01-01T00:00:00.000Z" "2025-01-01T00:00:00.001Z"
              (KStr "m1") ex_memo updates ex_store_wf eq_refl)
    as (Hu & Hc & _ & _ & Hp).
  split; [split; [exact Hc'|split; [exact Hu'|apply Hp'; reflexivity]]|].
  split; [exact Hu|]. split; [apply Hc; reflexivity|apply Hp; reflexivity].
Defined.




(** ** exportAllData and importData *)

Lemma tbl_toArray_insert (t : table) k o :
  t !! k = None → tbl_toArray (<[k := o]> t) ≡ₚ o :: tbl_toArray t.
Proof.
  intros Hk. unfold tbl_toArray.
  by rewrite (map_to_list_insert t k o Hk).
Qed.

Lemma tbl_bulkAdd_go_spec (os : list obj) : ∀ (t : table) b,
  insertable os →
  (∀ o k, o ∈ os → primKey o = Some k → t !! k = None) →
  ∃ t', tbl_bulkAdd_go os t b = (t', b) ∧
        tbl_toArray t' ≡ₚ os ++ tbl_toArray t ∧
        (∀ o k, o ∈ os → primKey o = Some k → t' !! k = Some o) ∧
        (∀ k, (∀ o, o ∈ os → primKey o ≠ Some k) → t' !! k = t !! k).
Proof.
  induction os as [|o os IH]; intros t b [Hkeys Hnd] Hfree.
  - exists t. repeat split; try done. intros o k Ho. by apply elem_of_nil in Ho.
  - apply Forall_cons in Hkeys as [[k Hk] Hkeys].
    rewrite fmap_cons in Hnd. apply NoDup_cons in Hnd as [Hnotin Hnd].
    assert (∀ o', o' ∈ os → primKey o' ≠ Some k) as Hother.
    { intros o' Ho' Heq. apply Hnotin. rewrite Hk, <- Heq.
      by apply list_elem_of_fmap_2. }
    assert (t !! k = None) as Hfk by (eapply Hfree; [left|done]).
    destruct (IH (<[k := o]> t) b) as (t' & Hgo & Hperm & Hin & Hout).
    { done. }
    { intros o' k' Ho' Hk'. rewrite lookup_insert_ne.
      - eapply Hfree; [by right|done].
      - intros ->. by apply (Hother o'). }
    exists t'. split; [|split; [|split]].
    + simpl. unfold tbl_add. by rewrite Hk, Hfk.
    + rewrite Hperm, tbl_toArray_insert by done.
      by rewrite <- Permutation_middle.
    + intros o' k' [->|Ho']%elem_of_cons Hk'.
      * assert (k' = k) as -> by congruence.
        rewrite Hout by done. apply lookup_insert_eq.
      * by apply Hin.
    + intros k' Hno. rewrite Hout.
      * apply lookup_insert_ne. intros ->. apply (Hno o); [left|done].
      * intros o' Ho'. apply Hno. by right.
Qed.

Lemma forallb_primKey (os : list obj) :
  forallb (fun o => bool_decide (is_Some (primKey o))) os = true ↔
  Forall (fun o => is_Some (primKey o)) os.
Proof.
  rewrite forallb_forall, Forall_forall. split; intros H o Ho.
  - apply (bool_decide_eq_true_1 _), H. by apply list_elem_of_In.
  - apply bool_decide_eq_true_2, H. by apply list_elem_of_In.
Qed.

Lemma tbl_bulkAdd_empty_spec (os : list obj) :
  insertable os →
  ∃ t', tbl_bulkAdd os ∅ = (t', inr tt) ∧
        tbl_toArray t' ≡ₚ os ∧
        (∀ o k, o ∈ os → primKey o = Some k → t' !! k = Some o) ∧
        (∀ k, (∀ o, o ∈ os → primKey o ≠ Some k) → t' !! k = None).
Proof.
  intros Hos.
  destruct (tbl_bulkAdd_go_spec os ∅ false Hos)
    as (t' & Hgo & Hperm & Hin & Hout).
  { intros. apply lookup_empty. }
  exists t'. unfold tbl_bulkAdd.
  rewrite (proj2 (forallb_primKey os) (proj1 Hos)), Hgo. split; [done|].
  split; [|split; [done|]].
  - rewrite Hperm. unfold tbl_toArray. rewrite map_to_list_empty.
    by rewrite app_nil_r.
  - intros k Hk. rewrite Hout by done. apply lookup_empty.
Qed.

Lemma run_importData (data : backup) (st : store) :
  run (Store.importData data) st =
    let '(fs', r1) := tbl_bulkAdd (records (b_folders data)) ∅ in
    match r1 with
    | inl e => (mkStore fs' ∅, inl e)
    | inr _ =>
        let '(ms', r2) := tbl_bulkAdd (records (b_memos data)) ∅ in
        (mkStore fs' ms', r2)
    end.
Proof.
  unfold Store.importData. destruct st as [f0 m0].
  destruct data as [[[|f fs]|] [[|m ms]|] e]; cbn;
    unfold records, bulk_folders, bulk_memos, tbl_clear; cbn; try done.
  all: repeat match goal with
       | |- context [tbl_bulkAdd ?l ?t] =>
           destruct (tbl_bulkAdd l t) as [? []]; cbn
       end; done.
Qed.

Lemma primKey_toArray (t : table) :
  table_wf t → primKey <$> tbl_toArray t = Some <$> (map_to_list t).*1.
Proof.
  intros Ht. unfold tbl_toArray. rewrite <- !list_fmap_compose.
  apply list_fmap_ext. intros i [k o] Hi. cbn.
  apply Ht. apply elem_of_map_to_list. by eapply list_elem_of_lookup_2.
Qed.

Lemma insertable_toArray (t : table) : table_wf t → insertable (tbl_toArray t).
Proof.
  intros Ht. split.
  - apply Forall_forall. intros o [k Hk]%elem_of_tbl_toArray.
    exists k. by apply Ht.
  - rewrite primKey_toArray by done.
    apply (NoDup_fmap_2 Some), NoDup_fst_map_to_list.
Qed.

(** What [toArray] lists, [bulkAdd] puts back. *)
Lemma tbl_bulkAdd_toArray (t : table) :
  table_wf t → tbl_bulkAdd (tbl_toArray t) ∅ = (t, inr tt).
Proof.
  intros Ht.
  destruct (tbl_bulkAdd_empty_spec (tbl_toArray t) (insertable_toArray t Ht))
    as (t' & -> & _ & Hin & Hout).
  f_equal. apply map_eq. intros k.
  destruct (t !! k) as [o|] eqn:Hk.
  - apply Hin; [|by apply Ht]. apply elem_of_tbl_toArray. by exists k.
  - apply Hout. intros o [k' Hk']%elem_of_tbl_toArray Heq.
    pose proof (Ht _ _ Hk') as Hkey. congruence.
Qed.

(** C2. [exportAllData()] returns the two listings and changes nothing (the
    database is the same after each of its two reads), and [importData] of
    the document it returned, whatever the database is by then, ends with
    the database that was exported: the same folders and memos under the same
    keys with the same fields. *)
Theorem export_import_roundtrip (st : store) (now : string) :
  store_wf st →
  ∃ doc,
    run (Store.exportAllData now) st = (st, inr doc) ∧
    trace (Store.exportAllData now) st = [st; st] ∧
    doc = mkBackup (Some (tbl_toArray (folders st)))
                   (Some (tbl_toArray (memos st))) (JStr now) ∧
    ∀ st0, run (Store.importData doc) st0 = (st, inr tt).
Proof.
  intros [Hf Hm]. eexists. split; [reflexivity|]. split; [reflexivity|].
  split; [reflexivity|]. intros st0. rewrite run_importData. cbn.
  rewrite !tbl_bulkAdd_toArray by done. by destruct st.
Qed.

Lemma export_import_roundtrip_witness :
  ∃ doc,
    run (Store.exportAllData "2025-01-01T00:00:00.000Z") ex_store
      = (ex_store, inr doc) ∧
    trace (Store.exportAllData "2025-01-01T00:00:00.000Z") ex_store
      = [ex_store; ex_store] ∧
    doc = mkBackup (Some (tbl_toArray (folders ex_store)))
                   (Some (tbl_toArray (memos ex_store)))
                   (JStr "2025-01-01T00:00:00.000Z") ∧
    ∀ st0, run (Store.importData doc) st0 = (ex_store, inr tt).
Proof.
  apply (export_import_roundtrip ex_store "2025-01-01T00:00:00.000Z").
  exact ex_store_wf.
Defined.

(** What [bulkAdd] leaves in a table was there before or is one of the
    records it was given. *)
Lemma tbl_bulkAdd_go_sub (os : list obj) : ∀ (t : table) b o,
  o ∈ tbl_toArray (tbl_bulkAdd_go os t b).1 → o ∈ os ∨ o ∈ tbl_toArray t.
Proof.
  induction os as [|x os IH]; intros t b o Ho; simpl in Ho; [by right|].
  unfold tbl_add in Ho. destruct (primKey x) as [k|].
  - destruct (t !! k) eqn:Hk.
    + apply IH in Ho as [Ho|Ho]; [left; by right|by right].
    + apply IH in Ho as [Ho|Ho]; [left; by right|].
      rewrite tbl_toArray_insert in Ho by done.
      apply elem_of_cons in Ho as [->|Ho]; [left; by left|by right].
  - apply IH in Ho as [Ho|Ho]; [left; by right|by right].
Qed.

Lemma tbl_bulkAdd_sub (os : list obj) (t : table) (o : obj) :
  o ∈ tbl_toArray (tbl_bulkAdd os t).1 → o ∈ os ∨ o ∈ tbl_toArray t.
Proof.
  unfold tbl_bulkAdd. destruct (forallb _ os); [|by right].
  pose proof (tbl_bulkAdd_go_sub os t false o) as H.
  by destruct (tbl_bulkAdd_go os t false).
Qed.

(** C8, as stated, fails for a document with two folders of one id: the
    call is rejected after it has cleared the database, the second of the
    two folders is not inserted, and the memos of the document are never
    imported. *)
Lemma importData_verbatim_counterexample :
  let second := <["name" := JStr "Other"]> ex_folder in
  let out := run (Store.importData
                    (mkBackup (Some [ex_folder; second]) (Some [ex_memo])
                              JUndefined)) ex_store in
  out.2 = inl BulkError ∧
  (second ∉ tbl_toArray (folders out.1)) ∧
  (ex_memo ∉ tbl_toArray (memos out.1)).
Proof.
  cbv zeta. repeat split; apply (bool_decide_unpack _); vm_compute; exact I.
Qed.

(** C8, amended.  [importData] overwrites.  A document with an empty folder
    list and an empty memo list leaves, from any database, an empty folder
    listing and an empty memo listing.  For any document whose records can
    be inserted (valid, pairwise different ids within a collection), the
    call resolves and each table then holds exactly the records of the
    document, each one unchanged under its own id; nothing relates the
    [folderId] of an imported memo to the imported folders.  For every
    document, the others included, what the tables hold afterwards are
    records of the document: nothing of the database from before is left. *)
Theorem importData_overwrites (st : store) :
  (∀ e, ∃ st',
     run (Store.importData (mkBackup (Some []) (Some []) e)) st
       = (st', inr tt) ∧
     run Store.getFolders st' = (st', inr []) ∧
     run Store.getMemos st' = (st', inr [])) ∧
  (∀ data,
     insertable (records (b_folders data)) →
     insertable (records (b_memos data)) →
     ∃ st',
       run (Store.importData data) st = (st', inr tt) ∧
       tbl_toArray (folders st') ≡ₚ records (b_folders data) ∧
       tbl_toArray (memos st') ≡ₚ records (b_memos data) ∧
       (∀ o k, o ∈ records (b_folders data) → primKey o = Some k →
               folders st' !! k = Some o) ∧
       (∀ o k, o ∈ records (b_memos data) → primKey o = Some k →
               memos st' !! k = Some o)) ∧
  (∀ data,
     let out := run (Store.importData data) st in
     (∀ o, o ∈ tbl_toArray (folders out.1) → o ∈ records (b_folders data)) ∧
     (∀ o, o ∈ tbl_toArray (memos out.1) → o ∈ records (b_memos data))).
Proof.
  split; [|split].
  - intros e. exists (mkStore ∅ ∅). split; [by rewrite run_importData|].
    split; reflexivity.
  - intros data Hfs Hms. rewrite run_importData.
    destruct (tbl_bulkAdd_empty_spec _ Hfs) as (fs' & -> & Hpf & Hinf & _).
    destruct (tbl_bulkAdd_empty_spec _ Hms) as (ms' & -> & Hpm & Hinm & _).
    by exists (mkStore fs' ms').
  - intros data out. unfold out. rewrite run_importData.
    pose proof (tbl_bulkAdd_sub (records (b_folders data)) ∅) as Hf.
    pose proof (tbl_bulkAdd_sub (records (b_memos data)) ∅) as Hm.
    destruct (tbl_bulkAdd (records (b_folders data)) ∅) as [fs' [e|[]]];
      cbn in *.
    + split.
      * intros o [Ho|Ho]%Hf; [done|]. by apply elem_of_nil in Ho.
      * intros o Ho. by apply elem_of_nil in Ho.
    + destruct (tbl_bulkAdd (records (b_memos data)) ∅) as [ms' r2];
        cbn in *. split.
      * intros o [Ho|Ho]%Hf; [done|]. by apply elem_of_nil in Ho.
      * intros o [Ho|Ho]%Hm; [done|]. by apply elem_of_nil in Ho.
Qed.

Lemma importData_overwrites_witness :
  ∃ st',
    run (Store.importData (mkBackup (Some []) (Some [ex_orphan]) JUndefined))
        ex_store = (st', inr tt) ∧
    tbl_toArray (folders st') ≡ₚ [] ∧
    tbl_toArray (memos st') ≡ₚ [ex_orphan] ∧
    memos st' !! KStr "m9" = Some ex_orphan.
Proof.
  destruct (importData_overwrites ex_store) as (_ & H & _).
  destruct (H (mkBackup (Some []) (Some [ex_orphan]) JUndefined))
    as (st' & Hrun & Hf & Hm & _ & Hin).
  - split; constructor.
  - split.
    + repeat constructor. by exists (KStr "m9").
    + cbn. repeat constructor. apply not_elem_of_nil.
  - exists st'. repeat split; try assumption.
    apply Hin; [apply list_elem_of_here|reflexivity].
Defined.

(** ** searchMemos *)

Lemma sort_insert_perm {A} (cmp : A → A → option Z) x l :
  sort_insert cmp x l ≡ₚ x :: l.
Proof.
  induction l as [|y l IH]; simpl; [done|].
  destruct (comes_after cmp x y); [|done].
  rewrite IH. apply perm_swap.
Qed.

Lemma js_sort_perm {A} (cmp : A → A → option Z) l : js_sort cmp l ≡ₚ l.
Proof.
  induction l as [|x l IH]; simpl; [done|].
  by rewrite sort_insert_perm, IH.
Qed.

Lemma js_filter_decide {A} (f : A → result bool) (P : A → Prop)
    `{!∀ x, Decision (P x)} (l : list A) :
  Forall (fun x => f x = inr (bool_decide (P x))) l →
  js_filter f l = inr (filter P l).
Proof.
  induction 1 as [|x l Hx _ IH]; simpl; [done|].
  rewrite Hx, IH, filter_cons. by case_bool_decide; case_decide.
Qed.

Lemma includes_empty s : includes s "" = true.
Proof. by destruct s. Qed.

Lemma prefix_spec (sub s : string) :
  String.prefix sub s = true ↔ ∃ post, s = sub ++ post.
Proof.
  revert s. induction sub as [|c sub IH]; intros s.
  - split; [intros _; by exists s|by destruct s].
  - destruct s as [|d s]; simpl.
    + split; [done|]. by intros [post H].
    + destruct (ascii_dec c d) as [->|Hne]; simpl.
      * rewrite IH. split.
        -- intros [post ->]. by exists post.
        -- intros [post [= ->]]. by exists post.
      * split; [done|]. intros [post [= ? _]]. congruence.
Qed.

(** [includes] finds exactly the substrings. *)
Lemma includes_spec (s sub : string) :
  includes s sub = true ↔ substring_of sub s.
Proof.
  unfold substring_of. induction s as [|c s IH]; cbn [includes].
  - rewrite orb_false_r, prefix_spec. split.
    + intros [post H]. by exists "", post.
    + intros ([|? pre] & post & H); [by exists post|done].
  - rewrite orb_true_iff, prefix_spec, IH. split.
    + intros [[post H]|(pre & post & ->)].
      * by exists "", post.
      * by exists (String c pre), post.
    + intros ([|d pre] & post & H).
      * left. by exists post.
      * right. injection H as -> ->. by exists pre, post.
Qed.

Lemma StronglySorted_lookup {A} (R : A → A → Prop) (l : list A) :
  StronglySorted R l →
  ∀ (i j : nat) a b, (i < j)%nat → l !! i = Some a → l !! j = Some b → R a b.
Proof.
  induction 1 as [|x l _ IH Hx]; intros i j a b Hij Ha Hb; [done|].
  destruct j as [|j]; [lia|]. cbn in Hb. destruct i as [|i]; cbn in Ha.
  - injection Ha as <-. rewrite Forall_forall in Hx. apply Hx.
    by eapply list_elem_of_lookup_2.
  - apply (IH i j); [lia|done..].
Qed.

Section Search.

Variable toLowerCase : string → string.
Variable Date_parse : string → option Z.

Local Abbreviation contains_ci := (contains_ci toLowerCase).
Local Abbreviation matches_query := (matches_query toLowerCase).
Local Abbreviation updatedAt_time := (updatedAt_time Date_parse).
Local Abbreviation dated := (dated Date_parse).
Local Abbreviation newer_first := (newer_first Date_parse).

Lemma fieldMatches_typed (q : string) (v : jsval) :
  text_or_absent v →
  Store.fieldMatches toLowerCase (toLowerCase q) v
  = inr (bool_decide (contains_ci q v)).
Proof.
  unfold Store.fieldMatches. destruct v as [| |b|z|s]; simpl; try done.
  - by intros ->.
  - by intros ->.
  - intros _. destruct (String.eqb_spec s ""); simpl.
    + subst. f_equal; symmetry; apply bool_decide_eq_false; by intros [? _].
    + f_equal. destruct (includes _ _) eqn:Hi; symmetry.
      * by apply bool_decide_eq_true.
      * apply bool_decide_eq_false. intros [_ ?]. congruence.
Qed.

Lemma memoMatches_typed (q : string) (m : obj) :
  memo_typed m →
  Store.memoMatches toLowerCase (toLowerCase q) m
  = inr (bool_decide (matches_query q m)).
Proof.
  intros [Ht Hc]. unfold Store.memoMatches.
  rewrite (fieldMatches_typed q (get m "title")) by done.
  destruct (decide (contains_ci q (get m "title"))) as [Hyes|Hno].
  - rewrite bool_decide_eq_true_2 by done.
    rewrite bool_decide_eq_true_2; [done|by left].
  - rewrite bool_decide_eq_false_2 by done.
    rewrite fieldMatches_typed by done. f_equal.
    apply bool_decide_ext. unfold matches_query. tauto.
Qed.

Lemma run_searchMemos_typed (st : store) (q : string) :
  Forall memo_typed (tbl_toArray (memos st)) →
  run (Store.searchMemos toLowerCase Date_parse q) st =
    (st, inr (js_sort (Store.byUpdatedAtDesc Date_parse)
                (filter (matches_query q) (tbl_toArray (memos st))))).
Proof.
  intros Hty. unfold Store.searchMemos. cbn.
  rewrite (js_filter_decide _ (matches_query q)); [done|].
  eapply Forall_impl; [exact Hty|]. intros m Hm. by apply memoMatches_typed.
Qed.

Lemma comes_after_dated (a b : obj) ta tb :
  updatedAt_time a = Some ta → updatedAt_time b = Some tb →
  comes_after (Store.byUpdatedAtDesc Date_parse) a b = Z.ltb ta tb.
Proof.
  unfold updatedAt_time, comes_after, Store.byUpdatedAtDesc.
  intros -> ->. destruct (Z.ltb_spec 0 (tb - ta)), (Z.ltb_spec ta tb); lia.
Qed.

Lemma sort_insert_sorted (x : obj) (l : list obj) :
  dated x → Forall dated l → StronglySorted newer_first l →
  StronglySorted newer_first (sort_insert (Store.byUpdatedAtDesc Date_parse) x l).
Proof.
  intros [tx Hx] Hl Hs. induction Hs as [|y l Hs IH Hy]; simpl.
  - repeat constructor.
  - apply Forall_cons in Hl as [[ty Hty] Hl].
    rewrite (comes_after_dated x y tx ty) by done.
    destruct (Z.ltb_spec tx ty).
    + constructor; [by apply IH|].
      rewrite sort_insert_perm. constructor; [|done].
      exists ty, tx. repeat split; [done..|lia].
    + constructor; [by constructor|]. constructor.
      * exists tx, ty. by repeat split.
      * eapply Forall_impl; [exact Hy|].
        intros z (ty' & tz & Hy' & Hz & Hle).
        exists tx, tz. repeat split; [done..|]. simplify_eq. lia.
Qed.

Lemma js_sort_sorted (l : list obj) :
  Forall dated l →
  StronglySorted newer_first (js_sort (Store.byUpdatedAtDesc Date_parse) l).
Proof.
  induction 1 as [|x l Hx Hl IH]; simpl; [constructor|].
  apply sort_insert_sorted; [done| |done]. by rewrite js_sort_perm.
Qed.

Lemma filter_none {A} (P : A → Prop) `{!∀ x, Decision (P x)} (l : list A) :
  (∀ x, x ∈ l → ¬ P x) → filter P l = [].
Proof.
  intros Hno. destruct (filter P l) as [|x l'] eqn:Hf; [done|].
  assert (x ∈ filter P l) as [Hx Hin]%list_elem_of_filter
    by (rewrite Hf; left).
  by destruct (Hno x Hin).
Qed.

Lemma contains_ci_spec (q : string) (v : jsval) :
  contains_ci q v ↔ field_contains toLowerCase q v.
Proof.
  unfold field_contains. destruct v as [| |b|z|s]; simpl;
    try (split; [done|by intros (s & ? & _)]).
  rewrite includes_spec. split.
  - intros [Hne Hsub]. by exists s.
  - by intros (s' & [= <-] & Hne & Hsub).
Qed.

Lemma matches_query_spec (q : string) (m : obj) :
  matches_query q m ↔ memo_contains toLowerCase q m.
Proof.
  unfold matches_query, memo_contains. by rewrite !contains_ci_spec.
Qed.

Lemma updated_at_time (m : obj) (t : Z) :
  updated_at Date_parse m t → updatedAt_time m = Some t.
Proof. intros (s & Hs & Ht). unfold updatedAt_time. by rewrite Hs. Qed.

(** C4. On a store whose memos have a string or nothing as [title] and as
    [content], [searchMemos(q)] resolves, for every query [q], with exactly
    the memos whose title or whose content contains [q] as a
    case-insensitive substring (one field is enough), each of them no more
    often than the store has it; a memo whose title and content are both
    missing or empty is never among them; and when the memos found carry
    timestamps as [updatedAt] the result is in descending order of
    [updatedAt]. *)
Theorem searchMemos_spec (st : store) (q : string) :
  Forall memo_typed (tbl_toArray (memos st)) →
  ∃ found,
    run (Store.searchMemos toLowerCase Date_parse q) st = (st, inr found) ∧
    found ⊆+ tbl_toArray (memos st) ∧
    (∀ m, m ∈ found ↔
          m ∈ tbl_toArray (memos st) ∧ memo_contains toLowerCase q m) ∧
    (∀ m, truthy (get m "title") = false →
          truthy (get m "content") = false → m ∉ found) ∧
    (Forall (timestamped Date_parse) found →
     updatedAt_descending Date_parse found).
Proof.
  intros Hty. eexists. split; [by apply run_searchMemos_typed|].
  assert (∀ m, m ∈ js_sort (Store.byUpdatedAtDesc Date_parse)
                     (filter (matches_query q)
                             (tbl_toArray (memos st))) ↔
               m ∈ tbl_toArray (memos st) ∧ memo_contains toLowerCase q m)
    as Hiff.
  { intros m. rewrite js_sort_perm, list_elem_of_filter, matches_query_spec.
    tauto. }
  split; [|split; [done|split]].
  - rewrite js_sort_perm. apply sublist_submseteq, sublist_filter.
  - intros m Ht Hc [_ [Hf|Hf]]%Hiff; destruct Hf as (s & Hs & Hne & _).
    + rewrite Hs in Ht. cbn in Ht. by destruct (String.eqb_spec s "").
    + rewrite Hs in Hc. cbn in Hc. by destruct (String.eqb_spec s "").
  - intros Hts i j a b ta tb Hij Ha Hb Hta Htb.
    assert (StronglySorted (newer_first)
              (js_sort (Store.byUpdatedAtDesc Date_parse)
                 (filter (matches_query q)
                         (tbl_toArray (memos st))))) as Hsorted.
    { apply js_sort_sorted. rewrite js_sort_perm in Hts.
      eapply Forall_impl; [exact Hts|]. intros m [t Ht]. exists t.
      by apply updated_at_time. }
    destruct (StronglySorted_lookup _ _ Hsorted i j a b Hij Ha Hb)
      as (ta' & tb' & Hta' & Htb' & Hle).
    apply updated_at_time in Hta, Htb. congruence.
Qed.

(** C3, amended.  On a store whose memos have a string or nothing as
    [title] and as [content]: [searchMemos("")] resolves with every memo
    that has a non-empty title or a non-empty content (so with an empty list
    only when there is no such memo), and [searchMemos] on a term that
    matches no memo resolves with an empty list. *)
Theorem searchMemos_empty_query_and_no_match (st : store) :
  Forall memo_typed (tbl_toArray (memos st)) →
  (toLowerCase "" = "" →
   ∃ found,
     run (Store.searchMemos toLowerCase Date_parse "") st = (st, inr found) ∧
     found ≡ₚ filter has_text (tbl_toArray (memos st))) ∧
  (∀ q, (∀ m, m ∈ tbl_toArray (memos st) → ¬ matches_query q m) →
        run (Store.searchMemos toLowerCase Date_parse q) st = (st, inr [])).
Proof.
  intros Hty. split.
  - intros Hlow. eexists. split; [by apply run_searchMemos_typed|].
    rewrite js_sort_perm.
    rewrite (list_filter_iff (matches_query "") has_text); [done|].
    intros m. unfold matches_query, has_text, contains_ci, nonempty_text.
    rewrite Hlow.
    destruct (get m "title"), (get m "content");
      rewrite ?includes_empty; tauto.
  - intros q Hno. rewrite run_searchMemos_typed by done.
    by rewrite filter_none.
Qed.

End Search.

(** The example store in the terms of the search theorems. *)
Lemma ex_store_memos (m : obj) :
  m ∈ tbl_toArray (memos ex_store) → m = ex_memo.
Proof.
  intros [k Hk]%elem_of_tbl_toArray. cbn in Hk.
  by apply lookup_singleton_Some in Hk as [_ <-].
Qed.

Lemma ex_store_typed : Forall memo_typed (tbl_toArray (memos ex_store)).
Proof.
  apply Forall_forall. intros m ->%ex_store_memos. split; exact I.
Qed.

(** C3, as stated, fails: on the example store [searchMemos("")] resolves
    with memo [m1], not with an empty list. *)
Lemma searchMemos_empty_query_counterexample :
  let res := (run (Store.searchMemos ascii_toLowerCase iso_parse "")
                  ex_store).2 in
  res = inr [ex_memo] ∧ res ≠ inr [].
Proof.
  assert ((run (Store.searchMemos ascii_toLowerCase iso_parse "")
               ex_store).2 = inr [ex_memo]) as H.
  { apply (bool_decide_unpack _). vm_compute. exact I. }
  cbv zeta. rewrite H. split; [done|].
  intros Heq.
  apply (f_equal (fun r : result (list obj) =>
                    match r with inr l => length l | inl _ => 0%nat end))
    in Heq.
  cbn in Heq. discriminate Heq.
Qed.

Lemma searchMemos_empty_query_and_no_match_witness :
  (∃ found,
     run (Store.searchMemos ascii_toLowerCase iso_parse "") ex_store
       = (ex_store, inr found) ∧
     found ≡ₚ filter has_text (tbl_toArray (memos ex_store))) ∧
  run (Store.searchMemos ascii_toLowerCase iso_parse "zzz") ex_store
    = (ex_store, inr []).
Proof.
  destruct (searchMemos_empty_query_and_no_match ascii_toLowerCase iso_parse
              ex_store ex_store_typed) as [Hempty Hnone].
  split.
  - apply Hempty. reflexivity.
  - apply Hnone. intros m ->%ex_store_memos.
    apply (bool_decide_eq_false_1 (matches_query ascii_toLowerCase "zzz" ex_memo)).
    vm_compute. reflexivity.
Defined.

Lemma ex_store3_memos :
  tbl_toArray (memos ex_store3) ≡ₚ [ex_memo; ex_memo2; ex_memo3].
Proof.
  unfold ex_store3. cbn [memos].
  rewrite !tbl_toArray_insert by (apply (bool_decide_unpack _); vm_compute; exact I).
  unfold tbl_toArray. by rewrite map_to_list_singleton.
Qed.

Lemma ex_store3_typed : Forall memo_typed (tbl_toArray (memos ex_store3)).
Proof. rewrite ex_store3_memos. repeat constructor. Qed.

Lemma searchMemos_spec_witness :
  (run (Store.searchMemos ascii_toLowerCase iso_parse "B") ex_store3).2
    = inr [ex_memo2; ex_memo] ∧
  memo_contains ascii_toLowerCase "B" ex_memo ∧
  memo_contains ascii_toLowerCase "B" ex_memo2 ∧
  ¬ memo_contains ascii_toLowerCase "B" ex_memo3 ∧
  updatedAt_descending iso_parse [ex_memo2; ex_memo].
Proof.
  destruct (searchMemos_spec ascii_toLowerCase iso_parse ex_store3 "B"
              ex_store3_typed) as (found & Hrun & _ & Hiff & _ & Hdesc).
  assert ((run (Store.searchMemos ascii_toLowerCase iso_parse "B")
               ex_store3).2 = inr [ex_memo2; ex_memo]) as Hval.
  { apply (bool_decide_unpack _). vm_compute. exact I. }
  split; [exact Hval|].
  rewrite Hrun in Hval. cbn in Hval. injection Hval as ->.
  split; [|split; [|split]].
  - apply (proj1 (Hiff ex_memo)).
    apply list_elem_of_further, list_elem_of_here.
  - apply (proj1 (Hiff ex_memo2)). apply list_elem_of_here.
  - intros Hc.
    assert (ex_memo3 ∈ [ex_memo2; ex_memo]) as Hin.
    { apply (proj2 (Hiff ex_memo3)). split; [|done].
      rewrite ex_store3_memos.
      do 2 apply list_elem_of_further. apply list_elem_of_here. }
    apply (bool_decide_eq_false_1 (ex_memo3 ∈ [ex_memo2; ex_memo]));
      [vm_compute; reflexivity|exact Hin].
  - apply Hdesc.
    constructor; [|constructor; [|constructor]];
      (eexists; eexists; split; [reflexivity|vm_compute; reflexivity]).
Defined.

Example searchMemos_milk :
  (run (Store.searchMemos ascii_toLowerCase iso_parse "MILK") ex_store).2
  = inr [ex_memo].
Proof. apply (bool_decide_unpack _). vm_compute. exact I. Qed.

(** ** The table invariant is kept by every operation

    [store_wf], assumed by some of the statements above, holds of the empty
    database and of every database that the operations of [Store] produce,
    the ones observable between two awaited calls included. *)

Lemma prog_wf_bind {A B} (m : prog A) (f : A → prog B) :
  prog_wf m → (∀ a, prog_wf (f a)) → prog_wf (m ≫= f).
Proof.
  intros Hm Hf. induction Hm as [a|e|C act k Hact _ IH]; cbn.
  - apply Hf.
  - constructor.
  - constructor; [done|]. intros b. apply IH.
Qed.

Lemma prog_wf_await {B} (act : action B) : action_wf act → prog_wf (await act).
Proof. intros H. constructor; [done|]. intros b. constructor. Qed.

Lemma run_trace_wf {A} (m : prog A) :
  prog_wf m → ∀ s, store_wf s →
  store_wf (run m s).1 ∧ Forall store_wf (trace m s).
Proof.
  induction 1 as [a|e|B act k Hact _ IH]; intros s Hs; cbn.
  - by split.
  - by split.
  - specialize (Hact s Hs). destruct (act s) as [s' [e|b]]; cbn in *.
    + split; [done|]. constructor; [done|constructor].
    + destruct (IH b s' Hact) as [Hrun Htr]. split; [done|].
      by constructor.
Qed.

Lemma upd_folders_wf (f : table → result table) :
  (∀ t t', table_wf t → f t = inr t' → table_wf t') →
  action_wf (upd_folders f).
Proof.
  intros Hf s [Hfs Hms]. unfold upd_folders.
  destruct (f (folders s)) as [e|t'] eqn:Hft; cbn; [done|].
  split; [exact (Hf _ _ Hfs Hft)|done].
Qed.

Lemma upd_memos_wf (f : table → result table) :
  (∀ t t', table_wf t → f t = inr t' → table_wf t') →
  action_wf (upd_memos f).
Proof.
  intros Hf s [Hfs Hms]. unfold upd_memos.
  destruct (f (memos s)) as [e|t'] eqn:Hft; cbn; [done|].
  split; [done|exact (Hf _ _ Hms Hft)].
Qed.

Lemma read_folders_wf {B} (f : table → result B) : action_wf (read_folders f).
Proof. by intros s Hs. Qed.

Lemma read_memos_wf {B} (f : table → result B) : action_wf (read_memos f).
Proof. by intros s Hs. Qed.

Lemma bulk_folders_wf os : action_wf (bulk_folders os).
Proof.
  intros s [Hfs Hms]. unfold bulk_folders, tbl_bulkAdd.
  pose proof (tbl_bulkAdd_go_wf os (folders s) false Hfs) as Hgo.
  destruct (forallb _ os); [|by split].
  destruct (tbl_bulkAdd_go os (folders s) false) as [t' b]. by split.
Qed.

Lemma bulk_memos_wf os : action_wf (bulk_memos os).
Proof.
  intros s [Hfs Hms]. unfold bulk_memos, tbl_bulkAdd.
  pose proof (tbl_bulkAdd_go_wf os (memos s) false Hms) as Hgo.
  destruct (forallb _ os); [|by split].
  destruct (tbl_bulkAdd_go os (memos s) false) as [t' b]. by split.
Qed.

Lemma clear_wf (t t' : table) :
  table_wf t → (inr (tbl_clear t) : result table) = inr t' → table_wf t'.
Proof. intros _ [= <-]. apply table_wf_empty. Qed.

Create HintDb store_wf.

#[local] Hint Resolve prog_wf_await upd_folders_wf upd_memos_wf
  read_folders_wf read_memos_wf bulk_folders_wf bulk_memos_wf
  tbl_add_wf tbl_delete_wf tbl_update_wf tbl_where_equals_delete_wf
  clear_wf : store_wf.
#[local] Hint Constructors prog_wf : store_wf.

Ltac prog_wf :=
  repeat first
    [ apply prog_wf_bind; [|intros ?]
    | apply prog_wf_await
    | match goal with
      | |- prog_wf (if ?b then _ else _) => destruct b
      | |- prog_wf (match ?x with _ => _ end) => destruct x
      end
    | solve [eauto 6 with store_wf] ].

Lemma Store_operations_wf :
  (∀ ms rnd now name, prog_wf (Store.addFolder ms rnd now name)) ∧
  (∀ id, prog_wf (Store.deleteFolder id)) ∧
  (∀ now id name, prog_wf (Store.updateFolder now id name)) ∧
  (∀ now id, prog_wf (Store.updateFolderTimestamp now id)) ∧
  (∀ ms rnd now now' memo, prog_wf (Store.addMemo ms rnd now now' memo)) ∧
  (∀ now now' id updates, prog_wf (Store.updateMemo now now' id updates)) ∧
  (∀ id, prog_wf (Store.deleteMemo id)) ∧
  (∀ now, prog_wf (Store.exportAllData now)) ∧
  (∀ data, prog_wf (Store.importData data)) ∧
  prog_wf Store.clearAllData ∧
  prog_wf Store.getFolders ∧ prog_wf Store.getMemos ∧
  (∀ lower parse q, prog_wf (Store.searchMemos lower parse q)) ∧
  (∀ parse id, prog_wf (Store.getMemosByFolder parse id)).
Proof.
  repeat split; intros;
    unfold Store.addFolder, Store.deleteFolder, Store.updateFolder,
      Store.addMemo, Store.updateMemo, Store.updateFolderTimestamp,
      Store.deleteMemo, Store.exportAllData, Store.importData,
      Store.clearAllData, Store.getFolders, Store.getMemos,
      Store.searchMemos, Store.getMemosByFolder;
    prog_wf.
Qed.

Lemma empty_store_wf : store_wf (mkStore ∅ ∅).
Proof. split; apply table_wf_empty. Qed.

(** ** The edges of the data model

    Two inputs outside the hypotheses above.  A memo whose [title] is a
    non-zero number (it can come from an imported document) makes the search
    throw; two records with one [id] in a document make [importData] reject
    after it has cleared the database and inserted the first; a record
    without an [id] makes it reject after the clearing with nothing
    inserted. *)

Example searchMemos_numeric_title :
  (run (Store.searchMemos ascii_toLowerCase iso_parse "a")
       (mkStore ∅ {[ KNum 1 := <["title" := JNum 5]> {["id" := JNum 1]} ]})).2
  = inl TypeError.
Proof. apply (bool_decide_unpack _). vm_compute. exact I. Qed.

Example importData_duplicate_ids :
  let out := run (Store.importData
                    (mkBackup (Some [ex_folder; ex_folder]) (Some [ex_memo])
                              JUndefined)) ex_store in
  out.2 = inl BulkError ∧
  tbl_toArray (folders out.1) = [ex_folder] ∧ tbl_toArray (memos out.1) = [].
Proof.
  cbv zeta. repeat split; apply (bool_decide_unpack _); vm_compute; exact I.
Qed.

Example importData_missing_id :
  let out := run (Store.importData
                    (mkBackup (Some [ex_folder; {["name" := JStr "No id"]}])
                              (Some [ex_memo]) JUndefined)) ex_store in
  out = (mkStore ∅ ∅, inl DataError).
Proof. cbv zeta. apply (bool_decide_unpack _). vm_compute. exact I. Qed.

(** * Further properties of the store *)

(** ** addFolder, updateFolder, deleteMemo *)

(** X1. [addFolder(name)] with a generated id that is free adds one folder
    record, with that id, the given name and the clock reading as both
    [createdAt] and [updatedAt], returns it, and leaves every other folder
    and all memos as they were; with an id that is taken (the same
    millisecond and random digits again) the call is rejected and nothing
    changes. *)
Theorem addFolder_creates (st : store) (ms rnd now : string) (name : jsval) :
  let k := KStr (Store.generateId ms rnd) in
  (folders st !! k = None →
   ∃ folder,
     run (Store.addFolder ms rnd now name) st =
       (mkStore (<[k := folder]> (folders st)) (memos st), inr folder) ∧
     get folder "id" = JStr (Store.generateId ms rnd) ∧
     get folder "name" = name ∧
     get folder "createdAt" = JStr now ∧
     get folder "updatedAt" = JStr now ∧
     dom folder = {["id"; "name"; "createdAt"; "updatedAt"]}) ∧
  (is_Some (folders st !! k) →
   run (Store.addFolder ms rnd now name) st = (st, inl ConstraintError)).
Proof.
  intros k. split.
  - intros Hfree. eexists. split.
    + unfold Store.addFolder. cbn. unfold upd_folders, tbl_add, primKey.
      rewrite !get_insert_ne by done. unfold get at 1.
      rewrite lookup_singleton_eq. cbn. fold k. rewrite Hfree. reflexivity.
    + rewrite !get_insert_ne, !get_insert_eq by done.
      unfold get. rewrite lookup_singleton_eq.
      repeat split; try done.
  - intros [f Hf]. unfold Store.addFolder. cbn.
    unfold upd_folders, tbl_add, primKey.
    rewrite !get_insert_ne by done. unfold get at 1.
    rewrite lookup_singleton_eq. cbn. fold k. by rewrite Hf.
Qed.

Lemma addFolder_creates_witness :
  (∃ folder,
     run (Store.addFolder "17" "0.abcdefghijk" "2025-01-01T00:00:00.000Z"
            (JStr "Home")) ex_store =
       (mkStore (<[KStr "17_abcdefghi" := folder]> (folders ex_store))
                (memos ex_store), inr folder) ∧
     get folder "id" = JStr "17_abcdefghi" ∧
     get folder "name" = JStr "Home" ∧
     get folder "createdAt" = JStr "2025-01-01T00:00:00.000Z" ∧
     get folder "updatedAt" = JStr "2025-01-01T00:00:00.000Z" ∧
     dom folder = {["id"; "name"; "createdAt"; "updatedAt"]}) ∧
  run (Store.addFolder "17" "0.abcdefghijk" "2025-01-01T00:00:00.000Z"
         (JStr "Home"))
      (mkStore (<[KStr "17_abcdefghi" := ex_folder]> ∅) ∅)
    = (mkStore (<[KStr "17_abcdefghi" := ex_folder]> ∅) ∅,
       inl ConstraintError).
Proof.
  split.
  - apply (addFolder_creates ex_store "17" "0.abcdefghijk"
             "2025-01-01T00:00:00.000Z" (JStr "Home")). reflexivity.
  - apply (addFolder_creates (mkStore (<[KStr "17_abcdefghi" := ex_folder]> ∅) ∅)
             "17" "0.abcdefghijk" "2025-01-01T00:00:00.000Z" (JStr "Home")).
    exists ex_folder. reflexivity.
Defined.

(** X2. [updateFolder(id, name)] on a folder that exists sets its [name]
    and puts the clock reading in [updatedAt]; every other property of the
    folder ([id], [createdAt]), every other folder and all memos stay.  On an
    id that is a valid key of no folder it resolves without an error and
    changes nothing. *)
Theorem updateFolder_renames (st : store) (now : string) (k : key)
    (name : jsval) :
  store_wf st → name ≠ JUndefined →
  (∀ f, folders st !! k = Some f →
     ∃ f',
       run (Store.updateFolder now (of_key k) name) st =
         (mkStore (<[k := f']> (folders st)) (memos st), inr tt) ∧
       get f' "name" = name ∧ get f' "updatedAt" = JStr now ∧
       ∀ p, p ≠ "name" → p ≠ "updatedAt" → f' !! p = f !! p) ∧
  (folders st !! k = None →
   run (Store.updateFolder now (of_key k) name) st = (st, inr tt)).
Proof.
  intros [Hwf _] Hname. split.
  - intros f Hf. eexists. split; [|split; [|split]].
    + unfold Store.updateFolder. cbn. unfold upd_folders.
      rewrite (tbl_update_same_key (folders st) k f); [reflexivity|done..].
    + rewrite get_modify_obj, lookup_insert_ne, lookup_singleton_eq; done.
    + by rewrite get_modify_obj, lookup_insert_eq.
    + intros p Hp1 Hp2. rewrite lookup_modify_obj.
      by rewrite lookup_insert_ne, lookup_singleton_ne.
  - intros Hnone. unfold Store.updateFolder. cbn. unfold upd_folders.
    rewrite tbl_update_missing by done. by destruct st.
Qed.

Lemma updateFolder_renames_witness :
  (∃ f',
     run (Store.updateFolder "2025-01-01T00:00:00.000Z" (of_key (KStr "f1"))
            (JStr "Office")) ex_store =
       (mkStore (<[KStr "f1" := f']> (folders ex_store)) (memos ex_store),
        inr tt) ∧
     get f' "name" = JStr "Office" ∧
     get f' "updatedAt" = JStr "2025-01-01T00:00:00.000Z" ∧
     ∀ p, p ≠ "name" → p ≠ "updatedAt" → f' !! p = ex_folder !! p) ∧
  run (Store.updateFolder "2025-01-01T00:00:00.000Z" (of_key (KStr "nope"))
         (JStr "Office")) ex_store = (ex_store, inr tt).
Proof.
  destruct (updateFolder_renames ex_store "2025-01-01T00:00:00.000Z"
              (KStr "f1") (JStr "Office") ex_store_wf) as [Hhit _]; [done|].
  destruct (updateFolder_renames ex_store "2025-01-01T00:00:00.000Z"
              (KStr "nope") (JStr "Office") ex_store_wf) as [_ Hmiss]; [done|].
  split; [apply Hhit; reflexivity|apply Hmiss; reflexivity].
Defined.

(** X3. [deleteMemo(id)] removes the memo under [id] and nothing else: the
    other memos and all folders stay (the folder of the memo is not
    touched).  It is idempotent: for an id that is not there it resolves and
    changes nothing, so deleting twice is deleting once. *)
Theorem deleteMemo_idempotent (st : store) (k : key) :
  let once := run (Store.deleteMemo (of_key k)) st in
  once = (mkStore (folders st) (delete k (memos st)), inr tt) ∧
  (memos st !! k = None → once = (st, inr tt)) ∧
  run (Store.deleteMemo (of_key k)) once.1 = once.
Proof.
  assert (∀ s, run (Store.deleteMemo (of_key k)) s
               = (mkStore (folders s) (delete k (memos s)), inr tt)) as Hrun.
  { intros s. unfold Store.deleteMemo. cbn. unfold upd_memos, tbl_delete.
    by rewrite to_key_of_key. }
  cbv zeta. rewrite !Hrun. cbn. split; [done|]. split.
  - intros Hnone. rewrite delete_id by done. by destruct st.
  - by rewrite delete_delete_eq.
Qed.

Lemma deleteMemo_idempotent_witness :
  let once := run (Store.deleteMemo (of_key (KStr "nope"))) ex_store in
  once = (mkStore (folders ex_store) (delete (KStr "nope") (memos ex_store)),
          inr tt) ∧
  once = (ex_store, inr tt) ∧
  run (Store.deleteMemo (of_key (KStr "nope"))) once.1 = once.
Proof.
  destruct (deleteMemo_idempotent ex_store (KStr "nope")) as (H1 & H2 & H3).
  split; [exact H1|]. split; [apply H2; reflexivity|exact H3].
Defined.

(** ** getMemosByFolder *)

Section ByFolder.

Variable Date_parse : string → option Z.

Local Abbreviation dated := (dated Date_parse).
Local Abbreviation newer_first := (newer_first Date_parse).

Lemma run_getMemosByFolder (st : store) (F : key) :
  run (Store.getMemosByFolder Date_parse (of_key F)) st =
    (st, inr (js_sort (Store.byUpdatedAtDesc Date_parse)
                (filter (field_is "folderId" F) (tbl_toArray (memos st))))).
Proof.
  unfold Store.getMemosByFolder. cbn. unfold read_memos, tbl_where_equals.
  by rewrite to_key_of_key.
Qed.

(** X4. [getMemosByFolder(F)] reads only; it resolves with exactly the
    memos whose [folderId] is [F], each once, and when their [updatedAt] are
    dates the list is in descending order of [updatedAt]. *)
Theorem getMemosByFolder_spec (st : store) (F : key) :
  ∃ found,
    run (Store.getMemosByFolder Date_parse (of_key F)) st = (st, inr found) ∧
    found ≡ₚ filter (field_is "folderId" F) (tbl_toArray (memos st)) ∧
    (∀ m, m ∈ found ↔
          m ∈ tbl_toArray (memos st) ∧ get m "folderId" = of_key F) ∧
    (Forall dated found → StronglySorted newer_first found).
Proof.
  eexists. split; [apply run_getMemosByFolder|].
  split; [apply js_sort_perm|]. split.
  - intros m. rewrite js_sort_perm, list_elem_of_filter. unfold field_is.
    split.
    + intros [Hk Hm]. split; [done|]. by apply to_key_Some.
    + intros [Hm ->]. split; [apply to_key_of_key|done].
  - intros Hd. apply js_sort_sorted. by rewrite js_sort_perm in Hd.
Qed.

End ByFolder.

Lemma getMemosByFolder_spec_witness :
  (run (Store.getMemosByFolder iso_parse (of_key (KStr "f1"))) ex_store3).2
    = inr [ex_memo2; ex_memo] ∧
  StronglySorted (newer_first iso_parse) [ex_memo2; ex_memo].
Proof.
  destruct (getMemosByFolder_spec iso_parse ex_store3 (KStr "f1"))
    as (found & Hrun & _ & _ & Hsorted).
  assert ((run (Store.getMemosByFolder iso_parse (of_key (KStr "f1")))
               ex_store3).2 = inr [ex_memo2; ex_memo]) as Hval.
  { apply (bool_decide_unpack _). vm_compute. exact I. }
  split; [exact Hval|].
  rewrite Hrun in Hval. cbn in Hval. injection Hval as ->.
  apply Hsorted. repeat constructor; eexists; vm_compute; reflexivity.
Defined.

(** ** Edges of deleteFolder and addMemo *)

(** X5. [deleteFolder] with an argument that is not a valid key
    ([undefined], [null], a boolean) is rejected by the first delete and
    removes nothing, no memo either.  With a valid key under which there is
    no folder it resolves, leaves the folders as they are and still removes
    the memos whose [folderId] is that key. *)
Theorem deleteFolder_edges (st : store) :
  (∀ v, to_key v = None →
        run (Store.deleteFolder v) st = (st, inl DataError)) ∧
  (∀ F, folders st !! F = None →
        ∃ st', run (Store.deleteFolder (of_key F)) st = (st', inr tt) ∧
               folders st' = folders st ∧
               (∀ k m, memos st' !! k = Some m ↔
                       memos st !! k = Some m ∧ get m "folderId" ≠ of_key F)).
Proof.
  split.
  - intros v Hv. unfold Store.deleteFolder. cbn.
    unfold upd_folders, tbl_delete. by rewrite Hv.
  - intros F HF. eexists. split; [apply run_deleteFolder|]. cbn.
    split; [by apply delete_id|].
    intros k m. rewrite map_lookup_filter_Some. cbn. unfold field_is.
    split; intros [Hm Hne]; (split; [done|]).
    + intros Heq. apply Hne. rewrite Heq. apply to_key_of_key.
    + intros Hk. by apply to_key_Some in Hk.
Qed.

Lemma deleteFolder_edges_witness :
  run (Store.deleteFolder JUndefined) ex_store = (ex_store, inl DataError) ∧
  ∃ st', run (Store.deleteFolder (of_key (KStr "f1"))) ex_store_orphan
           = (st', inr tt) ∧
         folders st' = folders ex_store_orphan ∧
         (∀ k m, memos st' !! k = Some m ↔
                 memos ex_store_orphan !! k = Some m ∧
                 get m "folderId" ≠ of_key (KStr "f1")).
Proof.
  split.
  - apply (deleteFolder_edges ex_store). reflexivity.
  - apply (deleteFolder_edges ex_store_orphan). reflexivity.
Defined.

(** X6. [addMemo] never makes a folder.  For an input whose record gets a
    free valid id: without a usable [folderId] (missing, [null], not a key)
    the memo is persisted and the call is then rejected by the touch of the
    folder; with a [folderId] that names no folder the call resolves and the
    orphan memo is persisted; in both cases the folder table is exactly as
    before. *)
Theorem addMemo_without_folder (st : store) (ms rnd now now' : string)
    (memo : obj) (k : key) :
  primKey (Store.newMemo ms rnd now memo) = Some k →
  memos st !! k = None →
  (to_key (get memo "folderId") = None →
   run (Store.addMemo ms rnd now now' memo) st =
     (mkStore (folders st) (<[k := Store.newMemo ms rnd now memo]> (memos st)),
      inl InvalidKeyArg)) ∧
  (∀ fk, get memo "folderId" = of_key fk → folders st !! fk = None →
   run (Store.addMemo ms rnd now now' memo) st =
     (mkStore (folders st) (<[k := Store.newMemo ms rnd now memo]> (memos st)),
      inr (Store.newMemo ms rnd now memo))).
Proof.
  intros Hk Hfree. split.
  - intros Hfid. rewrite (run_addMemo_added st ms rnd now now' memo k Hk Hfree).
    unfold tbl_update. by rewrite Hfid.
  - intros fk Hfid Hnone.
    rewrite (run_addMemo_added st ms rnd now now' memo k Hk Hfree).
    by rewrite Hfid, tbl_update_missing.
Qed.

Lemma addMemo_without_folder_witness :
  let nm1 := Store.newMemo "17" "0.abcdefghijk" "2025-01-01T00:00:00.000Z"
               {["title" := JStr "loose"]} in
  let nm2 := Store.newMemo "17" "0.abcdefghijk" "2025-01-01T00:00:00.000Z"
               {["folderId" := JStr "gone"]} in
  run (Store.addMemo "17" "0.abcdefghijk" "2025-01-01T00:00:00.000Z"
         "2025-01-01T00:00:00.001Z" {["title" := JStr "loose"]}) ex_store =
    (mkStore (folders ex_store)
             (<[KStr "17_abcdefghi" := nm1]> (memos ex_store)),
     inl InvalidKeyArg) ∧
  run (Store.addMemo "17" "0.abcdefghijk" "2025-01-01T00:00:00.000Z"
         "2025-01-01T00:00:00.001Z" {["folderId" := JStr "gone"]}) ex_store =
    (mkStore (folders ex_store)
             (<[KStr "17_abcdefghi" := nm2]> (memos ex_store)),
     inr nm2).
Proof.
  split.
  - apply (addMemo_without_folder ex_store "17" "0.abcdefghijk"
             "2025-01-01T00:00:00.000Z" "2025-01-01T00:00:00.001Z"
             {["title" := JStr "loose"]} (KStr "17_abcdefghi")); reflexivity.
  - destruct (addMemo_without_folder ex_store "17" "0.abcdefghijk"
                "2025-01-01T00:00:00.000Z" "2025-01-01T00:00:00.001Z"
                {["folderId" := JStr "gone"]} (KStr "17_abcdefghi"))
      as [_ Horphan]; [reflexivity..|].
    apply (Horphan (KStr "gone")); reflexivity.
Defined.

(** ** updateMemo on a stored memo *)

(** X7. [updateMemo(id, updates)] on a stored memo, with updates that do
    not name [id] and whose [folderId] is absent, falsy or a valid key,
    resolves with the memo as it is stored afterwards.  In that memo every
    supplied property has the supplied value, [updatedAt] is the clock
    reading, every property that was not supplied is as before, and the
    other memos are unchanged. *)
Theorem updateMemo_partial_update (st : store) (now now' : string) (k : key)
    (r updates : obj) :
  store_wf st → memos st !! k = Some r → updates !! "id" = None →
  (truthy (get updates "folderId") = true →
   is_Some (to_key (get updates "folderId"))) →
  ∃ st' r',
    run (Store.updateMemo now now' (of_key k) updates) st
      = (st', inr (Some r')) ∧
    memos st' = <[k := r']> (memos st) ∧
    get r' "updatedAt" = JStr now ∧
    (∀ p v, p ≠ "updatedAt" → updates !! p = Some v → get r' p = v) ∧
    (∀ p, p ≠ "updatedAt" → updates !! p = None → r' !! p = r !! p).
Proof.
  intros [Hwf Hwm] Hr Hid Hfid.
  set (r' := modify_obj (<["updatedAt" := JStr now]> updates) r).
  assert (tbl_get (of_key k) (<[k := r']> (memos st)) = inr (Some r')) as Hget.
  { unfold tbl_get. by rewrite to_key_of_key, lookup_insert_eq. }
  assert (∃ st', run (Store.updateMemo now now' (of_key k) updates) st
                 = (st', inr (Some r')) ∧ memos st' = <[k := r']> (memos st))
    as (st' & Hrun & Hm).
  { rewrite run_updateMemo, tbl_update_no_id_total, Hr;
      [|done|by rewrite lookup_insert_ne]. fold r'. rewrite Hget.
    destruct (truthy (get updates "folderId")) eqn:Htr.
    - destruct (touch_total (folders st) (get updates "folderId") now' Hwf
                  (Hfid eq_refl)) as [fs' ->]. by eexists.
    - by eexists. }
  exists st', r'. split; [done|]. split; [done|]. split; [|split].
  - unfold r'. by rewrite get_modify_obj, lookup_insert_eq.
  - intros p v Hp Hv. unfold r'.
    by rewrite get_modify_obj, lookup_insert_ne, Hv.
  - intros p Hp Hv. unfold r'.
    by rewrite lookup_modify_obj, lookup_insert_ne, Hv.
Qed.

Lemma updateMemo_partial_update_witness :
  ∃ st' r',
    run (Store.updateMemo "2025-01-01T00:00:00.000Z"
           "2025-01-01T00:00:00.001Z" (of_key (KStr "m1"))
           {["title" := JStr "New plan"]}) ex_store = (st', inr (Some r')) ∧
    memos st' = <[KStr "m1" := r']> (memos ex_store) ∧
    get r' "updatedAt" = JStr "2025-01-01T00:00:00.000Z" ∧
    (∀ p v, p ≠ "updatedAt" →
            ({["title" := JStr "New plan"]} : obj) !! p = Some v →
            get r' p = v) ∧
    (∀ p, p ≠ "updatedAt" →
          ({["title" := JStr "New plan"]} : obj) !! p = None →
          r' !! p = ex_memo !! p).
Proof.
  apply (updateMemo_partial_update ex_store "2025-01-01T00:00:00.000Z"
           "2025-01-01T00:00:00.001Z" (KStr "m1") ex_memo
           {["title" := JStr "New plan"]} ex_store_wf); try reflexivity.
  intros Htr. vm_compute in Htr. discriminate Htr.
Defined.

(** ** The table invariant *)

(** X8. Every operation of [Store] keeps the invariant of the tables (a
    record is stored under the key its [id] gives), also in the databases
    left by each of its awaited calls and also when it is rejected on the
    way. *)
Theorem Store_keeps_wf :
  (∀ ms rnd now name, keeps_wf (Store.addFolder ms rnd now name)) ∧
  (∀ id, keeps_wf (Store.deleteFolder id)) ∧
  (∀ now id name, keeps_wf (Store.updateFolder now id name)) ∧
  (∀ now id, keeps_wf (Store.updateFolderTimestamp now id)) ∧
  (∀ ms rnd now now' memo, keeps_wf (Store.addMemo ms rnd now now' memo)) ∧
  (∀ now now' id updates, keeps_wf (Store.updateMemo now now' id updates)) ∧
  (∀ id, keeps_wf (Store.deleteMemo id)) ∧
  (∀ data, keeps_wf (Store.importData data)) ∧
  keeps_wf Store.clearAllData.
Proof.
  destruct Store_operations_wf
    as (H1 & H2 & H3 & H4 & H5 & H6 & H7 & _ & H9 & H10 & _).
  repeat match goal with |- _ ∧ _ => split end;
    unfold keeps_wf; intros; apply run_trace_wf; auto.
Qed.

Lemma Store_keeps_wf_witness :
  store_wf (run (Store.updateMemo "2025-01-01T00:00:00.000Z"
                   "2025-01-01T00:00:00.001Z" (JStr "m1")
                   {["id" := JStr "m7"]}) ex_store).1 ∧
  store_wf (run (Store.importData
                   (mkBackup (Some [ex_folder; ex_folder]) None JUndefined))
                ex_store).1.
Proof.
  destruct Store_keeps_wf as (_ & _ & _ & _ & _ & Hupd & _ & Himp & _).
  split.
  - apply (Hupd "2025-01-01T00:00:00.000Z" "2025-01-01T00:00:00.001Z"
             (JStr "m1") {["id" := JStr "m7"]} ex_store ex_store_wf).
  - apply (Himp (mkBackup (Some [ex_folder; ex_folder]) None JUndefined)
             ex_store ex_store_wf).
Defined.

(** ** generateId *)

Lemma is_digits_cons c s :
  is_digits (String c s) = true → c ≠ "_"%char ∧ is_digits s = true.
Proof.
  simpl. intros [Hc Hs]%andb_true_iff. split; [|done].
  apply bool_decide_eq_true in Hc. intros ->. by destruct Hc.
Qed.

(** X9. Ids generated at different millisecond readings are different,
    and two ids generated at the same reading are equal exactly when the
    nine characters after the first two of the random strings agree: an id
    is the digits of the clock, an underscore and those characters. *)
Theorem generateId_injective (ms1 ms2 rnd1 rnd2 : string) :
  is_digits ms1 = true → is_digits ms2 = true →
  (Store.generateId ms1 rnd1 = Store.generateId ms2 rnd2 ↔
   ms1 = ms2 ∧ String.substring 2 9 rnd1 = String.substring 2 9 rnd2).
Proof.
  unfold Store.generateId. intros H1 H2. split.
  - revert ms2 H1 H2. induction ms1 as [|c1 ms1 IH]; intros [|c2 ms2] H1 H2;
      simpl; intros Heq.
    + split; [done|]. by injection Heq.
    + injection Heq as Hc _. destruct (is_digits_cons _ _ H2) as [Hne _].
      by destruct Hne.
    + injection Heq as Hc _. destruct (is_digits_cons _ _ H1) as [Hne _].
      by destruct Hne.
    + injection Heq as Hc Heq.
      destruct (is_digits_cons _ _ H1) as [_ H1'].
      destruct (is_digits_cons _ _ H2) as [_ H2'].
      destruct (IH ms2 H1' H2' Heq) as [Hms Hsuf]. by subst.
  - by intros [-> ->].
Qed.

Lemma generateId_injective_witness :
  Store.generateId "1700000000000" "0.4fzyo82mvyr"
    ≠ Store.generateId "1700000000001" "0.4fzyo82mvyr" ∧
  Store.generateId "1700000000000" "0.4fzyo82mvyr"
    = Store.generateId "1700000000000" "0.4fzyo82mvXX".
Proof.
  split.
  - intros Heq.
    apply (generateId_injective "1700000000000" "1700000000001"
             "0.4fzyo82mvyr" "0.4fzyo82mvyr") in Heq as [Hms _];
      [discriminate Hms|reflexivity|reflexivity].
  - apply (generateId_injective "1700000000000" "1700000000000"
             "0.4fzyo82mvyr" "0.4fzyo82mvXX"); [reflexivity..|].
    split; reflexivity.
Defined.

(** ** Operations one after the other *)

Lemma run_bind {A B} (m : prog A) (f : A → prog B) (s : store) :
  run (m ≫= f) s =
    match run m s with
    | (s', inl e) => (s', inl e)
    | (s', inr a) => run (f a) s'
    end.
Proof.
  revert s. induction m as [a|e|C act k IH]; intros s; cbn; [done..|].
  destruct (act s) as [s' [e|c]]; [done|]. apply IH.
Qed.

Lemma run_addMemo_in_folder (st : store) ms rnd now now' (memo : obj) k :
  store_wf st →
  primKey (Store.newMemo ms rnd now memo) = Some k →
  memos st !! k = None →
  is_Some (to_key (get memo "folderId")) →
  ∃ fs', run (Store.addMemo ms rnd now now' memo) st =
           (mkStore fs' (<[k := Store.newMemo ms rnd now memo]> (memos st)),
            inr (Store.newMemo ms rnd now memo)).
Proof.
  intros [Hwf _] Hk Hfree Hfid.
  rewrite (run_addMemo_added st ms rnd now now' memo k Hk Hfree).
  destruct (touch_total (folders st) (get memo "folderId") now' Hwf Hfid)
    as [fs' ->]. by eexists.
Qed.

(** X10. Creating a memo and then deleting it by the id of the returned
    record gives back the memo table as it was before; the touch of the
    folder stays (the folder table is the one left by [addMemo]). *)
Theorem addMemo_then_deleteMemo (st : store) (ms rnd now now' : string)
    (memo : obj) (k : key) :
  store_wf st →
  primKey (Store.newMemo ms rnd now memo) = Some k →
  memos st !! k = None →
  is_Some (to_key (get memo "folderId")) →
  run (nm ← Store.addMemo ms rnd now now' memo;
       Store.deleteMemo (get nm "id")) st =
    (mkStore (folders (run (Store.addMemo ms rnd now now' memo) st).1)
             (memos st), inr tt).
Proof.
  intros Hwf Hk Hfree Hfid. rewrite run_bind.
  destruct (run_addMemo_in_folder st ms rnd now now' memo k Hwf Hk Hfree Hfid)
    as [fs' ->]. cbn.
  unfold upd_memos, tbl_delete. fold (primKey (Store.newMemo ms rnd now memo)).
  rewrite Hk. cbn. by rewrite delete_insert_eq, delete_id.
Qed.

Lemma addMemo_then_deleteMemo_witness :
  let memo : obj := <["title" := JStr "tmp"]> {["folderId" := JStr "f1"]} in
  run (nm ← Store.addMemo "17" "0.abcdefghijk" "2025-01-01T00:00:00.000Z"
              "2025-01-01T00:00:00.001Z" memo;
       Store.deleteMemo (get nm "id")) ex_store =
    (mkStore (folders (run (Store.addMemo "17" "0.abcdefghijk"
                              "2025-01-01T00:00:00.000Z"
                              "2025-01-01T00:00:00.001Z" memo) ex_store).1)
             (memos ex_store), inr tt).
Proof.
  intros memo.
  apply (addMemo_then_deleteMemo ex_store "17" "0.abcdefghijk"
           "2025-01-01T00:00:00.000Z" "2025-01-01T00:00:00.001Z" memo
           (KStr "17_abcdefghi") ex_store_wf); try reflexivity.
  by exists (KStr "f1").
Defined.

Section SearchAfterAdd.

Variable toLowerCase : string → string.
Variable Date_parse : string → option Z.

(** X11. A memo created with [addMemo] is found by a following
    [searchMemos(q)] for every [q] that its title or its content contains
    (case-insensitively), on a store whose memos, like the new one, have a
    string or nothing as [title] and [content]. *)
Theorem addMemo_then_searchMemos (st : store) (ms rnd now now' : string)
    (memo : obj) (k : key) (q : string) :
  store_wf st →
  Forall memo_typed (tbl_toArray (memos st)) → memo_typed memo →
  primKey (Store.newMemo ms rnd now memo) = Some k →
  memos st !! k = None →
  is_Some (to_key (get memo "folderId")) →
  matches_query toLowerCase q memo →
  ∃ st' found,
    run (Store.addMemo ms rnd now now' memo;;
         Store.searchMemos toLowerCase Date_parse q) st = (st', inr found) ∧
    Store.newMemo ms rnd now memo ∈ found.
Proof.
  intros Hwf Hty Hmemo Hk Hfree Hfid Hq. rewrite run_bind.
  destruct (run_addMemo_in_folder st ms rnd now now' memo k Hwf Hk Hfree Hfid)
    as [fs' ->].
  set (nm := Store.newMemo ms rnd now memo).
  assert (get nm "title" = get memo "title" ∧
          get nm "content" = get memo "content") as [Ht Hc].
  { unfold get, nm. by rewrite !newMemo_other. }
  rewrite (run_searchMemos_typed toLowerCase Date_parse).
  2:{ cbn. rewrite tbl_toArray_insert by done. constructor; [|done].
      unfold memo_typed. by rewrite Ht, Hc. }
  eexists _, _. split; [done|].
  rewrite js_sort_perm, list_elem_of_filter. cbn. split.
  - unfold matches_query. by rewrite Ht, Hc.
  - apply elem_of_tbl_toArray. exists k. apply lookup_insert_eq.
Qed.

End SearchAfterAdd.

Lemma addMemo_then_searchMemos_witness :
  let memo : obj :=
    <["title" := JStr "Plan"]> (<["content" := JStr "buy milk"]>
       {["folderId" := JStr "f1"]}) in
  ∃ st' found,
    run (Store.addMemo "17" "0.abcdefghijk" "2025-01-01T00:00:00.000Z"
           "2025-01-01T00:00:00.001Z" memo;;
         Store.searchMemos ascii_toLowerCase iso_parse "MILK") ex_store
      = (st', inr found) ∧
    Store.newMemo "17" "0.abcdefghijk" "2025-01-01T00:00:00.000Z" memo
      ∈ found.
Proof.
  intros memo.
  apply (addMemo_then_searchMemos ascii_toLowerCase iso_parse ex_store
           "17" "0.abcdefghijk" "2025-01-01T00:00:00.000Z"
           "2025-01-01T00:00:00.001Z" memo (KStr "17_abcdefghi") "MILK"
           ex_store_wf ex_store_typed); try reflexivity.
  - split; exact I.
  - by exists (KStr "f1").
  - apply (bool_decide_unpack _). vm_compute. exact I.
Defined.

(** ** Start-up: the first folders *)

Lemma run_addFolder (st : store) (ms rnd now : string) (name : jsval) :
  run (Store.addFolder ms rnd now name) st =
    match folders st !! KStr (Store.generateId ms rnd) with
    | None =>
        (mkStore (<[KStr (Store.generateId ms rnd) :=
                      folder_record (Store.generateId ms rnd) now name]>
                    (folders st)) (memos st),
         inr (folder_record (Store.generateId ms rnd) now name))
    | Some _ => (st, inl ConstraintError)
    end.
Proof.
  unfold Store.addFolder. cbn. unfold upd_folders, tbl_add, primKey.
  rewrite !get_insert_ne by done. unfold get at 1.
  rewrite lookup_singleton_eq. cbn.
  by destruct (folders st !! KStr (Store.generateId ms rnd)).
Qed.

Lemma run_getFolders (st : store) :
  run Store.getFolders st = (st, inr (tbl_toArray (folders st))).
Proof. reflexivity. Qed.

Lemma tbl_toArray_nil (t : table) : tbl_toArray t = [] ↔ t = ∅.
Proof.
  unfold tbl_toArray. split.
  - intros H%fmap_nil_inv. by apply map_to_list_empty_iff.
  - intros ->. by rewrite map_to_list_empty.
Qed.

(** X12. [getOrCreateUncategorizedFolder] returns a folder named '未分類'
    that is in the folder table afterwards.  When the table already has such
    a folder, one of them is returned and nothing is written (no second one
    is made); when it has none and the generated id is free, one is created
    with [addFolder] and returned, and nothing else changes. *)
Theorem getOrCreateUncategorizedFolder_spec (st : store) (e : env) :
  ((∃ f, f ∈ tbl_toArray (folders st) ∧ is_uncategorized f) →
   ∃ f, run (getOrCreateUncategorizedFolder e) st = (st, inr f) ∧
        f ∈ tbl_toArray (folders st) ∧ is_uncategorized f) ∧
  ((∀ f, f ∈ tbl_toArray (folders st) → ¬ is_uncategorized f) →
   folders st !! KStr (env_id e) = None →
   run (getOrCreateUncategorizedFolder e) st =
     (mkStore (<[KStr (env_id e) := env_folder e "未分類"]> (folders st))
              (memos st), inr (env_folder e "未分類")) ∧
   is_uncategorized (env_folder e "未分類")).
Proof.
  unfold getOrCreateUncategorizedFolder. split.
  - intros (f & Hin & Hname). rewrite run_bind, run_getFolders.
    destruct (List.find _ (tbl_toArray (folders st))) as [f0|] eqn:Hfind.
    + apply List.find_some in Hfind as [Hin0 Hn0].
      exists f0. split; [done|]. split; [by apply list_elem_of_In|].
      by apply bool_decide_eq_true in Hn0.
    + eapply List.find_none in Hfind; [|by apply list_elem_of_In].
      apply bool_decide_eq_false in Hfind. by destruct Hfind.
  - intros Hnone Hfree. rewrite run_bind, run_getFolders.
    destruct (List.find _ (tbl_toArray (folders st))) as [f0|] eqn:Hfind.
    + apply List.find_some in Hfind as [Hin0 Hn0].
      apply bool_decide_eq_true in Hn0.
      by destruct (Hnone f0 (proj2 (list_elem_of_In _ _) Hin0)).
    + rewrite run_addFolder. unfold env_id in Hfree. rewrite Hfree.
      split; [done|]. reflexivity.
Qed.

Lemma getOrCreateUncategorizedFolder_spec_witness :
  (∃ f, run (getOrCreateUncategorizedFolder (ex_env "1")) ex_store_u
          = (ex_store_u, inr f) ∧
        f ∈ tbl_toArray (folders ex_store_u) ∧ is_uncategorized f) ∧
  run (getOrCreateUncategorizedFolder (ex_env "1")) ex_store =
    (mkStore (<[KStr (env_id (ex_env "1")) :=
                  env_folder (ex_env "1") "未分類"]> (folders ex_store))
             (memos ex_store), inr (env_folder (ex_env "1") "未分類")).
Proof.
  destruct (getOrCreateUncategorizedFolder_spec ex_store_u (ex_env "1"))
    as [Hget _].
  destruct (getOrCreateUncategorizedFolder_spec ex_store (ex_env "1"))
    as [_ Hcreate].
  split.
  - apply Hget. exists ex_uncategorized. split; [|reflexivity].
    apply elem_of_tbl_toArray. exists (KStr "u1"). apply lookup_singleton_eq.
  - apply Hcreate; [|reflexivity].
    intros f [k Hk]%elem_of_tbl_toArray. cbn in Hk.
    apply lookup_singleton_Some in Hk as [_ <-].
    apply (bool_decide_eq_false_1 (get ex_folder "name" = JStr "未分類")).
    vm_compute. reflexivity.
Defined.

Lemma run_initializeData_fresh (st : store) (e1 e2 e3 e4 : env) :
  folders st = ∅ →
  NoDup [env_id e1; env_id e2; env_id e3; env_id e4] →
  run (initializeData e1 e2 e3 e4) st =
    (mkStore (<[KStr (env_id e4) := env_folder e4 "プライベート"]>
               (<[KStr (env_id e3) := env_folder e3 "仕事"]>
                  (<[KStr (env_id e2) := env_folder e2 "メモ"]>
                     (<[KStr (env_id e1) := env_folder e1 "未分類"]> ∅))))
             (memos st), inr tt).
Proof.
  intros Hempty Hnd. unfold initializeData.
  rewrite run_bind, run_getFolders.
  rewrite (proj2 (tbl_toArray_nil _) Hempty). cbv beta iota.
  change (length [] =? 0)%nat with true. cbv iota.
  apply NoDup_cons in Hnd as [H1 Hnd]. apply NoDup_cons in Hnd as [H2 Hnd].
  apply NoDup_cons in Hnd as [H3 _].
  assert (∀ a b : env, env_id a ≠ env_id b →
                       KStr (env_id a) ≠ KStr (env_id b)) as Hk
    by (intros a b Hne [= Heq]; done).
  rewrite run_bind, run_addFolder, Hempty, lookup_empty.
  cbv beta iota. fold (env_id e1). fold (env_folder e1 "未分類").
  rewrite run_bind, run_addFolder. cbn [folders memos]. fold (env_id e2).
  rewrite lookup_insert_ne, lookup_empty by (apply Hk; set_solver).
  cbv beta iota. fold (env_folder e2 "メモ").
  rewrite run_bind, run_addFolder. cbn [folders memos]. fold (env_id e3).
  rewrite !lookup_insert_ne, lookup_empty by (apply Hk; set_solver).
  cbv beta iota. fold (env_folder e3 "仕事").
  rewrite run_bind, run_addFolder. cbn [folders memos]. fold (env_id e4).
  rewrite !lookup_insert_ne, lookup_empty by (apply Hk; set_solver).
  reflexivity.
Qed.

(** X13. [initializeData] on a database that has a folder does nothing.
    On one without folders, with four generated ids that are pairwise
    different, it creates the four folders '未分類', 'メモ', '仕事' and
    'プライベート', each under its id, and leaves the memos as they are. *)
Theorem initializeData_spec (st : store) (e1 e2 e3 e4 : env) :
  (folders st ≠ ∅ → run (initializeData e1 e2 e3 e4) st = (st, inr tt)) ∧
  (folders st = ∅ →
   NoDup [env_id e1; env_id e2; env_id e3; env_id e4] →
   run (initializeData e1 e2 e3 e4) st =
     (mkStore (<[KStr (env_id e4) := env_folder e4 "プライベート"]>
                (<[KStr (env_id e3) := env_folder e3 "仕事"]>
                   (<[KStr (env_id e2) := env_folder e2 "メモ"]>
                      (<[KStr (env_id e1) := env_folder e1 "未分類"]> ∅))))
              (memos st), inr tt)).
Proof.
  unfold initializeData. split.
  - intros Hne. rewrite run_bind, run_getFolders.
    destruct (tbl_toArray (folders st)) eqn:Harr; [|done].
    by apply tbl_toArray_nil in Harr.
  - apply run_initializeData_fresh.
Qed.

Lemma ex_env_ids :
  NoDup [env_id (ex_env "1"); env_id (ex_env "2"); env_id (ex_env "3");
         env_id (ex_env "4")].
Proof. apply (bool_decide_unpack _). vm_compute. exact I. Qed.

Lemma initializeData_spec_witness :
  run (initializeData (ex_env "1") (ex_env "2") (ex_env "3") (ex_env "4"))
      ex_store = (ex_store, inr tt) ∧
  run (initializeData (ex_env "1") (ex_env "2") (ex_env "3") (ex_env "4"))
      ex_store_orphan =
    (mkStore (<[KStr (env_id (ex_env "4")) :=
                  env_folder (ex_env "4") "プライベート"]>
               (<[KStr (env_id (ex_env "3")) := env_folder (ex_env "3") "仕事"]>
                  (<[KStr (env_id (ex_env "2")) :=
                       env_folder (ex_env "2") "メモ"]>
                     (<[KStr (env_id (ex_env "1")) :=
                          env_folder (ex_env "1") "未分類"]> ∅))))
             (memos ex_store_orphan), inr tt).
Proof.
  destruct (initializeData_spec ex_store (ex_env "1") (ex_env "2")
              (ex_env "3") (ex_env "4")) as [Hskip _].
  destruct (initializeData_spec ex_store_orphan (ex_env "1") (ex_env "2")
              (ex_env "3") (ex_env "4")) as [_ Hinit].
  split.
  - apply Hskip. intros Heq.
    apply (f_equal (fun t : table => bool_decide (is_Some (t !! KStr "f1"))))
      in Heq.
    vm_compute in Heq. discriminate Heq.
  - apply Hinit; [reflexivity|exact ex_env_ids].
Defined.

(** X14. The reset of all data ([clearAllData], then [initializeData])
    ends, from any database, with exactly the four first folders (given four
    pairwise different generated ids) and no memo. *)
Theorem resetData_spec (st : store) (e1 e2 e3 e4 : env) :
  NoDup [env_id e1; env_id e2; env_id e3; env_id e4] →
  run (resetData e1 e2 e3 e4) st =
    (mkStore (<[KStr (env_id e4) := env_folder e4 "プライベート"]>
               (<[KStr (env_id e3) := env_folder e3 "仕事"]>
                  (<[KStr (env_id e2) := env_folder e2 "メモ"]>
                     (<[KStr (env_id e1) := env_folder e1 "未分類"]> ∅))))
             ∅, inr tt).
Proof.
  intros Hnd. unfold resetData. rewrite run_bind.
  assert (run Store.clearAllData st = (mkStore ∅ ∅, inr tt)) as ->
    by reflexivity.
  by rewrite run_initializeData_fresh.
Qed.

Lemma resetData_spec_witness :
  run (resetData (ex_env "1") (ex_env "2") (ex_env "3") (ex_env "4"))
      ex_store =
    (mkStore (<[KStr (env_id (ex_env "4")) :=
                  env_folder (ex_env "4") "プライベート"]>
               (<[KStr (env_id (ex_env "3")) := env_folder (ex_env "3") "仕事"]>
                  (<[KStr (env_id (ex_env "2")) :=
                       env_folder (ex_env "2") "メモ"]>
                     (<[KStr (env_id (ex_env "1")) :=
                          env_folder (ex_env "1") "未分類"]> ∅))))
             ∅, inr tt).
Proof. apply resetData_spec. exact ex_env_ids. Defined.

(** ** Start-up: the migration from localStorage *)

Section PutEach.

(** One of the two tables of the database, as [upd] sees it. *)
Variable upd : (table → result table) → action unit.
Variable tbl_of : store → table.
Variable with_tbl : table → store → store.
Hypothesis upd_eq : ∀ f s,
  upd f s = match f (tbl_of s) with
            | inl e => (s, inl e)
            | inr t => (with_tbl t s, inr tt)
            end.
Hypothesis tbl_of_with : ∀ t s, tbl_of (with_tbl t s) = t.
Hypothesis with_with : ∀ t t' s, with_tbl t (with_tbl t' s) = with_tbl t s.
Hypothesis with_same : ∀ s, with_tbl (tbl_of s) s = s.

Lemma run_put_each (os : list obj) : ∀ s,
  insertable os →
  ∃ t', run (put_each upd (Some <$> os)) s = (with_tbl t' s, inr tt) ∧
        (∀ o k, o ∈ os → primKey o = Some k → t' !! k = Some o) ∧
        (∀ k, (∀ o, o ∈ os → primKey o ≠ Some k) → t' !! k = tbl_of s !! k).
Proof.
  induction os as [|o os IH]; intros s [Hkeys Hnd].
  - exists (tbl_of s). cbn. rewrite with_same. repeat split; try done.
    intros o k Ho. by apply elem_of_nil in Ho.
  - apply Forall_cons in Hkeys as [[k Hk] Hkeys].
    rewrite fmap_cons in Hnd. apply NoDup_cons in Hnd as [Hnotin Hnd].
    assert (∀ o', o' ∈ os → primKey o' ≠ Some k) as Hother.
    { intros o' Ho' Heq. apply Hnotin. rewrite Hk, <- Heq.
      by apply list_elem_of_fmap_2. }
    destruct (IH (with_tbl (<[k := o]> (tbl_of s)) s)) as (t' & Hrun & Hin & Hout);
      [done|].
    exists t'. split; [|split].
    + cbn. rewrite upd_eq. unfold tbl_put. rewrite Hk.
      cbn in Hrun. rewrite Hrun. by rewrite with_with.
    + intros o' k' [->|Ho']%elem_of_cons Hk'.
      * assert (k' = k) as -> by congruence.
        rewrite Hout, tbl_of_with by done. apply lookup_insert_eq.
      * by apply Hin.
    + intros k' Hno. rewrite Hout, tbl_of_with.
      * apply lookup_insert_ne. intros ->. apply (Hno o); [left|done].
      * intros o' Ho'. apply Hno. by right.
Qed.

End PutEach.

Lemma run_put_each_folders (os : list obj) (s : store) :
  insertable os →
  ∃ t', run (put_each upd_folders (Some <$> os)) s
          = (mkStore t' (memos s), inr tt) ∧
        (∀ o k, o ∈ os → primKey o = Some k → t' !! k = Some o) ∧
        (∀ k, (∀ o, o ∈ os → primKey o ≠ Some k) → t' !! k = folders s !! k).
Proof.
  apply (run_put_each upd_folders folders (fun t s => mkStore t (memos s))).
  - intros f [fs ms]. unfold upd_folders. cbn. by destruct (f fs).
  - done.
  - done.
  - by intros [].
Qed.

Lemma run_put_each_memos (os : list obj) (s : store) :
  insertable os →
  ∃ t', run (put_each upd_memos (Some <$> os)) s
          = (mkStore (folders s) t', inr tt) ∧
        (∀ o k, o ∈ os → primKey o = Some k → t' !! k = Some o) ∧
        (∀ k, (∀ o, o ∈ os → primKey o ≠ Some k) → t' !! k = memos s !! k).
Proof.
  apply (run_put_each upd_memos memos (fun t s => mkStore (folders s) t)).
  - intros f [fs ms]. unfold upd_memos. cbn. by destruct (f ms).
  - done.
  - done.
  - by intros [].
Qed.

Section MigrationProperties.

Variable JSON_parse : string → result (list (option obj)).

Local Abbreviation migrate := (migrateFromLocalStorage JSON_parse).
Local Abbreviation item_records := (item_records JSON_parse).

Lemma run_migrate_item_folders (i : option string) (os : list obj) (s : store) :
  item_records i os → insertable os →
  ∃ t', run (migrate_item JSON_parse upd_folders i) s
          = (mkStore t' (memos s), inr tt) ∧
        (∀ o k, o ∈ os → primKey o = Some k → t' !! k = Some o) ∧
        (∀ k, (∀ o, o ∈ os → primKey o ≠ Some k) → t' !! k = folders s !! k).
Proof.
  unfold item_records, migrate_item. destruct (item_truthy i).
  - intros -> Hos. by apply run_put_each_folders.
  - intros -> _. exists (folders s). destruct s. repeat split; try done.
    intros o k Ho. by apply elem_of_nil in Ho.
Qed.

Lemma run_migrate_item_memos (i : option string) (os : list obj) (s : store) :
  item_records i os → insertable os →
  ∃ t', run (migrate_item JSON_parse upd_memos i) s
          = (mkStore (folders s) t', inr tt) ∧
        (∀ o k, o ∈ os → primKey o = Some k → t' !! k = Some o) ∧
        (∀ k, (∀ o, o ∈ os → primKey o ≠ Some k) → t' !! k = memos s !! k).
Proof.
  unfold item_records, migrate_item. destruct (item_truthy i).
  - intros -> Hos. by apply run_put_each_memos.
  - intros -> _. exists (memos s). destruct s. repeat split; try done.
    intros o k Ho. by apply elem_of_nil in Ho.
Qed.

(** X15. [migrateFromLocalStorage].  With neither item in [localStorage]
    (absent or empty) nothing happens.  When the items that are there parse
    to arrays of records with valid, pairwise different ids, every such
    record ends in its table under its id (over a record that was there
    under that id), the records under other ids stay, and both items are
    removed, so that a second run does nothing.  When the folders item does
    not parse, the database and [localStorage] are left as they were. *)
Theorem migrateFromLocalStorage_spec (ls : localStorage) (st : store) :
  (item_truthy (ayumemo_folders ls) = false →
   item_truthy (ayumemo_memos ls) = false →
   migrate ls st = (st, ls)) ∧
  (∀ fs ms,
     item_truthy (ayumemo_folders ls) || item_truthy (ayumemo_memos ls)
       = true →
     item_records (ayumemo_folders ls) fs → insertable fs →
     item_records (ayumemo_memos ls) ms → insertable ms →
     ∃ st',
       migrate ls st = (st', mkLocalStorage None None) ∧
       migrate (mkLocalStorage None None) st'
         = (st', mkLocalStorage None None) ∧
       (∀ o k, o ∈ fs → primKey o = Some k → folders st' !! k = Some o) ∧
       (∀ k, (∀ o, o ∈ fs → primKey o ≠ Some k) →
             folders st' !! k = folders st !! k) ∧
       (∀ o k, o ∈ ms → primKey o = Some k → memos st' !! k = Some o) ∧
       (∀ k, (∀ o, o ∈ ms → primKey o ≠ Some k) →
             memos st' !! k = memos st !! k)) ∧
  (∀ e, item_truthy (ayumemo_folders ls) = true →
        JSON_parse (default "" (ayumemo_folders ls)) = inl e →
        migrate ls st = (st, ls)).
Proof.
  split; [|split].
  - intros Hf Hm. unfold migrateFromLocalStorage. by rewrite Hf, Hm.
  - intros fs ms Hsome Hfs Hifs Hms Hims.
    unfold migrateFromLocalStorage, migrate_try. rewrite Hsome, run_bind.
    destruct (run_migrate_item_folders _ fs st Hfs Hifs)
      as (tf & -> & Hfin & Hfout).
    destruct (run_migrate_item_memos _ ms (mkStore tf (memos st)) Hms Hims)
      as (tm & -> & Hmin & Hmout).
    exists (mkStore tf tm). cbn. repeat split; done.
  - intros e Hf Hparse. unfold migrateFromLocalStorage, migrate_try.
    rewrite Hf. cbn [orb]. rewrite run_bind. unfold migrate_item.
    by rewrite Hf, Hparse.
Qed.

End MigrationProperties.

Lemma migrateFromLocalStorage_spec_witness :
  migrateFromLocalStorage ex_parse (mkLocalStorage None (Some ""))
    ex_store = (ex_store, mkLocalStorage None (Some "")) ∧
  (∃ st',
     migrateFromLocalStorage ex_parse
       (mkLocalStorage (Some "[folder f1]") (Some "[memo m1]")) (mkStore ∅ ∅)
       = (st', mkLocalStorage None None) ∧
     folders st' !! KStr "f1" = Some ex_folder ∧
     memos st' !! KStr "m1" = Some ex_memo) ∧
  migrateFromLocalStorage ex_parse
    (mkLocalStorage (Some "{broken") (Some "[memo m1]")) ex_store
    = (ex_store, mkLocalStorage (Some "{broken") (Some "[memo m1]")).
Proof.
  split; [|split].
  - apply (migrateFromLocalStorage_spec ex_parse
             (mkLocalStorage None (Some "")) ex_store); reflexivity.
  - destruct (migrateFromLocalStorage_spec ex_parse
                (mkLocalStorage (Some "[folder f1]") (Some "[memo m1]"))
                (mkStore ∅ ∅)) as (_ & Hok & _).
    destruct (Hok [ex_folder] [ex_memo]) as (st' & Hrun & _ & Hf & _ & Hm & _).
    + reflexivity.
    + reflexivity.
    + split; [repeat constructor; by eexists|].
      cbn. repeat constructor. apply not_elem_of_nil.
    + reflexivity.
    + split; [repeat constructor; by eexists|].
      cbn. repeat constructor. apply not_elem_of_nil.
    + exists st'. split; [exact Hrun|]. split.
      * apply Hf; [apply list_elem_of_here|reflexivity].
      * apply Hm; [apply list_elem_of_here|reflexivity].
  - apply (migrateFromLocalStorage_spec ex_parse
             (mkLocalStorage (Some "{broken") (Some "[memo m1]")) ex_store)
      with (e := TypeError); reflexivity.
Defined.

(** ** Moving a memo to another folder *)

Section MoveMemo.

Variable Date_parse : string → option Z.

(** X22. After [updateMemo(id, { folderId: G })] on a stored memo, with [G]
    a truthy valid key, [getMemosByFolder(G)] lists the memo and
    [getMemosByFolder] of any other folder does not. *)
Theorem updateMemo_moves_memo (st : store) (now now' : string) (k G : key)
    (r : obj) :
  store_wf st → memos st !! k = Some r → truthy (of_key G) = true →
  ∃ st' r',
    run (Store.updateMemo now now' (of_key k) {["folderId" := of_key G]}) st
      = (st', inr (Some r')) ∧
    get r' "id" = of_key k ∧
    (∃ inG, run (Store.getMemosByFolder Date_parse (of_key G)) st'
              = (st', inr inG) ∧ r' ∈ inG) ∧
    (∀ F, F ≠ G →
       ∃ inF, run (Store.getMemosByFolder Date_parse (of_key F)) st'
                = (st', inr inF) ∧
              ∀ m, m ∈ inF → get m "id" ≠ of_key k).
Proof.
  intros Hwf Hr HG.
  set (updates := ({["folderId" := of_key G]} : obj)).
  set (r' := modify_obj (<["updatedAt" := JStr now]> updates) r).
  assert (get updates "folderId" = of_key G) as Hfid
    by (unfold get, updates; by rewrite lookup_singleton_eq).
  assert (get r' "folderId" = of_key G) as Hr'G.
  { unfold r'. rewrite get_modify_obj, lookup_insert_ne by done.
    unfold updates. by rewrite lookup_singleton_eq. }
  assert (primKey r' = Some k) as Hr'k.
  { unfold primKey, r'. rewrite get_modify_obj, lookup_insert_ne by done.
    unfold updates. rewrite lookup_singleton_ne by done.
    by apply Hwf. }
  destruct Hwf as [Hwf Hwm].
  destruct (touch_total (folders st) (of_key G) now' Hwf) as [fs' Hfs'];
    [rewrite to_key_of_key; by eexists|].
  assert (run (Store.updateMemo now now' (of_key k) updates) st
          = (mkStore fs' (<[k := r']> (memos st)), inr (Some r'))) as Hrun.
  { rewrite run_updateMemo, tbl_update_no_id_total, Hr;
      [|done|by rewrite lookup_insert_ne]. fold r'.
    rewrite Hfid, HG, Hfs'. unfold tbl_get.
    by rewrite to_key_of_key, lookup_insert_eq. }
  exists (mkStore fs' (<[k := r']> (memos st))), r'.
  split; [done|]. split; [by apply to_key_Some|]. split.
  - eexists. split; [apply run_getMemosByFolder|].
    rewrite js_sort_perm. apply list_elem_of_filter. split.
    + unfold field_is. rewrite Hr'G. apply to_key_of_key.
    + apply elem_of_tbl_toArray. exists k. apply lookup_insert_eq.
  - intros F HF. eexists. split; [apply run_getMemosByFolder|].
    intros m. rewrite js_sort_perm.
    intros [HmF [k' Hk']%elem_of_tbl_toArray]%list_elem_of_filter Hid.
    cbn in Hk'. apply lookup_insert_Some in Hk' as [[-> <-]|[Hne Hk']].
    + unfold field_is in HmF. rewrite Hr'G, to_key_of_key in HmF. congruence.
    + apply Hwm in Hk'. unfold primKey in Hk'.
      rewrite Hid, to_key_of_key in Hk'. congruence.
Qed.

End MoveMemo.

Lemma updateMemo_moves_memo_witness :
  ∃ st' r',
    run (Store.updateMemo "2025-01-01T00:00:00.000Z"
           "2025-01-01T00:00:00.001Z" (of_key (KStr "m1"))
           {["folderId" := of_key (KStr "f2")]}) ex_store3
      = (st', inr (Some r')) ∧
    get r' "id" = of_key (KStr "m1") ∧
    (∃ inG, run (Store.getMemosByFolder iso_parse (of_key (KStr "f2"))) st'
              = (st', inr inG) ∧ r' ∈ inG) ∧
    (∀ F, F ≠ KStr "f2" →
       ∃ inF, run (Store.getMemosByFolder iso_parse (of_key F)) st'
                = (st', inr inF) ∧
              ∀ m, m ∈ inF → get m "id" ≠ of_key (KStr "m1")).
Proof.
  apply (updateMemo_moves_memo iso_parse ex_store3
           "2025-01-01T00:00:00.000Z" "2025-01-01T00:00:00.001Z"
           (KStr "m1") (KStr "f2") ex_memo).
  - split; intros k r Hk; apply (bool_decide_unpack _);
      revert Hk; unfold ex_store3; cbn [folders memos].
    + intros [<- <-]%lookup_singleton_Some. vm_compute. exact I.
    + rewrite !lookup_insert_Some, lookup_singleton_Some.
      intros [[<- <-]|[_ [[<- <-]|[_ [<- <-]]]]]; vm_compute; exact I.
  - reflexivity.
  - reflexivity.
Defined.

(** ** The order of the folder list *)

Section SortByDate.

Context {A : Type} (time : A → option Z).

Local Abbreviation by_date_desc := (by_date_desc time).
Local Abbreviation later_first := (later_first time).

Lemma sort_insert_by_date (x : A) (l : list A) :
  is_Some (time x) → Forall (fun y => is_Some (time y)) l →
  StronglySorted later_first l →
  StronglySorted later_first (sort_insert by_date_desc x l).
Proof.
  intros [tx Hx] Hl Hs. induction Hs as [|y l Hs IH Hy]; simpl.
  - repeat constructor.
  - apply Forall_cons in Hl as [[ty Hty] Hl].
    unfold comes_after, by_date_desc. rewrite Hty, Hx.
    destruct (Z.ltb_spec 0 (ty - tx)).
    + constructor; [by apply IH|].
      rewrite sort_insert_perm. constructor; [|done].
      exists ty, tx. repeat split; [done..|lia].
    + constructor; [by constructor|]. constructor.
      * exists tx, ty. repeat split; [done..|lia].
      * eapply Forall_impl; [exact Hy|].
        intros z (ty' & tz & Hy' & Hz & Hle).
        exists tx, tz. repeat split; [done..|]. simplify_eq. lia.
Qed.

Lemma js_sort_by_date (l : list A) :
  Forall (fun y => is_Some (time y)) l →
  StronglySorted later_first (js_sort by_date_desc l).
Proof.
  induction 1 as [|x l Hx Hl IH]; simpl; [constructor|].
  apply sort_insert_by_date; [done| |done]. by rewrite js_sort_perm.
Qed.

End SortByDate.

Section FolderOrderProperties.

Variable Date_parse : string → option Z.


End FolderOrderProperties.


(** ** Saving from the editor *)

Lemma run_getOrCreate (st : store) (e : env) :
  store_wf st →
  (∃ u, u ∈ tbl_toArray (folders st) ∧ is_uncategorized u) ∨
  folders st !! KStr (env_id e) = None →
  ∃ st1 u ku,
    run (getOrCreateUncategorizedFolder e) st = (st1, inr u) ∧
    store_wf st1 ∧ memos st1 = memos st ∧
    folders st1 !! ku = Some u ∧ get u "id" = of_key ku ∧
    is_uncategorized u ∧
    (∀ k, is_Some (folders st1 !! k) →
          is_Some (folders st !! k) ∨ k = KStr (env_id e)).
Proof.
  intros Hwf Hcase. unfold getOrCreateUncategorizedFolder.
  rewrite run_bind, run_getFolders.
  destruct (List.find _ (tbl_toArray (folders st))) as [u|] eqn:Hfind.
  - apply List.find_some in Hfind as [Hin Hname].
    apply list_elem_of_In, elem_of_tbl_toArray in Hin as [ku Hku].
    apply bool_decide_eq_true in Hname.
    exists st, u, ku. split; [done|]. split; [done|]. split; [done|].
    split; [done|]. split; [|split; [done|by left]].
    apply to_key_Some. by apply (proj1 Hwf).
  - destruct Hcase as [(u & Hin & Hname)|Hfree].
    { eapply List.find_none in Hfind; [|by apply list_elem_of_In].
      apply bool_decide_eq_false in Hfind. by destruct Hfind. }
    rewrite run_addFolder. unfold env_id in Hfree. rewrite Hfree.
    fold (env_id e). fold (env_folder e "未分類").
    exists (mkStore (<[KStr (env_id e) := env_folder e "未分類"]> (folders st))
                    (memos st)), (env_folder e "未分類"), (KStr (env_id e)).
    split; [done|]. split.
    { destruct Hwf as [Hf Hm]. split; [|done]. cbn.
      by apply table_wf_insert. }
    split; [done|]. cbn. split; [apply lookup_insert_eq|].
    split; [done|]. split; [done|].
    intros k. rewrite lookup_insert. case_decide; [by right|by left].
Qed.

Lemma run_addMemo_existing (st : store) ms rnd now now' (memo : obj) k fk f :
  store_wf st → folders st !! fk = Some f →
  get memo "folderId" = of_key fk →
  primKey (Store.newMemo ms rnd now memo) = Some k →
  memos st !! k = None →
  run (Store.addMemo ms rnd now now' memo) st =
    (mkStore (<[fk := <["updatedAt" := JStr now']> f]> (folders st))
             (<[k := Store.newMemo ms rnd now memo]> (memos st)),
     inr (Store.newMemo ms rnd now memo)).
Proof.
  intros [Hwf _] Hf Hfid Hk Hfree.
  rewrite (run_addMemo_added st ms rnd now now' memo k Hk Hfree).
  by rewrite Hfid, (touch_existing (folders st) fk f).
Qed.

Lemma newMemo_fields ms rnd now (target : jsval) (title content : string) :
  let nm := Store.newMemo ms rnd now (memo_fields target title content) in
  get nm "id" = JStr (Store.generateId ms rnd) ∧
  get nm "folderId" = target ∧
  get nm "title" = JStr title ∧ get nm "content" = JStr content.
Proof.
  intros nm. unfold nm. split.
  - by rewrite newMemo_id.
  - unfold get. rewrite !newMemo_other by done. done.
Qed.

Section SaveProperties.

Variable trim : string → string.

(** X24. [saveCurrentMemo].  With no title and no text (after trimming)
    nothing is written.  Otherwise, for a new memo, the memo is stored under
    a generated id with the trimmed title and the text, and its [folderId]
    is the id of a folder that is in the database afterwards: the folder
    chosen in the form when there is one, else a folder named '未分類',
    which is made when the database has none. *)
Theorem saveCurrentMemo_spec (st : store) (ef em : env) (now' : string)
    (f : form) :
  (trim (memoTitle f) = "" → trim (memoText f) = "" →
   run (saveCurrentMemo trim ef em now' f) st = (st, inr (currentMemoId f))) ∧
  (store_wf st →
   trim (memoTitle f) ≠ "" ∨ trim (memoText f) ≠ "" →
   truthy (currentMemoId f) = false →
   memos st !! KStr (env_id em) = None →
   (folderSelect f ≠ "" ∧ is_Some (folders st !! KStr (folderSelect f))) ∨
   (folderSelect f = "" ∧
    ((∃ u, u ∈ tbl_toArray (folders st) ∧ is_uncategorized u) ∨
     folders st !! KStr (env_id ef) = None)) →
   ∃ st' m fk fo,
     run (saveCurrentMemo trim ef em now' f) st
       = (st', inr (JStr (env_id em))) ∧
     memos st' = <[KStr (env_id em) := m]> (memos st) ∧
     get m "title" = JStr (trim (memoTitle f)) ∧
     get m "content" = JStr (memoText f) ∧
     get m "folderId" = of_key fk ∧
     folders st' !! fk = Some fo ∧
     (folderSelect f ≠ "" → fk = KStr (folderSelect f)) ∧
     (folderSelect f = "" → is_uncategorized fo)).
Proof.
  split.
  - intros Ht Hc. unfold saveCurrentMemo. by rewrite Ht, Hc.
  - intros Hwf Htext Hnew Hfree Hfolder. unfold saveCurrentMemo.
    assert (String.eqb (trim (memoTitle f)) ""
            && String.eqb (trim (memoText f)) "" = false) as ->.
    { apply andb_false_iff.
      destruct Htext as [H|H]; [left|right]; by apply String.eqb_neq. }
    rewrite Hnew.
    assert (∃ st1 target fk fo,
      run (if String.eqb (folderSelect f) ""
           then uncategorized ← getOrCreateUncategorizedFolder ef;
                mret (get uncategorized "id")
           else mret (JStr (folderSelect f))) st = (st1, inr target) ∧
      store_wf st1 ∧ memos st1 = memos st ∧ target = of_key fk ∧
      folders st1 !! fk = Some fo ∧
      (folderSelect f ≠ "" → fk = KStr (folderSelect f)) ∧
      (folderSelect f = "" → is_uncategorized fo))
      as (st1 & target & fk & fo & Hrun1 & Hwf1 & Hm1 & -> & Hfo & Hsel & Hunc).
    { destruct Hfolder as [[Hne [fo Hfo]]|[Hemp Hcase]].
      - apply String.eqb_neq in Hne as Hneb. rewrite Hneb.
        exists st, (JStr (folderSelect f)), (KStr (folderSelect f)), fo.
        split; [done|]. split; [done|]. split; [done|]. split; [done|].
        split; [done|]. split; [done|]. intros Hemp. by destruct Hne.
      - rewrite Hemp. cbn [String.eqb].
        destruct (run_getOrCreate st ef Hwf Hcase)
          as (st1 & u & ku & Hrun & Hwf1 & Hm1 & Hu & Hid & Hname & _).
        exists st1, (get u "id"), ku, u. rewrite run_bind, Hrun.
        split; [done|]. split; [done|]. split; [done|]. split; [done|].
        split; [done|]. split; [|done]. intros Hne. by destruct Hne. }
    rewrite run_bind, Hrun1.
    destruct (newMemo_fields (e_ms em) (e_rnd em) (e_now em) (of_key fk)
                (trim (memoTitle f)) (memoText f)) as (Hid & Hfid & Ht & Hc).
    rewrite run_bind.
    rewrite (run_addMemo_existing st1 _ _ _ _
               (memo_fields (of_key fk) (trim (memoTitle f)) (memoText f))
               (KStr (env_id em)) fk fo);
      try done.
    + do 4 eexists. split; [by rewrite Hid|]. cbn. rewrite Hm1.
      split; [done|]. split; [done|]. split; [done|]. split; [done|].
      split; [apply lookup_insert_eq|]. split; [done|].
      intros Hemp. specialize (Hunc Hemp). unfold is_uncategorized in *.
      by rewrite get_insert_ne.
    + by rewrite Hm1.
Qed.

End SaveProperties.

Lemma generateId_truthy (ms rnd : string) :
  truthy (JStr (Store.generateId ms rnd)) = true.
Proof.
  unfold Store.generateId. simpl. destruct ms; reflexivity.
Qed.

Lemma run_getOrCreate_cases (st : store) (e : env) :
  store_wf st →
  (∃ err, run (getOrCreateUncategorizedFolder e) st = (st, inl err)) ∨
  (∃ st1 u ku,
     run (getOrCreateUncategorizedFolder e) st = (st1, inr u) ∧
     folders st1 !! ku = Some u ∧ get u "id" = of_key ku ∧
     (is_Some (folders st !! ku) ∨ ku = KStr (env_id e))).
Proof.
  intros Hwf. unfold getOrCreateUncategorizedFolder.
  rewrite run_bind, run_getFolders.
  destruct (List.find _ (tbl_toArray (folders st))) as [u|] eqn:Hfind.
  - apply List.find_some in Hfind as [Hin _].
    apply list_elem_of_In, elem_of_tbl_toArray in Hin as [ku Hku].
    right. exists st, u, ku. split; [done|]. split; [done|].
    split; [|by left]. apply to_key_Some. by apply (proj1 Hwf).
  - rewrite run_addFolder.
    destruct (folders st !! KStr (Store.generateId (e_ms e) (e_rnd e)))
      eqn:Hk; [left; by eexists|].
    right. do 3 eexists. split; [reflexivity|]. cbn.
    split; [apply lookup_insert_eq|]. split; [done|]. by right.
Qed.

Section CloseEditor.

Variable trim : string → string.

(** X25. [closeEditor] and [saveCurrentMemo] write the same: on a database
    whose folders have truthy ids (not the empty string, not 0), for the same
    form and the same readings of the environment, they leave the same
    database and are rejected in the same cases. *)
Theorem closeEditor_saves_like_saveCurrentMemo (st : store) (ef em : env)
    (now' : string) (f : form) :
  store_wf st →
  (∀ k, is_Some (folders st !! k) → truthy (of_key k) = true) →
  (run (closeEditor trim ef em now' f) st).1
    = (run (saveCurrentMemo trim ef em now' f) st).1 ∧
  (∀ err, (run (closeEditor trim ef em now' f) st).2 = inl err ↔
          (run (saveCurrentMemo trim ef em now' f) st).2 = inl err).
Proof.
  intros Hwf Hids. unfold closeEditor, saveCurrentMemo.
  destruct (String.eqb (trim (memoTitle f)) ""
            && String.eqb (trim (memoText f)) "") eqn:Hblank.
  - cbn [negb]. rewrite andb_false_r, run_bind. cbn.
    rewrite andb_false_r. cbn. split; [done|].
    intros err. split; intros H; discriminate H.
  - cbn [negb]. rewrite andb_true_r, !run_bind.
    assert (∀ (target : jsval) (s : store), truthy target = true →
      let c := run (if truthy target && true
           then if truthy (currentMemoId f)
                then Store.updateMemo (e_now em) now' (currentMemoId f)
                       (memo_fields target (trim (memoTitle f)) (memoText f));;
                     mret tt
                else Store.addMemo (e_ms em) (e_rnd em) (e_now em) now'
                       (memo_fields target (trim (memoTitle f)) (memoText f));;
                     mret tt
           else mret tt) s in
      let v := run (if truthy (currentMemoId f)
           then Store.updateMemo (e_now em) now' (currentMemoId f)
                  (memo_fields target (trim (memoTitle f)) (memoText f));;
                mret (currentMemoId f)
           else newMemo ← Store.addMemo (e_ms em) (e_rnd em) (e_now em) now'
                  (memo_fields target (trim (memoTitle f)) (memoText f));
                mret (get newMemo "id")) s in
      c.1 = v.1 ∧ ∀ err, c.2 = inl err ↔ v.2 = inl err) as Hsame.
    { intros target s Htr. rewrite Htr. cbn [andb].
      destruct (truthy (currentMemoId f)); rewrite !run_bind.
      - destruct (run (Store.updateMemo _ _ _ _) s) as [s' [e|r]]; cbn;
          (split; [done|]); intros err; split; intros H;
          first [discriminate H|by injection H as ->].
      - destruct (run (Store.addMemo _ _ _ _ _) s) as [s' [e|r]]; cbn;
          (split; [done|]); intros err; split; intros H;
          first [discriminate H|by injection H as ->]. }
    destruct (String.eqb_spec (folderSelect f) "") as [Hemp|Hne].
    + rewrite !run_bind.
      destruct (run_getOrCreate_cases st ef Hwf)
        as [[e ->]|(st1 & u & ku & -> & Hu & Hid & Hku)].
      * cbn. split; [done|].
        intros err. split; intros H; by injection H as ->.
      * cbn [run mret prog_mret]. apply Hsame.
        rewrite Hid. destruct Hku as [Hold| ->]; [by apply Hids|].
        apply generateId_truthy.
    + cbn [run mret prog_mret]. apply Hsame. simpl.
      by apply negb_true_iff, String.eqb_neq.
Qed.

End CloseEditor.

Lemma saveCurrentMemo_spec_witness :
  run (saveCurrentMemo ex_trim (ex_env "1") (ex_env "2")
         "2025-01-01T00:00:00.001Z" (mkForm "f1" "  " "" JNull)) ex_store
    = (ex_store, inr JNull) ∧
  ∃ st' m fk fo,
    run (saveCurrentMemo ex_trim (ex_env "1") (ex_env "2")
           "2025-01-01T00:00:00.001Z" ex_form_new) ex_store
      = (st', inr (JStr (env_id (ex_env "2")))) ∧
    memos st' = <[KStr (env_id (ex_env "2")) := m]> (memos ex_store) ∧
    get m "title" = JStr "Plan" ∧ get m "content" = JStr "buy milk" ∧
    get m "folderId" = of_key fk ∧
    folders st' !! fk = Some fo ∧ is_uncategorized fo.
Proof.
  destruct (saveCurrentMemo_spec ex_trim ex_store (ex_env "1") (ex_env "2")
              "2025-01-01T00:00:00.001Z" (mkForm "f1" "  " "" JNull))
    as [Hblank _].
  destruct (saveCurrentMemo_spec ex_trim ex_store (ex_env "1") (ex_env "2")
              "2025-01-01T00:00:00.001Z" ex_form_new) as [_ Hsave].
  split; [apply Hblank; reflexivity|].
  destruct Hsave as (st' & m & fk & fo & H1 & H2 & H3 & H4 & H5 & H6 & _ & H8).
  - exact ex_store_wf.
  - left. discriminate.
  - reflexivity.
  - reflexivity.
  - right. split; [reflexivity|]. right. reflexivity.
  - exists st', m, fk, fo. repeat split; try assumption. by apply H8.
Defined.

Lemma closeEditor_saves_like_saveCurrentMemo_witness :
  (run (closeEditor ex_trim (ex_env "1") (ex_env "2")
          "2025-01-01T00:00:00.001Z" ex_form_new) ex_store).1
  = (run (saveCurrentMemo ex_trim (ex_env "1") (ex_env "2")
            "2025-01-01T00:00:00.001Z" ex_form_new) ex_store).1.
Proof.
  apply (closeEditor_saves_like_saveCurrentMemo ex_trim ex_store
           (ex_env "1") (ex_env "2") "2025-01-01T00:00:00.001Z" ex_form_new
           ex_store_wf).
  intros k [fo Hk]. cbn in Hk.
  by apply lookup_singleton_Some in Hk as [<- _].
Defined.

(** ** Start-up as a whole *)

Section InitProperties.

Variable JSON_parse : string → result (list (option obj)).

Lemma run_initializeData_nonempty (st : store) (e1 e2 e3 e4 : env) :
  folders st ≠ ∅ → run (initializeData e1 e2 e3 e4) st = (st, inr tt).
Proof.
  intros Hne. unfold initializeData. rewrite run_bind, run_getFolders.
  destruct (tbl_toArray (folders st)) eqn:Harr; [|done].
  by apply tbl_toArray_nil in Harr.
Qed.

Lemma migrate_nothing (ls : localStorage) (st : store) :
  item_truthy (ayumemo_folders ls) = false →
  item_truthy (ayumemo_memos ls) = false →
  migrateFromLocalStorage JSON_parse ls st = (st, ls).
Proof. intros Hf Hm. unfold migrateFromLocalStorage. by rewrite Hf, Hm. Qed.


End InitProperties.


(** ** The folder list *)

Lemma size_filter_split (P : obj → Prop) `{!∀ o, Decision (P o)}
    (t : table) :
  size t = (size (filter (fun kr => ¬ P kr.2) t)
            + length (filter P (tbl_toArray t)))%nat.
Proof.
  induction t as [|k o t Hk _ IH] using map_first_key_ind.
  - by rewrite map_filter_empty, map_size_empty.
  - rewrite map_size_insert_None by done.
    rewrite (tbl_toArray_insert t k o Hk), filter_cons.
    destruct (decide (P o)) as [Hyes|Hno].
    + rewrite map_filter_insert_False by (cbn; tauto).
      rewrite delete_id by done. simpl. lia.
    + rewrite map_filter_insert_True by done.
      rewrite map_size_insert_None
        by (apply map_lookup_filter_None; by left).
      lia.
Qed.

Lemma find_by_id (t : table) (k : key) :
  table_wf t →
  List.find (fun f => bool_decide (get f "id" = of_key k)) (tbl_toArray t)
  = t !! k.
Proof.
  intros Hwf.
  destruct (List.find _ (tbl_toArray t)) as [f|] eqn:Hfind.
  - apply find_some in Hfind as [Hin Hid].
    apply list_elem_of_In, elem_of_tbl_toArray in Hin as [k' Hk'].
    apply bool_decide_eq_true_1 in Hid.
    pose proof (Hwf _ _ Hk') as Hp. unfold primKey in Hp.
    rewrite Hid, to_key_of_key in Hp. by injection Hp as ->.
  - destruct (t !! k) as [f|] eqn:Hk; [|done].
    assert (In f (tbl_toArray t)) as Hin.
    { apply list_elem_of_In, elem_of_tbl_toArray. by exists k. }
    apply (find_none _ _ Hfind) in Hin.
    apply bool_decide_eq_false_1 in Hin. destruct Hin.
    by apply to_key_Some, Hwf.
Qed.

Section FolderListProperties.

Variable Date_parse : string → option Z.
Variable trim : string → string.

(** X28. The global [deleteFolder(F)] announces what its confirmation
    does: for a folder that is there, the dialog names that folder and the
    number of its memos, and the confirmed deletion removes the folder and
    exactly that many memos.  For an id of no folder the call is rejected
    before any dialog, and nothing is removed. *)
Theorem deleteFolder_announces (st : store) (F : key) :
  store_wf st →
  (∀ f, folders st !! F = Some f →
     ∃ n confirmed st',
       run (deleteFolder Date_parse (of_key F)) st
         = (st, inr (get f "name", n, confirmed)) ∧
       run confirmed st = (st', inr tt) ∧
       folders st' = delete F (folders st) ∧
       size (memos st) = (size (memos st') + n)%nat ∧
       memos st' ⊆ memos st) ∧
  (folders st !! F = None →
   run (deleteFolder Date_parse (of_key F)) st = (st, inl TypeError)).
Proof.
  intros [Hwf _]. unfold deleteFolder.
  rewrite run_bind, run_getFolders. cbv beta iota.
  rewrite find_by_id by done.
  rewrite run_bind, run_getMemosByFolder. cbv beta iota. split.
  - intros f ->. eexists _, _, _. split; [done|].
    split; [apply run_deleteFolder|]. cbn. split; [done|].
    rewrite js_sort_perm. split.
    + apply (size_filter_split (field_is "folderId" F)).
    + apply map_filter_subseteq.
  - by intros ->.
Qed.

(** A card can be made exactly of a memo whose title and content are
    strings or falsy. *)
Lemma renderMemoCard_typed (m : obj) :
  match renderMemoCard trim m with
  | inr _ => memo_typed m
  | inl e => e = TypeError ∧ ¬ memo_typed m
  end.
Proof.
  unfold renderMemoCard, memo_typed, js_or.
  destruct (get m "content") as [| |[]|z|c]; cbn;
    try (split; [done|]; by intros [_ ?]).
  all: try (destruct (Z.eqb_spec z 0) as [->|Hz]; cbn;
            [|split; [done|]; intros [_ Hc]; cbn in Hc;
              by destruct (Z.eqb_spec z 0)]).
  all: try (destruct (String.eqb_spec c ""); cbn).
  all: destruct (get m "title") as [| |[]|z'|t]; cbn; try done;
    try (split; [done|]; by intros [? _]).
  all: try (destruct (Z.eqb_spec z' 0) as [->|Hz']; cbn; [done|];
            split; [done|]; intros [Ht _]; cbn in Ht;
            by destruct (Z.eqb_spec z' 0)).
  all: try by destruct (_ && _).
Qed.

Lemma renderMemoCards_typed (ms : list obj) :
  match renderMemoCards trim ms with
  | inr cards => cards.*1 = ms ∧ Forall memo_typed ms
  | inl e => e = TypeError ∧ Exists (fun m => ¬ memo_typed m) ms
  end.
Proof.
  induction ms as [|m ms IH]; cbn; [done|].
  pose proof (renderMemoCard_typed m) as Hm.
  destruct (renderMemoCard trim m) as [e|card].
  - destruct Hm as [-> Hm]. split; [done|]. by left.
  - destruct (renderMemoCards trim ms) as [e|cards].
    + destruct IH as [-> IH]. split; [done|]. by right.
    + destruct IH as [<- IH]. split; [done|]. by constructor.
Qed.

(** The sections of a list of folders that are stored. *)
Lemma run_folderSections (st : store) (fs : list obj) :
  table_wf (folders st) → Forall (fun f => f ∈ tbl_toArray (folders st)) fs →
  match run (folderSections Date_parse trim fs) st with
  | (st', inr secs) =>
      st' = st ∧ secs.*1 = fs ∧
      Forall (fun sec =>
        (∀ m, m ∈ sec.2.*1 ↔
              m ∈ tbl_toArray (memos st) ∧
              get m "folderId" = get sec.1 "id") ∧
        Forall memo_typed sec.2.*1) secs
  | (st', inl e) =>
      st' = st ∧ e = TypeError ∧
      Exists (fun f => ∃ m, m ∈ tbl_toArray (memos st) ∧
                            get m "folderId" = get f "id" ∧
                            ¬ memo_typed m) fs
  end.
Proof.
  intros Hwf. induction 1 as [|f fs Hf _ IH].
  - cbn. by repeat split.
  - apply elem_of_tbl_toArray in Hf as [k Hk].
    pose proof (to_key_Some _ _ (Hwf _ _ Hk)) as Hid.
    cbn [folderSections]. rewrite run_bind, Hid, run_getMemosByFolder.
    cbv beta iota.
    set (ms := js_sort (Store.byUpdatedAtDesc Date_parse)
                 (filter (field_is "folderId" k) (tbl_toArray (memos st)))).
    assert (∀ m, m ∈ ms ↔
                 m ∈ tbl_toArray (memos st) ∧ get m "folderId" = of_key k)
      as Hms.
    { intros m. unfold ms.
      rewrite js_sort_perm, list_elem_of_filter. unfold field_is. split.
      - intros [Hm Hin]. split; [done|]. by apply to_key_Some.
      - intros [Hin ->]. split; [apply to_key_of_key|done]. }
    pose proof (renderMemoCards_typed ms) as Hcards.
    destruct (renderMemoCards trim ms) as [e|cards].
    + destruct Hcards as [-> Hex]. cbn. split; [done|]. split; [done|].
      left. apply Exists_exists in Hex as (m & Hm & Hbad).
      exists m. apply Hms in Hm as [Hm Hfid]. by rewrite Hid.
    + destruct Hcards as [Hfst Hty]. rewrite run_bind.
      destruct (run (folderSections Date_parse trim fs) st)
        as [st' [e|secs]].
      * destruct IH as (-> & -> & IH). cbn. split; [done|].
        split; [done|]. by right.
      * destruct IH as (-> & <- & IH). cbn. split; [done|].
        split; [done|]. constructor; [|done]. cbn.
        rewrite Hfst, Hid. by split.
Qed.

(** X29. The folder list that [renderFolders] builds.  When every memo
    that points to a stored folder has a string or nothing as title and as
    content, the list has one section per stored folder and the section of a
    folder has the cards of exactly the memos whose [folderId] is the id of
    that folder; so a memo is shown in the list exactly when its [folderId]
    is the id of a stored folder, and a memo that points to no folder is
    shown nowhere in it.  When some memo that points to a stored folder has
    a title or a content that is truthy and not a string, its card cannot
    be made: the call is rejected ([TypeError]) and no list is built. *)
Theorem renderFolders_spec (st : store) :
  store_wf st →
  let shown m :=
    m ∈ tbl_toArray (memos st) ∧
    ∃ f, f ∈ tbl_toArray (folders st) ∧ get f "id" = get m "folderId" in
  ((∀ m, shown m → memo_typed m) →
   ∃ secs,
     run (renderFolders Date_parse trim) st = (st, inr secs) ∧
     secs.*1 ≡ₚ tbl_toArray (folders st) ∧
     (∀ f cards m, (f, cards) ∈ secs →
        (m ∈ cards.*1 ↔ m ∈ tbl_toArray (memos st) ∧
                        get m "folderId" = get f "id")) ∧
     (∀ m, (∃ f cards, (f, cards) ∈ secs ∧ m ∈ cards.*1) ↔ shown m)) ∧
  ((∃ m, shown m ∧ ¬ memo_typed m) →
   run (renderFolders Date_parse trim) st = (st, inl TypeError)).
Proof.
  intros [Hwf _] shown. unfold renderFolders, sortedFolders.
  rewrite !run_bind, run_getFolders. cbv beta iota.
  set (fs := js_sort (byFolderDateDesc Date_parse)
               (tbl_toArray (folders st))).
  assert (fs ≡ₚ tbl_toArray (folders st)) as Hperm by apply js_sort_perm.
  change (run (mret fs) st) with (st, @inr error _ fs). cbv beta iota.
  pose proof (run_folderSections st fs Hwf) as Hrun.
  destruct (run (folderSections Date_parse trim fs) st) as [st' [e|secs]].
  - destruct Hrun as (-> & -> & Hex).
    { apply Forall_forall. intros f Hf. by rewrite <- Hperm. }
    apply Exists_exists in Hex as (f & Hf & m & Hm & Hfid & Hbad).
    split; [|done]. intros Hall. destruct Hbad. apply Hall.
    split; [done|]. exists f. by rewrite <- Hperm.
  - destruct Hrun as (-> & Hfst & Hall).
    { apply Forall_forall. intros f Hf. by rewrite <- Hperm. }
    rewrite Forall_forall in Hall.
    assert (∀ m, (∃ f cards, (f, cards) ∈ secs ∧ m ∈ cards.*1) ↔ shown m)
      as Hshown.
    { intros m. split.
      - intros (f & cards & Hsec & Hin).
        apply (Hall _ Hsec) in Hin as [Hm Hfid]. split; [done|].
        exists f. split; [|done].
        rewrite <- Hperm, <- Hfst. apply list_elem_of_fmap.
        by exists (f, cards).
      - intros (Hm & f & Hf & Hid). rewrite <- Hperm, <- Hfst in Hf.
        apply list_elem_of_fmap in Hf as ([f' cards] & -> & Hsec).
        exists f', cards. split; [done|]. by apply (Hall _ Hsec). }
    split.
    + intros _. exists secs. split; [done|]. split; [by rewrite Hfst|].
      split; [|done]. intros f cards m Hsec. apply (Hall _ Hsec).
    + intros (m & Hm & Hbad). destruct Hbad.
      apply Hshown in Hm as (f & cards & Hsec & Hin).
      destruct (Hall _ Hsec) as [_ Hty]. rewrite Forall_forall in Hty.
      by apply Hty.
Qed.

End FolderListProperties.

Lemma ex_store3_wf : store_wf ex_store3.
Proof.
  split.
  - apply (bool_decide_unpack
             (map_Forall (fun k r => primKey r = Some k) (folders ex_store3))).
    vm_compute. exact I.
  - apply (bool_decide_unpack
             (map_Forall (fun k r => primKey r = Some k) (memos ex_store3))).
    vm_compute. exact I.
Qed.

Lemma deleteFolder_announces_witness :
  (∃ n confirmed st',
     run (deleteFolder iso_parse (of_key (KStr "f1"))) ex_store3
       = (ex_store3, inr (get ex_folder "name", n, confirmed)) ∧
     run confirmed ex_store3 = (st', inr tt) ∧
     folders st' = delete (KStr "f1") (folders ex_store3) ∧
     size (memos ex_store3) = (size (memos st') + n)%nat ∧
     memos st' ⊆ memos ex_store3) ∧
  run (deleteFolder iso_parse (of_key (KStr "f2"))) ex_store3
    = (ex_store3, inl TypeError).
Proof.
  split.
  - destruct (deleteFolder_announces iso_parse ex_store3 (KStr "f1")
                ex_store3_wf) as [Hthere _].
    apply (Hthere ex_folder). reflexivity.
  - destruct (deleteFolder_announces iso_parse ex_store3 (KStr "f2")
                ex_store3_wf) as [_ Hnone].
    apply Hnone. reflexivity.
Defined.

Lemma ex_store_num_wf : store_wf ex_store_num.
Proof.
  split.
  - apply (bool_decide_unpack
             (map_Forall (fun k r => primKey r = Some k)
                         (folders ex_store_num))).
    vm_compute. exact I.
  - apply (bool_decide_unpack
             (map_Forall (fun k r => primKey r = Some k)
                         (memos ex_store_num))).
    vm_compute. exact I.
Qed.

Lemma renderFolders_spec_witness :
  (∃ secs,
     run (renderFolders iso_parse ex_trim) ex_store3 = (ex_store3, inr secs) ∧
     secs.*1 ≡ₚ tbl_toArray (folders ex_store3) ∧
     (∀ f cards m, (f, cards) ∈ secs →
        (m ∈ cards.*1 ↔ m ∈ tbl_toArray (memos ex_store3) ∧
                        get m "folderId" = get f "id")) ∧
     ¬ (∃ f cards, (f, cards) ∈ secs ∧ ex_memo3 ∈ cards.*1)) ∧
  run (renderFolders iso_parse ex_trim) ex_store_num
    = (ex_store_num, inl TypeError).
Proof.
  split.
  - destruct (renderFolders_spec iso_parse ex_trim ex_store3 ex_store3_wf)
      as [Hok _].
    destruct Hok as (secs & Hrun & Hperm & Hsec & Hshown).
    + intros m [Hm _]. pose proof ex_store3_typed as Hty.
      rewrite Forall_forall in Hty. by apply Hty.
    + exists secs. split; [exact Hrun|]. split; [exact Hperm|].
      split; [exact Hsec|].
      intros [_ (f & Hf & Hid)]%Hshown.
      apply elem_of_tbl_toArray in Hf as [k Hk]. cbn in Hk.
      apply lookup_singleton_Some in Hk as [_ <-].
      vm_compute in Hid. discriminate Hid.
  - destruct (renderFolders_spec iso_parse ex_trim ex_store_num
                ex_store_num_wf) as [_ Hbad].
    apply Hbad. exists ex_memo_num. split; [split|].
    + apply elem_of_tbl_toArray. by exists (KStr "m5").
    + exists ex_folder. split; [|reflexivity].
      apply elem_of_tbl_toArray. by exists (KStr "f1").
    + intros [_ Hc]. vm_compute in Hc. discriminate Hc.
Defined.

(** In the example the memo of the folder that does not exist is in no
    section, and the one section shows the two memos of its folder, the
    one updated last first; the memo without a title shows the first line
    of its text. *)
Example renderFolders_ex :
  (run (renderFolders iso_parse ex_trim) ex_store3).2
  = inr [(ex_folder, [(ex_memo2, ("call Bob", ""));
                      (ex_memo, ("Plan", "buy milk"))])].
Proof. apply (bool_decide_unpack _). vm_compute. exact I. Qed.

(** * Properties of the editor functions *)

Open Scope nat_scope.

Lemma str_app_nil (b : string) : "" +:+ b = b.
Proof. reflexivity. Qed.

Lemma str_app_cons (c : ascii) (a b : string) :
  String c a +:+ b = String c (a +:+ b).
Proof. reflexivity. Qed.

Lemma str_length_append (a b : string) :
  String.length (a +:+ b) = String.length a + String.length b.
Proof.
  induction a as [|c a IH]; [done|].
  rewrite str_app_cons. simpl. by rewrite IH.
Qed.

Lemma str_append_assoc (a b c : string) : (a +:+ b) +:+ c = a +:+ b +:+ c.
Proof.
  induction a as [|x a IH]; [done|]. rewrite !str_app_cons. by rewrite IH.
Qed.

Lemma substring_0_0 (s : string) : String.substring 0 0 s = "".
Proof. by destruct s. Qed.

Lemma substring_all (s : string) :
  String.substring 0 (String.length s) s = s.
Proof. induction s as [|c s IH]; simpl; [done|]. by rewrite IH. Qed.

Lemma substring_split (s : string) : ∀ n,
  String.substring 0 n s +:+ String.substring n (String.length s - n) s = s.
Proof.
  induction s as [|c s IH]; intros [|n]; simpl.
  - done.
  - done.
  - rewrite str_app_nil. by rewrite substring_all.
  - rewrite str_app_cons. f_equal. apply IH.
Qed.

Lemma substring_length (s : string) : ∀ n m,
  String.length (String.substring n m s) = m `min` (String.length s - n).
Proof.
  induction s as [|c s IH]; intros [|n] [|m]; simpl; try done;
    rewrite IH; lia.
Qed.

Lemma substring_beyond (s : string) : ∀ n m,
  String.length s ≤ n → String.substring n m s = "".
Proof.
  induction s as [|c s IH]; intros [|n] [|m]; simpl; try done; try lia;
    intros H; apply IH; lia.
Qed.

Lemma js_substring_0 (s : string) (n : nat) :
  js_substring s 0 n = String.substring 0 n s.
Proof.
  unfold js_substring. cbn [Nat.min].
  replace (0 `max` (n `min` String.length s) - 0) with (n `min` String.length s)
    by lia.
  revert n. induction s as [|c s IH]; intros [|n]; simpl; try done.
  by rewrite IH.
Qed.

Lemma js_substring_from_eq (s : string) (n : nat) :
  js_substring_from s n = String.substring n (String.length s - n) s.
Proof.
  unfold js_substring_from, js_substring. rewrite Nat.min_id.
  destruct (Nat.le_gt_cases n (String.length s)) as [Hle|Hgt].
  - by rewrite (Nat.min_l n), Nat.min_l, Nat.max_r by lia.
  - rewrite (Nat.min_r n), Nat.min_id, Nat.max_id, Nat.sub_diag by lia.
    rewrite !substring_beyond by lia. done.
Qed.

Lemma js_substring_le (s : string) (a b : nat) :
  a ≤ b → b ≤ String.length s →
  js_substring s a b = String.substring a (b - a) s.
Proof.
  intros Hab Hb. unfold js_substring.
  by rewrite (Nat.min_l a), (Nat.min_l b), Nat.min_l, Nat.max_r by lia.
Qed.

(** A text cut at [n]: what is before and what is after. *)
Lemma js_substring_split (s : string) (n : nat) :
  js_substring s 0 n +:+ js_substring_from s n = s ∧
  String.length (js_substring s 0 n) = n `min` String.length s.
Proof.
  rewrite js_substring_0, js_substring_from_eq. split.
  - apply substring_split.
  - rewrite substring_length. lia.
Qed.

Lemma memoContent_set_value (v : string) (e : editor) :
  memoContent (set_value v e) = v.
Proof.
  unfold set_value. destruct (String.eqb_spec v (memoContent e)); by subst.
Qed.

Lemma setSelectionRange_spec (a b : nat) (e : editor) :
  a ≤ b → b ≤ String.length (memoContent e) →
  memoContent (setSelectionRange a b e) = memoContent e ∧
  selectionStart (setSelectionRange a b e) = a ∧
  selectionEnd (setSelectionRange a b e) = b.
Proof.
  intros Hab Hb. unfold setSelectionRange. simpl.
  split; [done|]. split; lia.
Qed.

(** ** escapeRegex *)

Lemma regex_special_backslash : regex_special "\"%char = true.
Proof. reflexivity. Qed.

Lemma not_special_not_backslash (c : ascii) :
  regex_special c = false → Ascii.eqb c "\"%char = false.
Proof.
  intros H. destruct (Ascii.eqb_spec c "\"%char) as [->|]; [|done].
  by rewrite regex_special_backslash in H.
Qed.

(** X16. The pattern that [escapeRegex] makes of a text matches that text
    literally: read back, with every backslash taken with the character
    after it, it is the text, and no special character is left bare.  A
    text without special characters is returned as it is (and only such a
    text), and the pattern is at most twice as long as the text. *)
Theorem escapeRegex_literal (s : string) :
  literal_of_pattern (escapeRegex s) = Some s ∧
  (escapeRegex s = s ↔ plain_text s = true) ∧
  String.length s ≤ String.length (escapeRegex s) ≤ 2 * String.length s.
Proof.
  induction s as [|c s (IHlit & IHid & IHlen)]; [done|].
  simpl. destruct (regex_special c) eqn:Hc; simpl.
  - split; [|split].
    + rewrite ?Ascii.eqb_refl, IHlit. done.
    + split; [|done]. intros Heq. injection Heq as Hc' Hrest.
      assert (String.length (String c (escapeRegex s)) = String.length s)
        as Hl by (by rewrite Hrest).
      simpl in Hl. lia.
    + lia.
  - split; [|split].
    + by rewrite (not_special_not_backslash c Hc), Hc, IHlit.
    + rewrite <- IHid. split; [by intros [= ->]|by intros ->].
    + lia.
Qed.

(** ** insertAtLineStart and wrapSelection *)

Lemma lineStartOf_spec (content : string) : ∀ start,
  let ls := lineStartOf content start in
  ls ≤ start ∧
  (ls = 0 ∨ String.get (ls - 1) content = Some "010"%char) ∧
  (∀ i, ls ≤ i → i < start → String.get i content ≠ Some "010"%char).
Proof.
  induction start as [|n (IHle & IHnl & IHno)]; simpl.
  - split; [done|]. split; [by left|]. intros i _ Hi. lia.
  - case_bool_decide as Hnl.
    + split; [done|]. split.
      { right. by replace (S n - 1) with n by lia. }
      intros i H1 H2. lia.
    + split; [lia|]. split; [done|].
      intros i H1 H2. destruct (decide (i = n)) as [->|Hne]; [done|].
      apply IHno; [done|lia].
Qed.

(** X17. [insertAtLineStart(prefix)], with the cursor inside the text:
    the prefix is inserted where the line of the cursor starts (at the
    start of the text, or right after the last line break before the
    cursor), the text before and after that point is kept, and the cursor
    ends as many characters further as the prefix has, collapsed. *)
Theorem insertAtLineStart_spec (prefix : string) (e : editor) :
  selectionStart e ≤ String.length (memoContent e) →
  ∃ before after,
    memoContent e = before +:+ after ∧
    String.length before ≤ selectionStart e ∧
    (String.length before = 0 ∨
     String.get (String.length before - 1) (memoContent e)
       = Some "010"%char) ∧
    (∀ i, String.length before ≤ i → i < selectionStart e →
          String.get i (memoContent e) ≠ Some "010"%char) ∧
    memoContent (insertAtLineStart prefix e) = before +:+ prefix +:+ after ∧
    selectionStart (insertAtLineStart prefix e)
      = selectionStart e + String.length prefix ∧
    selectionEnd (insertAtLineStart prefix e)
      = selectionStart e + String.length prefix.
Proof.
  intros Hstart.
  destruct (lineStartOf_spec (memoContent e) (selectionStart e))
    as (Hle & Hnl & Hno).
  set (ls := lineStartOf (memoContent e) (selectionStart e)) in *.
  destruct (js_substring_split (memoContent e) ls) as [Hsplit Hlen].
  rewrite Nat.min_l in Hlen by lia.
  exists (js_substring (memoContent e) 0 ls),
         (js_substring_from (memoContent e) ls).
  rewrite Hlen. split; [done|]. split; [done|]. split; [done|].
  split; [done|].
  unfold insertAtLineStart. fold ls.
  set (v := js_substring (memoContent e) 0 ls +:+ prefix +:+
            js_substring_from (memoContent e) ls).
  destruct (setSelectionRange_spec
              (selectionStart e + String.length prefix)
              (selectionStart e + String.length prefix)
              (set_value v e)) as (Hc & Hs & He); [done| |].
  - rewrite memoContent_set_value. unfold v.
    rewrite !str_length_append, Hlen.
    assert (String.length (js_substring_from (memoContent e) ls)
            = String.length (memoContent e) - ls) as ->.
    { rewrite js_substring_from_eq, substring_length. lia. }
    lia.
  - rewrite Hc, Hs, He, memoContent_set_value. done.
Qed.

Lemma substring_nil (n m : nat) : String.substring n m "" = "".
Proof. by destruct n, m. Qed.

Lemma substring_add (s : string) : ∀ n m k,
  String.substring n m s +:+ String.substring (n + m) k s
  = String.substring n (m + k) s.
Proof.
  induction s as [|c s IH]; intros n m k.
  - by rewrite !substring_nil.
  - destruct n as [|n], m as [|m]; simpl.
    + done.
    + rewrite str_app_cons. f_equal. apply (IH 0).
    + apply (IH n 0).
    + apply (IH n (S m)).
Qed.

Lemma substring_app_skip (a s : string) (n m : nat) :
  String.substring (String.length a + n) m (a +:+ s) = String.substring n m s.
Proof. induction a as [|c a IH]; [done|]. by rewrite str_app_cons. Qed.

Lemma substring_app_take (a s : string) :
  String.substring 0 (String.length a) (a +:+ s) = a.
Proof.
  induction a as [|c a IH]; [apply substring_0_0|].
  rewrite str_app_cons. simpl. by rewrite IH.
Qed.

(** A text cut at [i] and at [j]. *)
Lemma js_substring_split3 (s : string) (i j : nat) :
  i ≤ j → j ≤ String.length s →
  s = js_substring s 0 i +:+ js_substring s i j +:+ js_substring_from s j ∧
  String.length (js_substring s 0 i) = i ∧
  String.length (js_substring s i j) = j - i.
Proof.
  intros Hij Hj.
  rewrite js_substring_0, js_substring_from_eq, js_substring_le by done.
  split; [|split].
  - rewrite <- (substring_split s i) at 1. f_equal.
    replace (String.length s - i) with ((j - i) + (String.length s - j))
      by lia.
    rewrite <- substring_add. do 2 f_equal. lia.
  - rewrite substring_length. lia.
  - rewrite substring_length. lia.
Qed.

(** X18. [wrapSelection(before, after)], with a selection inside the
    text: the selected text stays where it is between the two markers, the
    text around it is kept, and afterwards the selection is again exactly
    the text that was selected (with nothing selected, the cursor sits
    between the two markers). *)
Theorem wrapSelection_spec (before after : string) (e : editor) :
  selectionStart e ≤ selectionEnd e →
  selectionEnd e ≤ String.length (memoContent e) →
  ∃ a sel b,
    memoContent e = a +:+ sel +:+ b ∧
    String.length a = selectionStart e ∧
    String.length sel = selectionEnd e - selectionStart e ∧
    memoContent (wrapSelection before after e)
      = a +:+ before +:+ sel +:+ after +:+ b ∧
    selectionStart (wrapSelection before after e)
      = selectionStart e + String.length before ∧
    selectionEnd (wrapSelection before after e)
      = selectionEnd e + String.length before ∧
    js_substring (memoContent (wrapSelection before after e))
      (selectionStart (wrapSelection before after e))
      (selectionEnd (wrapSelection before after e)) = sel.
Proof.
  intros Hse Hend.
  destruct (js_substring_split3 (memoContent e) (selectionStart e)
              (selectionEnd e) Hse Hend) as (Hsplit & Hla & Hlsel).
  set (a := js_substring (memoContent e) 0 (selectionStart e)) in *.
  set (sel := js_substring (memoContent e) (selectionStart e)
                (selectionEnd e)) in *.
  set (b := js_substring_from (memoContent e) (selectionEnd e)) in *.
  exists a, sel, b. split; [done|]. split; [done|]. split; [done|].
  set (v := a +:+ before +:+ sel +:+ after +:+ b).
  assert (wrapSelection before after e =
          setSelectionRange (selectionStart e + String.length before)
            (selectionEnd e + String.length before) (set_value v e)) as ->.
  { unfold wrapSelection. fold a sel b.
    destruct (String.eqb_spec sel "") as [Hemp|Hne]; simpl; [|done].
    assert (selectionEnd e = selectionStart e) as ->.
    { rewrite Hemp in Hlsel. simpl in Hlsel. lia. }
    unfold v. by rewrite Hemp. }
  assert (String.length v = String.length (memoContent e) +
            String.length before + String.length after) as Hlv.
  { unfold v. rewrite Hsplit, !str_length_append. lia. }
  destruct (setSelectionRange_spec
              (selectionStart e + String.length before)
              (selectionEnd e + String.length before) (set_value v e))
    as (Hc & Hs & He).
  { lia. }
  { rewrite memoContent_set_value, Hlv. lia. }
  rewrite Hc, Hs, He, memoContent_set_value.
  split; [done|]. split; [done|]. split; [done|].
  rewrite js_substring_le by (rewrite ?Hlv; lia).
  replace (selectionEnd e + String.length before -
           (selectionStart e + String.length before))
    with (String.length sel) by lia.
  unfold v. rewrite <- Hla, substring_app_skip.
  replace (String.length before) with (String.length before + 0) by lia.
  rewrite substring_app_skip. apply substring_app_take.
Qed.

(** ** findMatches, findNext, replaceOne *)

Lemma index_ge (s1 s2 : string) : ∀ n m,
  String.index n s1 s2 = Some m → n ≤ m.
Proof.
  induction s2 as [|b s2 IH]; intros [|n] m; simpl.
  - destruct s1; [|done]. intros [= <-]. done.
  - done.
  - lia.
  - destruct (String.index n s1 s2) as [k|] eqn:Hk; [|done].
    intros [= <-]. apply IH in Hk. lia.
Qed.

Lemma occurs_at_lt (sub s : string) (p : nat) :
  sub ≠ "" → occurs_at sub s p → p < String.length s.
Proof.
  intros Hne Hocc. destruct (Nat.le_gt_cases (String.length s) p); [|done].
  unfold occurs_at in Hocc. rewrite substring_beyond in Hocc by done.
  by destruct Hne.
Qed.

Lemma js_indexOf_nonempty (s sub : string) (from : nat) :
  sub ≠ "" → js_indexOf s sub from = String.index from sub s.
Proof.
  intros Hne. unfold js_indexOf. by destruct (String.eqb_spec sub "").
Qed.

Lemma findMatches_loop_spec (lc lq : string) (n : nat) : lq ≠ "" →
  ∀ fuel index ms,
  findMatches_loop fuel lc lq n index = Some ms →
  Forall (occurs_at lq lc) ms ∧
  Forall (fun m => index ≤ m) ms ∧
  StronglySorted (fun a b => a + n ≤ b) ms ∧
  (∀ p, index ≤ p → occurs_at lq lc p →
        ∃ m, m ∈ ms ∧ m ≤ p ∧ p < m + n).
Proof.
  intros Hne. induction fuel as [|fuel IH]; intros index ms; simpl; [done|].
  rewrite js_indexOf_nonempty by done.
  destruct (String.index index lq lc) as [i|] eqn:Hi.
  - destruct (findMatches_loop fuel lc lq n (i + n)) as [ms'|] eqn:Hrec;
      [|done].
    intros [= <-]. destruct (IH _ _ Hrec) as (Hocc & Hge & Hsorted & Hall).
    pose proof (index_ge _ _ _ _ Hi) as Hle.
    split; [|split; [|split]].
    + constructor; [|done]. eapply String.index_correct1. exact Hi.
    + constructor; [done|].
      eapply Forall_impl; [exact Hge|]. intros m Hm. simpl in Hm. lia.
    + constructor; [done|].
      eapply Forall_impl; [exact Hge|]. intros m Hm. simpl in Hm. lia.
    + intros p Hp Hpocc.
      destruct (Nat.lt_ge_cases p i) as [Hlt|Hgei].
      { by destruct (String.index_correct2 _ _ _ _ Hi p Hp Hlt). }
      destruct (Nat.lt_ge_cases p (i + n)) as [Hin|Hout].
      * exists i. split; [left|done].
      * destruct (Hall p Hout Hpocc) as (m & Hm & Hmp).
        exists m. split; [by right|done].
  - intros [= <-]. repeat split; try constructor.
    intros p Hp Hpocc.
    by destruct (String.index_correct3 _ p _ _ Hi Hne Hp).
Qed.

Lemma findMatches_loop_total (lc lq : string) (n : nat) :
  lq ≠ "" → 1 ≤ n →
  ∀ fuel index, String.length lc - index < fuel →
  ∃ ms, findMatches_loop fuel lc lq n index = Some ms.
Proof.
  intros Hne Hn. induction fuel as [|fuel IH]; intros index Hfuel; [lia|].
  simpl. rewrite js_indexOf_nonempty by done.
  destruct (String.index index lq lc) as [i|] eqn:Hi; [|by eexists].
  pose proof (index_ge _ _ _ _ Hi) as Hle.
  pose proof (occurs_at_lt lq lc i Hne (String.index_correct1 _ _ _ _ Hi))
    as Hlt.
  destruct (IH (i + n)) as [ms ->]; [lia|]. by eexists.
Qed.

Section EditorSearch.

Variable toLowerCase : string → string.

Lemma findMatches_nonempty_query (e : editor) :
  searchText e ≠ "" → toLowerCase (searchText e) ≠ "" →
  ∃ e',
    findMatches toLowerCase e = Some e' ∧
    memoContent e' = memoContent e ∧ searchText e' = searchText e ∧
    replaceText e' = replaceText e ∧
    Forall (occurs_at (toLowerCase (searchText e))
                      (toLowerCase (memoContent e))) (searchMatches e') ∧
    StronglySorted (fun a b => a + String.length (searchText e) ≤ b)
                   (searchMatches e') ∧
    (∀ p, occurs_at (toLowerCase (searchText e))
                    (toLowerCase (memoContent e)) p →
          ∃ m, m ∈ searchMatches e' ∧ m ≤ p ∧
               p < m + String.length (searchText e)) ∧
    (searchMatches e' ≠ [] → searchMatchIndex e' = 0).
Proof.
  intros Hq Hlq. unfold findMatches.
  destruct (String.eqb_spec (searchText e) "") as [|_]; [done|].
  assert (1 ≤ String.length (searchText e)) as Hlen.
  { destruct (searchText e); [done|simpl; lia]. }
  destruct (findMatches_loop_total (toLowerCase (memoContent e))
              (toLowerCase (searchText e)) (String.length (searchText e))
              Hlq Hlen (S (String.length (toLowerCase (memoContent e)))) 0)
    as [ms Hms]; [lia|].
  rewrite Hms.
  destruct (findMatches_loop_spec _ _ _ Hlq _ _ _ Hms)
    as (Hocc & _ & Hsorted & Hall).
  assert (∀ p, occurs_at (toLowerCase (searchText e))
                 (toLowerCase (memoContent e)) p →
               ∃ m, m ∈ ms ∧ m ≤ p ∧ p < m + String.length (searchText e))
    as Hall' by (intros p Hp; apply Hall; [lia|done]).
  destruct ms as [|m ms]; simpl.
  - eexists. split; [reflexivity|]. simpl. repeat split; done.
  - eexists. split; [reflexivity|].
    unfold highlightMatch, setSelectionRange. simpl. repeat split; done.
Qed.

(** X19. [findMatches] with a search text: the loop ends, the text and the
    search fields are kept, and the list of matches holds positions at which
    the lowercased search text occurs in the lowercased text, in ascending
    order and at least the length of the search text apart; every occurrence
    is in the list or starts inside a listed match.  When there is a match
    the current match is the first one.  With an empty search text the list
    is emptied. *)
Theorem findMatches_spec (e : editor) :
  (searchText e = "" → findMatches toLowerCase e = Some (set_matches [] e)) ∧
  (searchText e ≠ "" → toLowerCase (searchText e) ≠ "" →
   ∃ e',
     findMatches toLowerCase e = Some e' ∧
     memoContent e' = memoContent e ∧ searchText e' = searchText e ∧
     replaceText e' = replaceText e ∧
     Forall (occurs_at (toLowerCase (searchText e))
                       (toLowerCase (memoContent e))) (searchMatches e') ∧
     StronglySorted (fun a b => a + String.length (searchText e) ≤ b)
                    (searchMatches e') ∧
     (∀ p, occurs_at (toLowerCase (searchText e))
                     (toLowerCase (memoContent e)) p →
           ∃ m, m ∈ searchMatches e' ∧ m ≤ p ∧
                p < m + String.length (searchText e)) ∧
     (searchMatches e' ≠ [] → searchMatchIndex e' = 0)).
Proof.
  split.
  - intros Hq. unfold findMatches. by rewrite Hq.
  - apply findMatches_nonempty_query.
Qed.

Lemma highlightMatch_keeps (e : editor) :
  memoContent (highlightMatch e) = memoContent e ∧
  searchText (highlightMatch e) = searchText e ∧
  replaceText (highlightMatch e) = replaceText e ∧
  searchMatches (highlightMatch e) = searchMatches e ∧
  searchMatchIndex (highlightMatch e) = searchMatchIndex e.
Proof.
  unfold highlightMatch. destruct (searchMatches e) eqn:Hm; [done|].
  by destruct (_ !! _).
Qed.

Lemma run_findNext (e : editor) :
  searchMatches e ≠ [] →
  findNext toLowerCase e =
    Some (highlightMatch
            (set_index ((searchMatchIndex e + 1)
                          `mod` length (searchMatches e)) e)).
Proof. unfold findNext. by destruct (searchMatches e). Qed.

Lemma findNext_iter (e : editor) (k : nat) :
  searchMatches e ≠ [] → searchMatchIndex e < length (searchMatches e) →
  ∃ ek, Nat.iter k (fun o => o ≫= findNext toLowerCase) (Some e) = Some ek ∧
        searchMatches ek = searchMatches e ∧
        memoContent ek = memoContent e ∧
        searchMatchIndex ek
          = (searchMatchIndex e + k) `mod` length (searchMatches e).
Proof.
  intros Hne Hi. induction k as [|k (ek & Hek & Hms & Hc & Hidx)].
  - exists e. rewrite Nat.add_0_r, Nat.mod_small by done. done.
  - rewrite Nat.iter_succ, Hek. simpl.
    rewrite run_findNext by (by rewrite Hms).
    eexists. split; [reflexivity|].
    destruct (highlightMatch_keeps
                (set_index ((searchMatchIndex ek + 1)
                              `mod` length (searchMatches ek)) ek))
      as (-> & _ & _ & -> & ->). simpl.
    split; [done|]. split; [done|].
    rewrite Hms, Hidx, Nat.Div0.add_mod_idemp_l. f_equal. lia.
Qed.

(** X20. [findNext] with a list of matches moves the current match one
    further, from the last back to the first; the list and the text are
    kept, the current match stays inside the list, the selection becomes
    that match, and after as many steps as there are matches the current
    match is the one it started from. *)
Theorem findNext_cycles (e : editor) :
  searchMatches e ≠ [] → searchMatchIndex e < length (searchMatches e) →
  (∃ e',
     findNext toLowerCase e = Some e' ∧
     searchMatches e' = searchMatches e ∧ memoContent e' = memoContent e ∧
     searchMatchIndex e'
       = (searchMatchIndex e + 1) `mod` length (searchMatches e) ∧
     searchMatchIndex e' < length (searchMatches e') ∧
     (∀ pos, searchMatches e' !! searchMatchIndex e' = Some pos →
             pos + String.length (searchText e)
               ≤ String.length (memoContent e) →
             selectionStart e' = pos ∧
             selectionEnd e' = pos + String.length (searchText e))) ∧
  (∃ e'',
     Nat.iter (length (searchMatches e))
       (fun o => o ≫= findNext toLowerCase) (Some e) = Some e'' ∧
     searchMatches e'' = searchMatches e ∧
     searchMatchIndex e'' = searchMatchIndex e).
Proof.
  intros Hne Hi. split.
  - rewrite run_findNext by done. eexists. split; [reflexivity|].
    set (e1 := set_index ((searchMatchIndex e + 1)
                            `mod` length (searchMatches e)) e).
    destruct (highlightMatch_keeps e1) as (Hc & _ & _ & Hms & Hidx).
    rewrite Hc, Hms, Hidx. simpl.
    split; [done|]. split; [done|]. split; [done|]. split.
    + apply Nat.mod_upper_bound. by destruct (searchMatches e).
    + intros pos Hpos Hfit. unfold highlightMatch. simpl.
      destruct (searchMatches e) as [|m ms] eqn:Hm; [done|].
      rewrite Hpos. unfold setSelectionRange. simpl. lia.
  - destruct (findNext_iter e (length (searchMatches e)) Hne Hi)
      as (ek & Hek & Hms & _ & Hidx).
    exists ek. split; [done|]. split; [done|].
    rewrite Hidx.
    replace (searchMatchIndex e + length (searchMatches e))
      with (searchMatchIndex e + 1 * length (searchMatches e)) by lia.
    rewrite Nat.Div0.mod_add. by apply Nat.mod_small.
Qed.

Lemma set_value_keeps (v : string) (e : editor) :
  searchText (set_value v e) = searchText e ∧
  replaceText (set_value v e) = replaceText e.
Proof. unfold set_value. by destruct (String.eqb v (memoContent e)). Qed.

(** X21. [replaceOne] with a search text and a current match that lies
    inside the text replaces exactly the characters of that match (as many
    as the search text has, from the position of the match) by the
    replacement text and keeps the text before and after it; the matches are
    then searched again in the new text.  When lowercasing works character
    by character, the replaced characters are the search text up to case. *)
Theorem replaceOne_spec (e : editor) (pos : nat) :
  searchText e ≠ "" → toLowerCase (searchText e) ≠ "" →
  searchMatches e !! searchMatchIndex e = Some pos →
  pos + String.length (searchText e) ≤ String.length (memoContent e) →
  ∃ before seg after e',
    memoContent e = before +:+ seg +:+ after ∧
    String.length before = pos ∧
    String.length seg = String.length (searchText e) ∧
    replaceOne toLowerCase e = Some e' ∧
    memoContent e' = before +:+ replaceText e +:+ after ∧
    Forall (occurs_at (toLowerCase (searchText e))
                      (toLowerCase (memoContent e'))) (searchMatches e') ∧
    ((∀ s n m, toLowerCase (String.substring n m s)
               = String.substring n m (toLowerCase s)) →
     String.length (toLowerCase (searchText e))
       = String.length (searchText e) →
     occurs_at (toLowerCase (searchText e)) (toLowerCase (memoContent e)) pos →
     toLowerCase seg = toLowerCase (searchText e)).
Proof.
  intros Hq Hlq Hpos Hfit.
  destruct (js_substring_split3 (memoContent e) pos
              (pos + String.length (searchText e))) as (Hsplit & Hlb & Hls);
    [lia|done|].
  set (before := js_substring (memoContent e) 0 pos) in *.
  set (seg := js_substring (memoContent e) pos
                (pos + String.length (searchText e))) in *.
  set (after := js_substring_from (memoContent e)
                  (pos + String.length (searchText e))) in *.
  set (v := before +:+ replaceText e +:+ after).
  assert (replaceOne toLowerCase e = findMatches toLowerCase (set_value v e))
    as Hrep.
  { unfold replaceOne. destruct (String.eqb_spec (searchText e) ""); [done|].
    case_bool_decide as Hms; [by rewrite Hms in Hpos|]. simpl.
    by rewrite Hpos. }
  destruct (set_value_keeps v e) as [Hst Hrt].
  destruct (findMatches_nonempty_query (set_value v e))
    as (e' & Hfm & Hc & _ & _ & Hocc & _); [by rewrite Hst..|].
  rewrite memoContent_set_value in Hc.
  rewrite Hst, memoContent_set_value in Hocc.
  exists before, seg, after, e'.
  split; [done|]. split; [done|]. split; [lia|].
  split; [by rewrite Hrep|]. split; [done|]. split; [by rewrite Hc|].
  intros Hchar Hlen Hoccurs. unfold seg.
  rewrite js_substring_le by lia.
  replace (pos + String.length (searchText e) - pos)
    with (String.length (toLowerCase (searchText e))) by lia.
  by rewrite Hchar.
Qed.

End EditorSearch.

(** ** The editor on examples *)

Lemma ascii_toLowerCase_substring (s : string) : ∀ n m,
  ascii_toLowerCase (String.substring n m s)
  = String.substring n m (ascii_toLowerCase s).
Proof.
  induction s as [|c s IH]; intros [|n] [|m]; simpl; try done;
    by rewrite IH.
Qed.

Lemma ascii_toLowerCase_length (s : string) :
  String.length (ascii_toLowerCase s) = String.length s.
Proof. induction s as [|c s IH]; simpl; [done|]. by rewrite IH. Qed.

Lemma escapeRegex_literal_witness :
  escapeRegex "a.b*(c)" = "a\.b\*\(c\)" ∧
  literal_of_pattern (escapeRegex "a.b*(c)") = Some "a.b*(c)" ∧
  escapeRegex "plain text" = "plain text".
Proof.
  destruct (escapeRegex_literal "a.b*(c)") as (Hlit & _ & _).
  destruct (escapeRegex_literal "plain text") as (_ & Hid & _).
  split; [reflexivity|]. split; [exact Hlit|]. apply Hid. reflexivity.
Defined.

Lemma insertAtLineStart_spec_witness :
  ∃ before after,
    ex_lines = before +:+ after ∧
    String.length before ≤ 4 ∧
    (String.length before = 0 ∨
     String.get (String.length before - 1) ex_lines = Some "010"%char) ∧
    (∀ i, String.length before ≤ i → i < 4 →
          String.get i ex_lines ≠ Some "010"%char) ∧
    memoContent (insertAtLineStart "## " (mkEditor ex_lines 4 4 "" "" [] 0))
      = before +:+ "## " +:+ after ∧
    selectionStart (insertAtLineStart "## " (mkEditor ex_lines 4 4 "" "" [] 0))
      = 4 + 3 ∧
    selectionEnd (insertAtLineStart "## " (mkEditor ex_lines 4 4 "" "" [] 0))
      = 4 + 3.
Proof.
  apply (insertAtLineStart_spec "## " (mkEditor ex_lines 4 4 "" "" [] 0)).
  simpl. lia.
Defined.

Lemma wrapSelection_spec_witness :
  ∃ a sel b,
    "abcdef" = a +:+ sel +:+ b ∧
    String.length a = 2 ∧ String.length sel = 4 - 2 ∧
    memoContent (wrapSelection "**" "**" (mkEditor "abcdef" 2 4 "" "" [] 0))
      = a +:+ "**" +:+ sel +:+ "**" +:+ b ∧
    selectionStart (wrapSelection "**" "**" (mkEditor "abcdef" 2 4 "" "" [] 0))
      = 2 + 2 ∧
    selectionEnd (wrapSelection "**" "**" (mkEditor "abcdef" 2 4 "" "" [] 0))
      = 4 + 2 ∧
    js_substring
      (memoContent (wrapSelection "**" "**" (mkEditor "abcdef" 2 4 "" "" [] 0)))
      (selectionStart (wrapSelection "**" "**"
                         (mkEditor "abcdef" 2 4 "" "" [] 0)))
      (selectionEnd (wrapSelection "**" "**"
                       (mkEditor "abcdef" 2 4 "" "" [] 0))) = sel.
Proof.
  apply (wrapSelection_spec "**" "**" (mkEditor "abcdef" 2 4 "" "" [] 0));
    simpl; lia.
Defined.

Lemma findMatches_spec_witness :
  ∃ e',
    findMatches ascii_toLowerCase ex_editor = Some e' ∧
    memoContent e' = memoContent ex_editor ∧
    searchText e' = searchText ex_editor ∧
    replaceText e' = replaceText ex_editor ∧
    Forall (occurs_at (ascii_toLowerCase (searchText ex_editor))
                      (ascii_toLowerCase (memoContent ex_editor)))
           (searchMatches e') ∧
    StronglySorted (fun a b => a + String.length (searchText ex_editor) ≤ b)
                   (searchMatches e') ∧
    (∀ p, occurs_at (ascii_toLowerCase (searchText ex_editor))
                    (ascii_toLowerCase (memoContent ex_editor)) p →
          ∃ m, m ∈ searchMatches e' ∧ m ≤ p ∧
               p < m + String.length (searchText ex_editor)) ∧
    (searchMatches e' ≠ [] → searchMatchIndex e' = 0).
Proof.
  apply (findMatches_spec ascii_toLowerCase ex_editor); simpl; discriminate.
Defined.

Example findMatches_ex :
  searchMatches <$> findMatches ascii_toLowerCase ex_editor = Some [0; 13].
Proof. reflexivity. Qed.

Lemma findNext_cycles_witness :
  (∃ e',
     findNext ascii_toLowerCase ex_editor = Some e' ∧
     searchMatches e' = searchMatches ex_editor ∧
     memoContent e' = memoContent ex_editor ∧
     searchMatchIndex e'
       = (searchMatchIndex ex_editor + 1)
           `mod` length (searchMatches ex_editor) ∧
     searchMatchIndex e' < length (searchMatches e') ∧
     (∀ pos, searchMatches e' !! searchMatchIndex e' = Some pos →
             pos + String.length (searchText ex_editor)
               ≤ String.length (memoContent ex_editor) →
             selectionStart e' = pos ∧
             selectionEnd e' = pos + String.length (searchText ex_editor))) ∧
  (∃ e'',
     Nat.iter (length (searchMatches ex_editor))
       (fun o => o ≫= findNext ascii_toLowerCase) (Some ex_editor)
       = Some e'' ∧
     searchMatches e'' = searchMatches ex_editor ∧
     searchMatchIndex e'' = searchMatchIndex ex_editor).
Proof.
  apply (findNext_cycles ascii_toLowerCase ex_editor); simpl;
    [discriminate|lia].
Defined.

Lemma replaceOne_spec_witness :
  ∃ before seg after e',
    memoContent ex_editor = before +:+ seg +:+ after ∧
    String.length before = 13 ∧
    String.length seg = String.length (searchText ex_editor) ∧
    replaceOne ascii_toLowerCase ex_editor = Some e' ∧
    memoContent e' = before +:+ replaceText ex_editor +:+ after ∧
    Forall (occurs_at (ascii_toLowerCase (searchText ex_editor))
                      (ascii_toLowerCase (memoContent e')))
           (searchMatches e') ∧
    ascii_toLowerCase seg = ascii_toLowerCase (searchText ex_editor).
Proof.
  destruct (replaceOne_spec ascii_toLowerCase ex_editor 13)
    as (before & seg & after & e' & H1 & H2 & H3 & H4 & H5 & H6 & H7).
  - simpl. discriminate.
  - simpl. discriminate.
  - reflexivity.
  - simpl. lia.
  - exists before, seg, after, e'. repeat split; try assumption.
    apply H7.
    + apply ascii_toLowerCase_substring.
    + apply ascii_toLowerCase_length.
    + reflexivity.
Defined.

Example replaceOne_ex :
  memoContent <$> replaceOne ascii_toLowerCase ex_editor
  = Some "Hello world, bye World".
Proof. reflexivity. Qed.

(** With the current match past the end of the list the text is doubled
    around the replacement. *)
Example replaceOne_past_the_list :
  memoContent <$> replaceOne ascii_toLowerCase
                    (mkEditor "ab" 0 0 "a" "X" [0] 3)
  = Some "abXab".
Proof. reflexivity. Qed.

(** ** insertHr *)

Lemma str_get_app_skip (a s : string) (n : nat) :
  String.get (String.length a + n) (a +:+ s) = String.get n s.
Proof. induction a as [|c a IH]; [done|]. by rewrite str_app_cons. Qed.

Lemma lineStartOf_after_break (content : string) (n : nat) :
  String.get n content = Some "010"%char → lineStartOf content (S n) = S n.
Proof. intros H. simpl. by rewrite bool_decide_eq_true_2. Qed.

(** X26. [insertHr], with the cursor inside the text, puts a rule (two
    line breaks, three dashes, two line breaks) at the cursor, keeps the
    text before and after it and leaves the cursor right after the rule,
    at the start of a line: an [insertAtLineStart(prefix)] that follows
    puts its prefix directly after the rule. *)
Theorem insertHr_spec (e : editor) :
  let hr := String "010" (String "010" ("---" +:+
              String "010" (String "010" EmptyString))) in
  selectionStart e ≤ String.length (memoContent e) →
  ∃ before after,
    memoContent e = before +:+ after ∧
    String.length before = selectionStart e ∧
    memoContent (insertHr e) = before +:+ hr +:+ after ∧
    selectionStart (insertHr e) = selectionStart e + 7 ∧
    selectionEnd (insertHr e) = selectionStart e + 7 ∧
    ∀ prefix,
      memoContent (insertAtLineStart prefix (insertHr e))
        = before +:+ hr +:+ prefix +:+ after ∧
      selectionStart (insertAtLineStart prefix (insertHr e))
        = selectionStart e + 7 + String.length prefix.
Proof.
  intros hr Hstart.
  destruct (js_substring_split (memoContent e) (selectionStart e))
    as [Hsplit Hlen].
  rewrite Nat.min_l in Hlen by lia.
  set (before := js_substring (memoContent e) 0 (selectionStart e)) in *.
  set (after := js_substring_from (memoContent e) (selectionStart e)) in *.
  exists before, after. split; [done|]. split; [done|].
  set (v := before +:+ hr +:+ after).
  assert (String.length v = String.length (memoContent e) + 7) as Hlv.
  { unfold v. rewrite <- Hsplit, !str_length_append. simpl. lia. }
  assert (insertHr e = setSelectionRange (selectionStart e + 7)
                         (selectionStart e + 7) (set_value v e)) as Hhr
    by done.
  destruct (setSelectionRange_spec (selectionStart e + 7)
              (selectionStart e + 7) (set_value v e)) as (Hc & Hs & He).
  { done. }
  { rewrite memoContent_set_value, Hlv. lia. }
  rewrite <- Hhr in Hc, Hs, He. rewrite memoContent_set_value in Hc.
  split; [done|]. split; [done|]. split; [done|].
  intros prefix. unfold insertAtLineStart. rewrite Hc, Hs.
  assert (lineStartOf v (selectionStart e + 7) = selectionStart e + 7) as ->.
  { replace (selectionStart e + 7) with (S (selectionStart e + 6)) by lia.
    apply lineStartOf_after_break. unfold v.
    rewrite <- Hlen, str_get_app_skip. done. }
  assert (js_substring v 0 (selectionStart e + 7) = before +:+ hr) as ->.
  { rewrite js_substring_0. unfold v. rewrite <- str_append_assoc.
    replace (selectionStart e + 7) with (String.length (before +:+ hr))
      by (rewrite str_length_append; simpl; lia).
    apply substring_app_take. }
  assert (js_substring_from v (selectionStart e + 7) = after) as ->.
  { rewrite js_substring_from_eq. unfold v at 2.
    rewrite <- str_append_assoc.
    replace (selectionStart e + 7) with (String.length (before +:+ hr) + 0)
      by (rewrite str_length_append; simpl; lia).
    rewrite substring_app_skip.
    replace (String.length v - (String.length (before +:+ hr) + 0))
      with (String.length after).
    - apply substring_all.
    - unfold v. rewrite !str_length_append. simpl. lia. }
  set (w := (before +:+ hr) +:+ prefix +:+ after).
  destruct (setSelectionRange_spec
              (selectionStart e + 7 + String.length prefix)
              (selectionStart e + 7 + String.length prefix)
              (set_value w (insertHr e))) as (Hc' & Hs' & _).
  { done. }
  { rewrite memoContent_set_value. unfold w.
    rewrite !str_length_append, Hlen. simpl. lia. }
  rewrite Hc', Hs', memoContent_set_value. unfold w.
  by rewrite str_append_assoc.
Qed.

Lemma insertHr_spec_witness :
  ∃ before after,
    "ab" = before +:+ after ∧
    String.length before = 1 ∧
    memoContent (insertHr (mkEditor "ab" 1 1 "" "" [] 0))
      = before +:+ String "010" (String "010" ("---" +:+
          String "010" (String "010" EmptyString))) +:+ after ∧
    selectionStart (insertHr (mkEditor "ab" 1 1 "" "" [] 0)) = 1 + 7 ∧
    selectionEnd (insertHr (mkEditor "ab" 1 1 "" "" [] 0)) = 1 + 7 ∧
    ∀ prefix,
      memoContent (insertAtLineStart prefix
                     (insertHr (mkEditor "ab" 1 1 "" "" [] 0)))
        = before +:+ String "010" (String "010" ("---" +:+
            String "010" (String "010" EmptyString))) +:+ prefix +:+ after ∧
      selectionStart (insertAtLineStart prefix
                        (insertHr (mkEditor "ab" 1 1 "" "" [] 0)))
        = 1 + 7 + String.length prefix.
Proof.
  apply (insertHr_spec (mkEditor "ab" 1 1 "" "" [] 0)). simpl. lia.
Defined.
